(** * CloudMart tagging dashboard: ingestion, filters, aggregates, remediation

    A shallow embedding of [cloudmart_tagging_app.py]: the row-repairing
    loader [load_data], the sidebar lists and the filter block, the cost and
    missing-value aggregations, the "apply changes" handler of the
    remediation page, the CSV export and the session state the runs of the
    script share, followed by the properties proved about them. *)

From Stdlib Require Import Ascii String Bool Arith ZArith QArith Qround Lia.
From Stdlib Require Import Lqa.
From Stdlib Require Import DecimalString DecimalZ DecimalPos List.
Import ListNotations.
Close Scope Q_scope.

Set Implicit Arguments.

(** ** Python strings and slices *)

(** A Python [str] is modelled as the list of its characters. *)
Definition str := list ascii.

(** String literals of the development. *)
Definition s (x : string) : str := list_ascii_of_string x.
Arguments s x%_string.

Definition comma : ascii := ","%char.
Definition newline : ascii := "010"%char.
Definition dquote : ascii := "034"%char.

Definition str_eqb (a b : str) : bool :=
  if list_eq_dec ascii_dec a b then true else false.

(** [str.isspace] on one character (code points below 256). *)
Definition isspace (c : ascii) : bool :=
  let n := nat_of_ascii c in
  ((9 <=? n) && (n <=? 13)) || ((28 <=? n) && (n <=? 32))
  || (n =? 133) || (n =? 160).

Fixpoint lstrip (l : str) : str :=
  match l with
  | [] => []
  | c :: l' => if isspace c then lstrip l' else l
  end.

Definition rstrip (l : str) : str := rev (lstrip (rev l)).

(** [x.strip()] *)
Definition strip (l : str) : str := rstrip (lstrip l).

(** [x.split(sep)] for a one-character separator: never the empty list. *)
Fixpoint split (sep : ascii) (l : str) : list str :=
  match l with
  | [] => [[]]
  | c :: l' =>
      if Ascii.eqb c sep then [] :: split sep l'
      else match split sep l' with
           | [] => [[c]]
           | w :: ws => (c :: w) :: ws
           end
  end.

(** [sep.join(ws)] *)
Fixpoint join (sep : ascii) (ws : list str) : str :=
  match ws with
  | [] => []
  | [w] => w
  | w :: ws' => w ++ sep :: join sep ws'
  end.

(** Python's normalisation of a slice bound against a length: a negative
    bound counts from the end, and the result is clamped to [0, len]. *)
Definition slice_bound (len : nat) (i : Z) : nat :=
  if (i <? 0)%Z then Z.to_nat (Z.max 0 (Z.of_nat len + i))
  else Nat.min len (Z.to_nat i).

(** [l[lo:hi]]; [None] is an omitted bound. *)
Definition slice {A} (l : list A) (lo hi : option Z) : list A :=
  let a := match lo with Some i => slice_bound (length l) i | None => 0 end in
  let b := match hi with Some i => slice_bound (length l) i
                       | None => length l end in
  firstn (b - a) (skipn a l).

Definition startswith (c : ascii) (l : str) : bool :=
  match l with
  | [] => false
  | x :: _ => Ascii.eqb x c
  end.

Definition endswith (c : ascii) (l : str) : bool := startswith c (rev l).

(** [if line.startswith('"') and line.endswith('"'): line = line[1:-1]] *)
Definition unquote (line : str) : str :=
  if startswith dquote line && endswith dquote line
  then slice line (Some 1%Z) (Some (-1)%Z)
  else line.

(** A string that starts, or ends, with a character that is not white
    space, and a string [strip] has nothing to remove from. *)
Definition starts_solid (l : str) : bool :=
  match l with
  | [] => false
  | c :: _ => negb (isspace c)
  end.

Definition ends_solid (l : str) : bool := starts_solid (rev l).

Definition trimmed (l : str) : bool :=
  match l with
  | [] => true
  | _ => starts_solid l && ends_solid l
  end.

(** [c not in x] *)
Definition free_of (c : ascii) (x : str) : bool :=
  negb (existsb (Ascii.eqb c) x).

(** ** Row Repair Parser (the first half of [load_data]) *)

(** The body of the loop over [lines[1:]], up to [data_rows.append]. *)
Definition repair (expected_cols : nat) (fields : list str) : list str :=
  if length fields <? expected_cols then
    let missing_count := expected_cols - length fields in
    let first_part := slice fields None (Some (-3)%Z) in
    let last_three := slice fields (Some (-3)%Z) None in
    let padding := repeat ([] : str) missing_count in
    first_part ++ padding ++ last_three
  else if expected_cols <? length fields then
    slice fields None (Some (Z.of_nat expected_cols))
  else fields.

Definition fields_of (line : str) : list str :=
  split comma (unquote (strip line)).

Definition lines_of (content : str) : list str :=
  split newline (strip content).

Definition headers_of (content : str) : list str :=
  map strip (split comma (unquote (strip (hd [] (lines_of content))))).

(** The [for] loop, accumulating [data_rows] in order. *)
Definition data_rows_of (content : str) : list (list str) :=
  let expected_cols := length (headers_of content) in
  fold_left
    (fun data_rows line => data_rows ++ [repair expected_cols (fields_of line)])
    (tl (lines_of content)) [].

(** ** Typed Table Loader (the second half of [load_data]) *)

Section Frames.

(** The numeric values of a [MonthlyCostUSD] cell, with pandas' parser
    ([pd.to_numeric], [None] where the text does not parse) and the text
    [to_csv] prints for a value. *)
Variable num : Type.
Variable to_numeric : str -> option num.
Variable num_repr : num -> str.

(** A cell: the missing marker ([pd.NA] / [NaN]), a string or a number. *)
Inductive cell : Type :=
| NA
| Str (x : str)
| Num (x : num).

(** A data frame: its column labels and its rows in order, each row with its
    index label. *)
Record DataFrame : Type := mkDF {
  columns : list str;
  rows : list (nat * list cell)
}.

Definition index (df : DataFrame) : list nat := map fst (rows df).

(** [len(df)] *)
Definition df_len (df : DataFrame) : nat := length (rows df).

Definition MonthlyCostUSD : str := s "MonthlyCostUSD".
Definition Tagged : str := s "Tagged".
Definition Service : str := s "Service".
Definition Region : str := s "Region".
Definition Department : str := s "Department".
Definition Environment : str := s "Environment".
Definition Project : str := s "Project".
Definition Owner : str := s "Owner".
Definition Yes : str := s "Yes".
Definition No : str := s "No".
Definition All : str := s "All".

(** [col in df.columns] *)
Definition has_column (cols : list str) (col : str) : bool :=
  existsb (str_eqb col) cols.

(** Position of the first column labelled [col]. *)
Fixpoint col_pos (cols : list str) (col : str) : option nat :=
  match cols with
  | [] => None
  | c :: cols' =>
      if str_eqb col c then Some 0
      else option_map S (col_pos cols' col)
  end.

Fixpoint distinct (l : list str) : bool :=
  match l with
  | [] => true
  | x :: l' => negb (existsb (str_eqb x) l') && distinct l'
  end.

(** The outcome of the test [df[col].dtype == 'object'] on a column the
    frame constructor built from Python strings: [true] where pandas gives
    such a column the object dtype (before 3.0), [false] where it gives it
    the string dtype (3.0 and later).  Every column of [data_rows] holds
    strings only, so the outcome is the same for all of them. *)
Variable object_dtype : bool.

(** [if df[col].dtype == 'object': df[col] = df[col].str.strip()], then
    [df.replace('', pd.NA)], on one text cell: the strip is under the test,
    the replacement is not. *)
Definition clean_cell (x : str) : cell :=
  let y := if object_dtype then strip x else x in
  match y with
  | [] => NA
  | _ => Str y
  end.

(** [pd.to_numeric(..., errors='coerce')] on one cell. *)
Definition coerce_cell (c : cell) : cell :=
  match c with
  | NA => NA
  | Str x => match to_numeric x with
             | Some v => Num v
             | None => NA
             end
  | Num v => Num v
  end.

Definition type_cell (col : str) (x : str) : cell :=
  let c := clean_cell x in
  if str_eqb col MonthlyCostUSD then coerce_cell c else c.

Fixpoint type_row (cols : list str) (fields : list str) : list cell :=
  match cols, fields with
  | col :: cols', x :: fields' => type_cell col x :: type_row cols' fields'
  | _, _ => []
  end.

Fixpoint enumerate_from {A} (n : nat) (l : list A) : list (nat * A) :=
  match l with
  | [] => []
  | x :: l' => (n, x) :: enumerate_from (S n) l'
  end.

(** [load_data], from line 38 on, for the text [content] the file decoded
    to: [None] stands for the [except] branch.  The frame constructor
    refuses rows whose width is not the number of columns, and
    [df[col].dtype] raises when a label occurs twice in the header (the
    selection is then a frame, not a column). *)
Definition load_data (content : str) : option DataFrame :=
  let headers := headers_of content in
  let data_rows := data_rows_of content in
  if negb (forallb (fun r => length r =? length headers) data_rows) then None
  else if negb (distinct headers) then None
  else Some (mkDF headers
               (enumerate_from 0 (map (type_row headers) data_rows))).

(** [load_data] with its first lines: [content.decode('utf-8')] is inside
    the [try] too, so bytes that are not UTF-8 end in the [except] branch.
    [decoded] is what the decoding gives, [None] for a [UnicodeDecodeError]. *)
Definition load_data_file (decoded : option str) : option DataFrame :=
  match decoded with
  | Some content => load_data content
  | None => None
  end.

(** ** Filter Engine (the "Apply Filters" block) *)

(** The sidebar selections. *)
Record Selection : Type := mkSel {
  selected_service : str;
  selected_region : str;
  selected_department : str;
  selected_environment : str;
  selected_tagged : str
}.

Definition cell_at_pos (p : nat) (r : list cell) : cell := nth p r NA.

(** [c == v] for a string [v]: a missing cell or a number never matches. *)
Definition cell_is (v : str) (c : cell) : bool :=
  match c with
  | Str x => str_eqb x v
  | _ => false
  end.

(** [df[df[col] == v]]; [None] is the [KeyError] of [df[col]]. *)
Definition select_eq (df : DataFrame) (col v : str) : option DataFrame :=
  match col_pos (columns df) col with
  | None => None
  | Some p =>
      Some (mkDF (columns df)
              (filter (fun r => cell_is v (cell_at_pos p (snd r))) (rows df)))
  end.

(** One [if sel != 'All' (and col in cols): d = d[d[col] == sel]] step;
    [guard] is the column list the source tests, if it tests one. *)
Definition narrow (guard : option (list str)) (col sel : str)
  (d : DataFrame) : option DataFrame :=
  if negb (str_eqb sel All)
     && match guard with
        | Some cols => has_column cols col
        | None => true
        end
  then select_eq d col sel
  else Some d.

(** The two variables the block works on. *)
Record FilterEnv : Type := mkEnv {
  env_df : DataFrame;
  env_filtered_df : DataFrame
}.

Definition bind {A B} (x : option A) (f : A -> option B) : option B :=
  match x with
  | Some a => f a
  | None => None
  end.

(** [filtered_df = ...]: only that variable is assigned. *)
Definition filter_step (guarded : bool) (col sel : str) (e : FilterEnv)
  : option FilterEnv :=
  option_map (mkEnv (env_df e))
    (narrow (if guarded then Some (columns (env_df e)) else None) col sel
       (env_filtered_df e)).

Definition apply_filters (sel : Selection) (df : DataFrame)
  : option FilterEnv :=
  let e0 := mkEnv df df in   (* filtered_df = df.copy() *)
  bind (filter_step false Service (selected_service sel) e0) (fun e1 =>
  bind (filter_step true Region (selected_region sel) e1) (fun e2 =>
  bind (filter_step true Department (selected_department sel) e2) (fun e3 =>
  bind (filter_step true Environment (selected_environment sel) e3) (fun e4 =>
  filter_step false Tagged (selected_tagged sel) e4)))).

(** The contract of the block, in the words of its description: a predicate
    is active when its selection is not ['All'] and, for the columns the
    block tests for, when the column exists; a row is kept when it matches
    every active predicate exactly. *)
Definition active (guarded : bool) (cols : list str) (col sel : str) : bool :=
  negb (str_eqb sel All) && (negb guarded || has_column cols col).

Definition matches (cols : list str) (col sel : str) (r : list cell) : bool :=
  match col_pos cols col with
  | Some p => cell_is sel (cell_at_pos p r)
  | None => false
  end.

Definition holds (guarded : bool) (cols : list str) (col sel : str)
  (r : list cell) : bool :=
  if active guarded cols col sel then matches cols col sel r else true.

Definition satisfies (sel : Selection) (cols : list str) (r : list cell)
  : bool :=
  holds false cols Service (selected_service sel) r
  && holds true cols Region (selected_region sel) r
  && holds true cols Department (selected_department sel) r
  && holds true cols Environment (selected_environment sel) r
  && holds false cols Tagged (selected_tagged sel) r.

Definition filter_spec (sel : Selection) (df : DataFrame) : DataFrame :=
  mkDF (columns df)
       (filter (fun r => satisfies sel (columns df) (snd r)) (rows df)).

(** [l1] is [l2] with some elements left out, the others in their order. *)
Inductive subseq {A} : list A -> list A -> Prop :=
| subseq_nil : subseq [] []
| subseq_skip x l1 l2 : subseq l1 l2 -> subseq l1 (x :: l2)
| subseq_keep x l1 l2 : subseq l1 l2 -> subseq (x :: l1) (x :: l2).

(** ** Remediation (Task 5) *)

Definition notna (c : cell) : bool :=
  match c with
  | NA => false
  | _ => true
  end.

(** [row.get(col, None)] *)
Definition row_get (cols : list str) (r : list cell) (col : str)
  : option cell :=
  match col_pos cols col with
  | Some p => nth_error r p
  | None => None
  end.

(** [pd.notna(row.get(col, None)) if col in row else True] *)
Definition has_field (cols : list str) (r : list cell) (col : str) : bool :=
  if has_column cols col then
    match row_get cols r col with
    | Some c => notna c
    | None => false
    end
  else true.

Fixpoint upd {A} (p : nat) (v : A) (l : list A) : list A :=
  match l, p with
  | [], _ => []
  | _ :: l', 0 => v :: l'
  | x :: l', S p' => x :: upd p' v l'
  end.

Definition has_index (df : DataFrame) (idx : nat) : bool :=
  existsb (Nat.eqb idx) (index df).

(** [df.at[idx, col] = v].  A label that is not there yet is added: a new
    column or a new row, filled with missing values. *)
Definition set_at (df : DataFrame) (idx : nat) (col : str) (v : cell)
  : DataFrame :=
  let df1 :=
    if has_column (columns df) col then df
    else mkDF (columns df ++ [col])
              (map (fun r => (fst r, snd r ++ [NA])) (rows df)) in
  let df2 :=
    if has_index df1 idx then df1
    else mkDF (columns df1)
              (rows df1 ++ [(idx, repeat NA (length (columns df1)))]) in
  match col_pos (columns df2) col with
  | Some p =>
      mkDF (columns df2)
        (map (fun r => if fst r =? idx then (fst r, upd p v (snd r)) else r)
             (rows df2))
  | None => df2
  end.

(** [for col in edited_data.columns: df_edited.at[idx, col] = row[col]] *)
Definition write_row (cols : list str) (idx : nat) (r : list cell)
  (df : DataFrame) : DataFrame :=
  fold_left
    (fun d col =>
       set_at d idx col
         (match row_get cols r col with Some c => c | None => NA end))
    cols df.

(** The body of [for idx, row in edited_data.iterrows()], on the pair
    ([df_edited], [changes_made]). *)
Definition apply_row (cols : list str) (st : DataFrame * nat)
  (ir : nat * list cell) : DataFrame * nat :=
  let '(idx, row) := ir in
  let has_dept := has_field cols row Department in
  let has_project := has_field cols row Project in
  let has_owner := has_field cols row Owner in
  let d := write_row cols idx row (fst st) in
  if has_dept && has_project && has_owner
  then (set_at d idx Tagged (Str Yes), S (snd st))
  else (d, snd st).

(** The button handler: the new [df_edited] and [changes_made]. *)
Definition apply_changes (df_edited edited_data : DataFrame)
  : DataFrame * nat :=
  fold_left (apply_row (columns edited_data)) (rows edited_data)
    (df_edited, 0).

(** A row has a value, not the missing marker, in column [col]. *)
Definition filled (cols : list str) (r : list cell) (col : str) : bool :=
  match row_get cols r col with
  | Some c => notna c
  | None => false
  end.

(** The auto-tag rule on one edited row, as a function of that row. *)
Definition gate (cols : list str) (r : list cell) : bool :=
  has_field cols r Department && has_field cols r Project
  && has_field cols r Owner.

(** ['No'] and ['Yes'] rows. *)
Definition tagged_is (v : str) (cols : list str) (r : list cell) : bool :=
  match row_get cols r Tagged with
  | Some c => cell_is v c
  | None => false
  end.

Definition is_no (cols : list str) (r : nat * list cell) : bool :=
  tagged_is No cols (snd r).

Definition is_yes (cols : list str) (r : nat * list cell) : bool :=
  tagged_is Yes cols (snd r).

(** The number of rows whose [Tagged] is ['No']. *)
Definition untagged_count (df : DataFrame) : nat :=
  length (filter (is_no (columns df)) (rows df)).

(** Frames as pandas builds them: distinct column labels, distinct index
    labels, and as many cells in every row as there are columns. *)
Definition well_formed (df : DataFrame) : Prop :=
  distinct (columns df) = true /\
  NoDup (index df) /\
  Forall (fun r : nat * list cell => length (snd r) = length (columns df))
         (rows df).

(** What the handler's body leaves in the row it was given: the edited
    cells, with [Tagged] set to ['Yes'] when the gate holds. *)
Definition finalize (cols : list str) (r : list cell) : list cell :=
  if gate cols r then
    match col_pos cols Tagged with
    | Some p => upd p (Str Yes) r
    | None => r
    end
  else r.

(** A row of [df_edited] after the handler went through the batch [bs]. *)
Definition row_after (cols : list str) (bs : list (nat * list cell))
  (r0 : nat * list cell) : nat * list cell :=
  fold_left
    (fun r b => if fst r =? fst b then (fst r, finalize cols (snd b)) else r)
    bs r0.

(** The table handed to the editor: the rows of [df_edited] with
    [Tagged == 'No'], narrowed by the sidebar selections. *)
Definition untagged_view (sel : Selection) (df_edited : DataFrame)
  : option DataFrame :=
  bind (select_eq df_edited Tagged No) (fun untagged_df_full =>
  bind (narrow None Service (selected_service sel) untagged_df_full)
    (fun d1 =>
  bind (narrow (Some (columns d1)) Region (selected_region sel) d1)
    (fun d2 =>
  bind (narrow (Some (columns d2)) Department (selected_department sel) d2)
    (fun d3 =>
  narrow (Some (columns d3)) Environment (selected_environment sel) d3)))).

Definition disabled_columns : list str :=
  [s "AccountID"; s "ResourceID"; Service; Region; MonthlyCostUSD;
   s "CreatedBy"; Tagged].

(** What [st.data_editor(view, num_rows="fixed", disabled=...)] can return:
    the same labels, row by row, with the cells of the disabled columns
    untouched; every other cell is the user's. *)
Definition edited_row (cols : list str) (r r' : nat * list cell) : Prop :=
  fst r' = fst r /\ length (snd r') = length (snd r) /\
  Forall (fun col =>
            forall p, col_pos cols col = Some p ->
                      nth_error (snd r') p = nth_error (snd r) p)
         disabled_columns.

Definition data_editor_result (view edited_data : DataFrame) : Prop :=
  columns edited_data = columns view /\
  Forall2 (edited_row (columns view)) (rows view) (rows edited_data).

(** One click on "Apply Changes": the view is computed from the current
    [df_edited], the user edits it, and the handler runs when the edited
    table is not empty. *)
Inductive apply_click : DataFrame -> DataFrame -> Prop :=
| Click sel df_edited view edited_data :
    untagged_view sel df_edited = Some view ->
    data_editor_result view edited_data ->
    0 < df_len edited_data ->
    apply_click df_edited (fst (apply_changes df_edited edited_data)).

(** The two snapshots from the first drawing of the remediation page on.
    [df] is the table of the file in the uploader at that moment:
    [df_edited] starts as a copy of it (line 634), and every click on
    "Apply Changes" rewrites [df_edited].  [original_df] was stored before
    (line 110), by the first run whose file loaded to a table with rows, and
    is never assigned again: it is a copy of [df] only when that file was
    the same.  The runs that lead there are [script_run] below. *)
Inductive session (df : DataFrame) : DataFrame -> DataFrame -> Prop :=
| session_start original_df : session df original_df df
| session_click original_df df_edited df_edited' :
    session df original_df df_edited ->
    apply_click df_edited df_edited' ->
    session df original_df df_edited'.

(** Successive clicks. *)
Inductive clicks : DataFrame -> DataFrame -> Prop :=
| clicks_none d : clicks d d
| clicks_more d d' d'' : apply_click d d' -> clicks d' d'' -> clicks d d''.

(** The columns no edit can reach, [Tagged] apart. *)
Definition identity_columns : list str :=
  [s "AccountID"; s "ResourceID"; Service; Region; MonthlyCostUSD;
   s "CreatedBy"].

(** Two rows with one identity: the same label, the same width and the same
    cells in the identity columns. *)
Definition same_identity (cols : list str) (r r' : nat * list cell) : Prop :=
  fst r' = fst r /\ length (snd r') = length (snd r) /\
  forall col, In col identity_columns ->
              row_get cols (snd r') col = row_get cols (snd r) col.

(** ** Export ([to_csv(index=False)]) *)

Definition cell_text (c : cell) : str :=
  match c with
  | NA => []
  | Str x => x
  | Num v => num_repr v
  end.

(** Minimal quoting: a field with the delimiter, the quote character or the
    line terminator is wrapped in quotes, its quotes doubled. *)
Definition needs_quoting (x : str) : bool :=
  existsb (fun c => Ascii.eqb c comma || Ascii.eqb c dquote
                    || Ascii.eqb c newline) x.

Definition double_quotes (x : str) : str :=
  flat_map (fun c => if Ascii.eqb c dquote then [dquote; dquote] else [c]) x.

Definition csv_field (x : str) : str :=
  if needs_quoting x then dquote :: double_quotes x ++ [dquote] else x.

(** One record; a record made of a single empty field is written as two
    quotes, so that it is not an empty line. *)
Definition csv_record (fields : list str) : str :=
  match fields with
  | [[]] => [dquote; dquote]
  | _ => join comma (map csv_field fields)
  end.

(** The records written: the header, then the rows with missing values as
    empty texts. *)
Definition export_records (df : DataFrame) : list (list str) :=
  columns df :: map (fun r => map cell_text (snd r)) (rows df).

(** Every record is followed by the line terminator, a newline. *)
Definition to_csv (df : DataFrame) : str :=
  flat_map (fun r => csv_record r ++ [newline]) (export_records df).

(** ** The shape of a loaded table *)

(** A text without comma or newline that [strip] leaves alone; a plain text
    has no double quote either. *)
Definition clean_text (x : str) : bool :=
  trimmed x && free_of comma x && free_of newline x.

Definition plain (x : str) : bool := clean_text x && free_of dquote x.

Definition nonempty (x : str) : bool :=
  match x with
  | [] => false
  | _ => true
  end.

(** What [load_data] leaves in a cell of column [col] when it strips the
    text columns: numbers in the cost column only, and clean, non-empty
    strings elsewhere.  Where the strip is skipped a string cell can keep
    white space at its ends, and this shape is a condition on the table. *)
Definition cell_shape (col : str) (c : cell) : bool :=
  match c with
  | NA => true
  | Str x => negb (str_eqb col MonthlyCostUSD) && nonempty x && clean_text x
  | Num _ => str_eqb col MonthlyCostUSD
  end.

Fixpoint row_shape (cols : list str) (r : list cell) : bool :=
  match cols, r with
  | [], [] => true
  | col :: cols', c :: r' => cell_shape col c && row_shape cols' r'
  | _, _ => false
  end.

Definition loaded_shape (df : DataFrame) : Prop :=
  columns df <> [] /\
  distinct (columns df) = true /\
  Forall (fun h => clean_text h = true) (columns df) /\
  rows df = enumerate_from 0 (map snd (rows df)) /\
  Forall (fun r => row_shape (columns df) (snd r) = true) (rows df).

(** No double quote in a column label or in a string cell. *)
Definition cell_free_of (c : ascii) (x : cell) : bool :=
  match x with
  | Str y => free_of c y
  | _ => true
  end.

Definition quote_free (df : DataFrame) : bool :=
  forallb (free_of dquote) (columns df)
  && forallb (fun r => forallb (cell_free_of dquote) (snd r)) (rows df).

(** No white space at either end of a string cell. *)
Definition cell_trimmed (x : cell) : bool :=
  match x with
  | Str y => trimmed y
  | _ => true
  end.

Definition trimmed_cells (df : DataFrame) : bool :=
  forallb (fun r => forallb cell_trimmed (snd r)) (rows df).

(** The printer gives plain, non-empty texts that the parser reads back. *)
Definition reads_back : Prop :=
  forall v, to_numeric (num_repr v) = Some v.

Definition prints_plain : Prop :=
  forall v, plain (num_repr v) = true /\ nonempty (num_repr v) = true.

End Frames.

Arguments NA {num}.
Arguments Str {num} x.

(** ** Compliance and cost aggregations (Tasks 1.2, 1.5, 2.1, 2.2)

    [None] is a raised exception (a missing column, or a division by
    zero).  The code computes with binary floating-point numbers; sums,
    quotients and roundings are written over the rationals here, and stand
    for the code's only in what rounding cannot change: which columns are
    read, which branch of a guard is taken, whether an exception is raised,
    and bounds such as 0 and 100 that every rounded value keeps.  Sums that
    the code adds up in different ways ([Series.sum], [groupby().sum()])
    are equal as rationals and need not be as floats, and a rounded
    percentage can differ in its last digit: nothing below is stated about
    either. *)

Open Scope Q_scope.

Definition frame := DataFrame Q.

(** The summand of a cell: a missing cost is skipped. *)
Definition cost_of (c : cell Q) : Q :=
  match c with
  | Num v => v
  | _ => 0
  end.

(** [df[col].sum()], as the exact sum. *)
Definition column_sum (df : frame) (col : str) : option Q :=
  match col_pos (columns df) col with
  | None => None
  | Some p =>
      Some (fold_left Qplus
              (map (fun r => cost_of (cell_at_pos p (snd r))) (rows df)) 0)
  end.

(** Adds [v] to the group of key [k], creating the group if needed. *)
Fixpoint add_to_group {V} (op : V -> V -> V) (k : str) (v : V)
  (g : list (str * V)) : list (str * V) :=
  match g with
  | [] => [(k, v)]
  | (k', x) :: g' =>
      if str_eqb k k' then (k', op x v) :: g'
      else (k', x) :: add_to_group op k v g'
  end.

(** [series.get(k, default)] *)
Fixpoint series_get {V} (g : list (str * V)) (k : str) (default : V) : V :=
  match g with
  | [] => default
  | (k', x) :: g' => if str_eqb k k' then x else series_get g' k default
  end.

(** [df.groupby(key)[col].sum()], as exact sums: rows with a missing key
    are left out. *)
Definition groupby_sum (df : frame) (key col : str)
  : option (list (str * Q)) :=
  match col_pos (columns df) key, col_pos (columns df) col with
  | Some k, Some p =>
      Some (fold_left
              (fun g r =>
                 match cell_at_pos k (snd r) with
                 | Str x => add_to_group Qplus x
                              (cost_of (cell_at_pos p (snd r))) g
                 | _ => g
                 end)
              (rows df) [])
  | _, _ => None
  end.

(** [df[col].value_counts()] *)
Definition value_counts (df : frame) (col : str)
  : option (list (str * nat)) :=
  match col_pos (columns df) col with
  | Some k =>
      Some (fold_left
              (fun g r =>
                 match cell_at_pos k (snd r) with
                 | Str x => add_to_group Nat.add x 1%nat g
                 | _ => g
                 end)
              (rows df) [])
  | None => None
  end.

(** [a / b] *)
Definition checked_div (a b : Q) : option Q :=
  if Qeq_bool b 0 then None else Some (a / b).

(** Task 2.1: ([total_cost], [tagged_cost], [untagged_cost]). *)
Definition cost_split (filtered_df : frame) : option (Q * Q * Q) :=
  bind (groupby_sum filtered_df Tagged MonthlyCostUSD) (fun cost_by_tagged =>
  bind (column_sum filtered_df MonthlyCostUSD) (fun total_cost =>
  let untagged_cost := series_get cost_by_tagged No 0 in
  let tagged_cost := series_get cost_by_tagged Yes 0 in
  Some (total_cost, tagged_cost, untagged_cost))).

(** Task 2.2:
    [(untagged_cost / total_cost) * 100 if total_cost > 0 else 0] *)
Definition untagged_cost_pct (filtered_df : frame) : option Q :=
  bind (cost_split filtered_df) (fun '(total_cost, _, untagged_cost) =>
  if Qlt_le_dec 0 total_cost
  then option_map (fun x => x * 100) (checked_div untagged_cost total_cost)
  else Some 0).

(** Task 1.5:
    [(untagged_count / total_resources) * 100 if total_resources > 0 else 0] *)
Definition untagged_pct (filtered_df : frame) : option Q :=
  bind (value_counts filtered_df Tagged) (fun tagged_counts =>
  let total_resources := df_len filtered_df in
  let untagged_count := series_get tagged_counts No 0%nat in
  if (0 <? total_resources)%nat
  then option_map (fun x => x * 100)
         (checked_div (inject_Z (Z.of_nat untagged_count))
                      (inject_Z (Z.of_nat total_resources)))
  else Some 0).

(** Rounding to the nearest integer, halves to the even one. *)
Definition round_half_even (q : Q) : Z :=
  let f := Qfloor q in
  match Qcompare (q - inject_Z f) (1 # 2) with
  | Lt => f
  | Gt => (f + 1)%Z
  | Eq => if Z.even f then f else (f + 1)%Z
  end.

(** [x.round(2)], of the exact value: the code rounds the floating-point
    product, which can fall on the other side of a tie. *)
Definition round2 (q : Q) : Q := inject_Z (round_half_even (q * 100)) / 100.

(** [df.isnull().sum()] for the column at position [p]. *)
Definition missing_count (df : frame) (p : nat) : nat :=
  length (filter (fun r => negb (notna (cell_at_pos p (snd r)))) (rows df)).

(** Task 1.2: per column, its label, its missing count and
    [(count / len(df) * 100).round(2) if len(df) > 0 else 0]. *)
Fixpoint missing_rows (df : frame) (p : nat) (cols : list str)
  : option (list (str * nat * Q)) :=
  match cols with
  | [] => Some []
  | col :: cols' =>
      let n := missing_count df p in
      bind (if (0 <? df_len df)%nat
            then option_map (fun x => round2 (x * 100))
                   (checked_div (inject_Z (Z.of_nat n))
                                (inject_Z (Z.of_nat (df_len df))))
            else Some 0) (fun pct =>
      option_map (cons (col, n, pct)) (missing_rows df (S p) cols'))
  end.

Definition missing_report (filtered_df : frame)
  : option (list (str * nat * Q)) :=
  missing_rows filtered_df 0 (columns filtered_df).

Close Scope Q_scope.

(** ** A numeric reading for examples

    Whole numbers in decimal notation, as an instance of the parser and the
    printer the loader and the export are parameterised by. *)

Module Decimal.

Definition to_numeric (x : str) : option Z :=
  option_map Z.of_int (NilZero.int_of_string (string_of_list_ascii x)).

Definition num_repr (z : Z) : str :=
  list_ascii_of_string (NilZero.string_of_int (Z.to_int z)).

End Decimal.

(** A character that is neither white space nor comma, newline or quote. *)
Definition token_char (c : ascii) : bool :=
  negb (isspace c) && negb (Ascii.eqb comma c) && negb (Ascii.eqb newline c)
  && negb (Ascii.eqb dquote c).

(** ** Files and tables of the examples *)

(** The header [A,B,C,D,E] followed by the three-field row of the example,
    bare and wrapped in quotes. *)
Definition five_columns_bare : str :=
  s "A,B,C,D,E" ++ newline :: s "v1,v4,v5".

Definition five_columns_quoted : str :=
  s "A,B,C,D,E" ++ newline :: dquote :: s "v1,v4,v5" ++ [dquote].

(** The required columns, and a data line with two fields only. *)
Definition two_field_file : str :=
  s "ResourceID,Service,MonthlyCostUSD,Tagged" ++ newline :: s "r1,EC2".

(** A view whose only row is a refund: a total cost of -10, all untagged. *)
Definition refund_view : frame :=
  mkDF [s "ResourceID"; Service; MonthlyCostUSD; Tagged]
       [(0, [Str (s "r1"); Str (s "EC2"); Num (-10)%Q; Str No])].

(** Two resources, the first one untagged with its three accountability
    fields missing. *)
Definition two_resources : frame :=
  mkDF [s "ResourceID"; Service; Department; Project; Owner;
        MonthlyCostUSD; Tagged]
       [(0, [Str (s "r1"); Str (s "EC2"); NA; NA; NA; Num 100%Q; Str No]);
        (1, [Str (s "r2"); Str (s "S3"); Str (s "Eng"); Str (s "Apollo");
             Str (s "jdoe"); Num 50%Q; Str Yes])].

Definition no_selection : Selection := mkSel All All All All All.

(** The untagged row as the editor shows it, and with the three fields
    filled in by the user. *)
Definition two_resources_view : frame :=
  mkDF (columns two_resources)
       [(0, [Str (s "r1"); Str (s "EC2"); NA; NA; NA; Num 100%Q; Str No])].

Definition two_resources_edit : frame :=
  mkDF (columns two_resources)
       [(0, [Str (s "r1"); Str (s "EC2"); Str (s "Eng"); Str (s "Apollo");
             Str (s "jdoe"); Num 100%Q; Str No])].

(** A table without the three accountability columns. *)
Definition bare_table : frame :=
  mkDF [s "ResourceID"; Service; MonthlyCostUSD; Tagged]
       [(0, [Str (s "r1"); Str (s "EC2"); Num 100%Q; Str No])].

(** A file whose service name is written between quotes. *)
Definition quoted_service_file : str :=
  s "ResourceID,Service,MonthlyCostUSD,Tagged" ++ newline ::
  s "r1," ++ dquote :: s "EC2" ++ dquote :: s ",100,No".

Definition quoted_service_table : DataFrame Z :=
  mkDF [s "ResourceID"; Service; MonthlyCostUSD; Tagged]
       [(0, [Str (s "r1"); Str (dquote :: s "EC2" ++ [dquote]);
             Num 100%Z; Str No])].

(** The end-to-end file: two resources, the first one with its middle
    columns empty. *)
Definition two_resources_file : str :=
  s "ResourceID,Service,Department,Project,Owner,MonthlyCostUSD,Tagged"
  ++ newline :: s "r1,EC2,,,,100,No"
  ++ newline :: s "r2,S3,Eng,Apollo,jdoe,50,Yes".

Definition two_resources_table : DataFrame Z :=
  mkDF [s "ResourceID"; Service; Department; Project; Owner;
        MonthlyCostUSD; Tagged]
       [(0, [Str (s "r1"); Str (s "EC2"); NA; NA; NA; Num 100%Z; Str No]);
        (1, [Str (s "r2"); Str (s "S3"); Str (s "Eng"); Str (s "Apollo");
             Str (s "jdoe"); Num 50%Z; Str Yes])].

(** ** The rest of the pages *)

Section Pages.

Variable num : Type.

(** The check made before any page is drawn:
    [[col for col in required_columns if col not in df.columns]]. *)
Definition required_columns : list str :=
  [s "ResourceID"; Service; MonthlyCostUSD; Tagged].

Definition missing_columns (df : DataFrame num) : list str :=
  filter (fun col => negb (has_column (columns df) col)) required_columns.

(** Task 3: [[field for field in tag_fields if field in df.columns]]. *)
Definition tag_fields : list str :=
  [Department; Project; Environment; Owner; s "CostCenter"].

Definition existing_tag_fields (cols : list str) : list str :=
  filter (has_column cols) tag_fields.

(** Task 3.1, for one row: [df[existing_tag_fields].notna().sum(axis=1)]. *)
Definition completeness_score (cols : list str) (r : list (cell num)) : nat :=
  length (filter (filled cols r) (existing_tag_fields cols)).

(** Task 3.3, before sorting: [df[existing_tag_fields].isnull().sum()],
    the number of rows with a missing value, per tag field. *)
Definition missing_tag_count (df : DataFrame num) (f : str) : nat :=
  length (filter (fun r => negb (filled (columns df) (snd r) f)) (rows df)).

Definition missing_tags (df : DataFrame num) : list (str * nat) :=
  map (fun f => (f, missing_tag_count df f))
      (existing_tag_fields (columns df)).

(** [df.empty]: no column or no row. *)
Definition df_empty (df : DataFrame num) : bool :=
  (length (columns df) =? 0) || (df_len df =? 0).

(** [df_edited] from the table [df] it was copied from on, with the counts
    [changes_made] its clicks reported added up.  Nothing is said here of
    [original_df], which is a copy of [df] only when the file was the
    same (see [session]). *)
Inductive session_log (df : DataFrame num) : DataFrame num -> nat -> Prop :=
| log_start : session_log df df 0
| log_click df_edited n sel view edited_data :
    session_log df df_edited n ->
    untagged_view sel df_edited = Some view ->
    data_editor_result view edited_data ->
    0 < df_len edited_data ->
    session_log df (fst (apply_changes df_edited edited_data))
                (n + snd (apply_changes df_edited edited_data)).

End Pages.

(** ** The sidebar lists (lines 139-166) *)

(** Python's [a < b] on two strings: by code points, a proper prefix
    first. *)
Fixpoint str_ltb (a b : str) : bool :=
  match a, b with
  | _, [] => false
  | [], _ :: _ => true
  | x :: a', y :: b' =>
      (nat_of_ascii x <? nat_of_ascii y)
      || ((nat_of_ascii x =? nat_of_ascii y) && str_ltb a' b')
  end.

Section Sidebar.

Variable num : Type.

(** How two numbers compare. *)
Variable num_compare : num -> num -> comparison.

(** [df[col]] as the list of its values; [None] is the [KeyError]. *)
Definition column_values (df : DataFrame num) (col : str)
  : option (list (cell num)) :=
  option_map (fun p => map (fun r => cell_at_pos p (snd r)) (rows df))
             (col_pos (columns df) col).

(** Two values [unique] takes for one: the missing marker is one value. *)
Definition same_value (a b : cell num) : bool :=
  match a, b with
  | NA, NA => true
  | Str x, Str y => str_eqb x y
  | Num x, Num y => match num_compare x y with Eq => true | _ => false end
  | _, _ => false
  end.

(** [series.unique().tolist()]: the values in the order they first
    appear, the missing marker among them. *)
Definition unique (values : list (cell num)) : list (cell num) :=
  fold_left
    (fun seen c => if existsb (same_value c) seen then seen else seen ++ [c])
    values [].

(** A value that is a string, not the missing marker or a number. *)
Definition is_text (c : cell num) : bool :=
  match c with
  | Str _ => true
  | _ => false
  end.

(** [series.dropna()] *)
Definition dropna (values : list (cell num)) : list (cell num) :=
  filter (@notna num) values.

(** Python's [a < b] between two values of a list.  Two strings compare,
    and so do two numbers; a string does not compare with the missing
    marker or with a number: [TypeError], [None] here.  The missing marker
    beside numbers is the float [nan], which is less than nothing; a list
    of unique values holds it once, so it is never compared with itself. *)
Definition less_than (a b : cell num) : option bool :=
  match a, b with
  | Str x, Str y => Some (str_ltb x y)
  | Str _, _ => None
  | _, Str _ => None
  | Num x, Num y =>
      Some match num_compare x y with Lt => true | _ => false end
  | _, _ => Some false
  end.

(** [sorted(values)], by insertion into the sorted rest: the exception of
    a comparison is the exception of the sort.  Python's sort compares
    other pairs in another order; on values that compare it gives the same
    list, and on a list that holds a string and a value that is not one it
    has, as every sort, to compare such a pair. *)
Fixpoint insert_sorted (x : cell num) (l : list (cell num))
  : option (list (cell num)) :=
  match l with
  | [] => Some [x]
  | y :: l' =>
      match less_than x y with
      | None => None
      | Some true => Some (x :: l)
      | Some false => option_map (cons y) (insert_sorted x l')
      end
  end.

Fixpoint sorted (values : list (cell num)) : option (list (cell num)) :=
  match values with
  | [] => Some []
  | x :: l => bind (sorted l) (insert_sorted x)
  end.

(** [['All'] + sorted(values.unique().tolist())] *)
Definition options_of (values : list (cell num)) : option (list (cell num)) :=
  option_map (cons (Str All)) (sorted (unique values)).

(** [if col in df.columns: options = ... else: selected = 'All']: the list
    is not built when the column is not there. *)
Definition guarded_options (df : DataFrame num) (col : str)
  (keep : list (cell num) -> list (cell num))
  : option (option (list (cell num))) :=
  if has_column (columns df) col then
    bind (column_values df col) (fun values =>
    option_map Some (options_of (keep values)))
  else Some None.

(** The four lists of the select boxes. *)
Record SidebarLists : Type := mkLists {
  services : list (cell num);
  regions : option (list (cell num));
  departments : option (list (cell num));
  environments : option (list (cell num))
}.

(** Lines 139-162: [Service] and [Region] are listed with their missing
    values, [Department] and [Environment] after [dropna()]; [None] is the
    exception that ends the run. *)
Definition sidebar (df : DataFrame num) : option SidebarLists :=
  bind (column_values df Service) (fun values =>
  bind (options_of values) (fun services =>
  bind (guarded_options df Region (fun l => l)) (fun regions =>
  bind (guarded_options df Department dropna) (fun departments =>
  bind (guarded_options df Environment dropna) (fun environments =>
  Some (mkLists services regions departments environments)))))).

End Sidebar.

(** ** The runs of the script and the session state *)

Section Browser.

Variable num : Type.
Variable to_numeric : str -> option num.
Variable object_dtype : bool.
Variable num_compare : num -> num -> comparison.

(** [st.session_state]: the two snapshots, [None] until they are stored
    (lines 21-24). *)
Record session_state : Type := mkState {
  original_df : option (DataFrame num);
  df_edited : option (DataFrame num)
}.

Definition initial_state : session_state := mkState None None.

(** [if st.session_state.original_df is None:
       st.session_state.original_df = df.copy()] *)
Definition store_original (df : DataFrame num) (st : session_state)
  : session_state :=
  match original_df st with
  | None => mkState (Some df) (df_edited st)
  | Some _ => st
  end.

(** [if st.session_state.df_edited is None:
       st.session_state.df_edited = df.copy()] *)
Definition store_edited (df : DataFrame num) (st : session_state)
  : session_state :=
  match df_edited st with
  | None => mkState (original_df st) (Some df)
  | Some _ => st
  end.

(** One run of the script: the state before, the count [changes_made] the
    run reports (0 when the handler does not run) and the state after.
    [file] is the text of the file in the uploader, [None] when there is no
    file or when its bytes do not decode.  The selections are taken to be
    any strings: a select box returns an entry of its list, and with the
    entry that is the missing marker no row matches, the editor and the
    button are not drawn. *)
Inductive script_run (file : option str) (st : session_state)
  : nat -> session_state -> Prop :=
| run_idle :
    (* lines 104 and 107: no file, no table or an empty table *)
    (forall df, load_data_file to_numeric object_dtype file = Some df ->
                df_empty df = true) ->
    script_run file st 0 st
| run_stored df :
    (* line 110, then the run stops at the required-columns check, ends in
       an exception of the sidebar, or draws another page than the
       remediation page *)
    load_data_file to_numeric object_dtype file = Some df ->
    df_empty df = false ->
    script_run file st 0 (store_original df st)
| run_remediation df lists :
    (* lines 110 and 634: the remediation page, the button not pressed *)
    load_data_file to_numeric object_dtype file = Some df ->
    df_empty df = false ->
    missing_columns df = [] ->
    sidebar num_compare df = Some lists ->
    script_run file st 0 (store_edited df (store_original df st))
| run_apply df lists sel d view edited_data :
    (* lines 686-711: the button pressed.  The button is on the remediation
       page, which an earlier run has drawn: [df_edited] is stored *)
    load_data_file to_numeric object_dtype file = Some df ->
    df_empty df = false ->
    missing_columns df = [] ->
    sidebar num_compare df = Some lists ->
    df_edited st = Some d ->
    untagged_view sel d = Some view ->
    data_editor_result view edited_data ->
    0 < df_len edited_data ->
    script_run file st (snd (apply_changes d edited_data))
      (mkState (original_df (store_original df st))
               (Some (fst (apply_changes d edited_data)))).

(** The states a browser session goes through, with the sum of the counts
    reported so far; [files] holds of the texts the uploader had. *)
Inductive browser (files : option str -> Prop)
  : nat -> session_state -> Prop :=
| browser_start : browser files 0 initial_state
| browser_run file st n k st' :
    browser files n st ->
    files file ->
    script_run file st k st' ->
    browser files (n + k) st'.

End Browser.

Open Scope Q_scope.

(** Overview, with the exact quotient:
    [(value_counts().get('Yes', 0) / len(df)) * 100 if len(df) > 0 else 0] *)
Definition tagged_pct (filtered_df : frame) : option Q :=
  if (0 <? df_len filtered_df)%nat then
    bind (value_counts filtered_df Tagged) (fun tagged_counts =>
    option_map (fun x => x * 100)
      (checked_div (inject_Z (Z.of_nat (series_get tagged_counts Yes 0%nat)))
                   (inject_Z (Z.of_nat (df_len filtered_df)))))
  else Some 0.

(** Task 5.4: [df['Tagged'].value_counts().get('No', 0)] *)
Definition untagged_of (df : frame) : option nat :=
  option_map (fun tagged => series_get tagged No 0%nat)
             (value_counts df Tagged).

(** Task 5.4: [(untagged / len(df)) * 100], without a guard. *)
Definition untagged_share (df : frame) : option Q :=
  bind (untagged_of df) (fun untagged =>
  option_map (fun x => x * 100)
    (checked_div (inject_Z (Z.of_nat untagged))
                 (inject_Z (Z.of_nat (df_len df))))).

(** Task 5.5:
    [(remediated_count / before_untagged * 100) if before_untagged > 0
     else 0], with [remediated_count = before_untagged - after_untagged]. *)
Definition remediation_rate (original_df df_edited : frame) : option Q :=
  bind (untagged_of original_df) (fun before_untagged =>
  bind (untagged_of df_edited) (fun after_untagged =>
  let remediated_count :=
    (Z.of_nat before_untagged - Z.of_nat after_untagged)%Z in
  if (0 <? before_untagged)%nat
  then option_map (fun x => x * 100)
         (checked_div (inject_Z remediated_count)
                      (inject_Z (Z.of_nat before_untagged)))
  else Some 0)).

Close Scope Q_scope.

(** A file with a row longer than its header, and a file with an empty
    line between the header and a full row. *)
Definition long_row_file : str :=
  s "ResourceID,Tagged" ++ newline :: s "r1,Yes,extra".

Definition blank_line_file : str :=
  s "ResourceID,Tagged" ++ newline :: newline :: s "r1,Yes".

(** The untagged row of the end-to-end table as the editor shows it, and
    with the three fields filled in. *)
Definition two_resources_table_view : DataFrame Z :=
  mkDF (columns two_resources_table)
       [(0, [Str (s "r1"); Str (s "EC2"); NA; NA; NA; Num 100%Z; Str No])].

Definition two_resources_table_edit : DataFrame Z :=
  mkDF (columns two_resources_table)
       [(0, [Str (s "r1"); Str (s "EC2"); Str (s "Eng"); Str (s "Apollo");
             Str (s "jdoe"); Num 100%Z; Str No])].

(** A file with a data line of five fields under four columns, the fourth
    field ending in a space, and what is loaded from it when the text
    columns are not stripped. *)
Definition spaced_tag_file : str :=
  s "ResourceID,Service,MonthlyCostUSD,Tagged" ++ newline ::
  s "r1,EC2,100,No ,extra".

Definition spaced_tag_table : DataFrame Z :=
  mkDF [s "ResourceID"; Service; MonthlyCostUSD; Tagged]
       [(0, [Str (s "r1"); Str (s "EC2"); Num 100%Z; Str (s "No ")])].

(** The decimal reading with rational values. *)
Definition whole_cost (x : str) : option Q :=
  option_map inject_Z (Decimal.to_numeric x).

(** A file that is not a resource list: it loads, and lacks the required
    columns. *)
Definition notes_file : str :=
  s "Name,Note" ++ newline :: s "backup,weekly".

Definition notes_table : frame :=
  mkDF [s "Name"; s "Note"] [(0, [Str (s "backup"); Str (s "weekly")])].

(** The end-to-end table read with rational costs, after the click that
    fills in the three fields of its untagged row. *)
Definition remediated_two_resources : frame :=
  fst (apply_changes two_resources two_resources_edit).

(** The end-to-end file with a third resource on a short line: its three
    fields go to the last three columns, the service stays empty. *)
Definition short_line_file : str :=
  two_resources_file ++ newline :: s "r3,20,No".

Definition short_line_table : DataFrame Z :=
  mkDF (columns two_resources_table)
       (rows two_resources_table
        ++ [(2, [NA; NA; NA; NA; Str (s "r3"); Num 20%Z; Str No])]).

(** * Properties *)

Unset Implicit Arguments.

(** Tactics for the concrete tables: an editor result, a well-formed
    frame. *)
Ltac editor_result :=
  split; [reflexivity|]; repeat constructor;
  try (intros p Hp; vm_compute in Hp;
       first [discriminate | injection Hp as <-; reflexivity]).

Ltac frame_well_formed :=
  split; [reflexivity|]; split;
  [ repeat constructor; simpl; intuition discriminate
  | repeat constructor ].


(** ** Slices *)

Lemma slice_bound_neg (len k : nat) :
  0 < k -> slice_bound len (- Z.of_nat k) = len - k.
Proof.
  intros Hk. unfold slice_bound.
  destruct (Z.ltb_spec (- Z.of_nat k) 0); lia.
Qed.

Lemma slice_bound_nat (len k : nat) :
  slice_bound len (Z.of_nat k) = Nat.min len k.
Proof.
  unfold slice_bound.
  destruct (Z.ltb_spec (Z.of_nat k) 0); [lia|].
  now rewrite Nat2Z.id.
Qed.

Lemma slice_drop_last3 {A} (l : list A) :
  slice l None (Some (-3)%Z) = firstn (length l - 3) l.
Proof.
  unfold slice. change (-3)%Z with (- Z.of_nat 3)%Z.
  rewrite slice_bound_neg by lia. simpl skipn. now rewrite Nat.sub_0_r.
Qed.

Lemma slice_last3 {A} (l : list A) :
  slice l (Some (-3)%Z) None = skipn (length l - 3) l.
Proof.
  unfold slice. change (-3)%Z with (- Z.of_nat 3)%Z.
  rewrite slice_bound_neg by lia.
  apply firstn_all2. rewrite length_skipn. lia.
Qed.

Lemma slice_prefix {A} (l : list A) (n : nat) :
  slice l None (Some (Z.of_nat n)) = firstn n l.
Proof.
  unfold slice. rewrite slice_bound_nat. simpl skipn. rewrite Nat.sub_0_r.
  destruct (Nat.le_ge_cases (length l) n).
  - rewrite Nat.min_l by assumption.
    now rewrite firstn_all, firstn_all2.
  - now rewrite Nat.min_r.
Qed.

(** ** Row Repair Parser *)

(** The repair rule without the slices. *)
Lemma repair_eq (N : nat) (fields : list str) :
  repair N fields =
  if length fields <? N then
    firstn (length fields - 3) fields ++ repeat [] (N - length fields)
      ++ skipn (length fields - 3) fields
  else if N <? length fields then firstn N fields
  else fields.
Proof.
  unfold repair.
  now rewrite slice_drop_last3, slice_last3, slice_prefix.
Qed.

(** The parser's postcondition: every repaired row has the header's width. *)
Lemma repair_length (N : nat) (fields : list str) :
  length (repair N fields) = N.
Proof.
  rewrite repair_eq.
  destruct (Nat.ltb_spec (length fields) N).
  - rewrite !length_app, repeat_length, length_firstn, length_skipn. lia.
  - destruct (Nat.ltb_spec N (length fields)).
    + rewrite length_firstn. lia.
    + lia.
Qed.

Lemma fold_append_map {A B} (f : A -> B) (l : list A) (acc : list B) :
  fold_left (fun rs x => rs ++ [f x]) l acc = acc ++ map f l.
Proof.
  revert acc. induction l as [|x l IH]; intros acc; simpl.
  - now rewrite app_nil_r.
  - rewrite IH, <- app_assoc. reflexivity.
Qed.

(** The loop builds one repaired row per data line, in order. *)
Lemma data_rows_of_map (content : str) :
  data_rows_of content =
  map (fun line => repair (length (headers_of content)) (fields_of line))
      (tl (lines_of content)).
Proof.
  unfold data_rows_of.
  apply (fold_append_map
           (fun line => repair (length (headers_of content))
                          (fields_of line))).
Qed.

Lemma data_rows_width (content : str) :
  Forall (fun r => length r = length (headers_of content))
         (data_rows_of content).
Proof.
  rewrite data_rows_of_map. apply Forall_map, Forall_forall.
  intros line _. apply repair_length.
Qed.

(** C1. A data line with at least three fields and fewer fields than the
    header has columns is rebuilt as its fields but the last three, then one
    empty string per missing column, then its last three fields; the rebuilt
    row has as many fields as the header. *)
Theorem short_row_right_aligned (content : str) (i : nat) (line : str) :
  nth_error (tl (lines_of content)) i = Some line ->
  3 <= length (fields_of line) ->
  length (fields_of line) < length (headers_of content) ->
  let fields := fields_of line in
  let N := length (headers_of content) in
  exists row,
    nth_error (data_rows_of content) i = Some row /\
    row = firstn (length fields - 3) fields
            ++ repeat [] (N - length fields)
            ++ skipn (length fields - 3) fields /\
    length (skipn (length fields - 3) fields) = 3 /\
    length row = N.
Proof.
  intros Hline H3 HN fields N.
  exists (repair N fields). repeat split.
  - rewrite data_rows_of_map.
    now rewrite nth_error_map, Hline.
  - rewrite repair_eq. subst fields N.
    destruct (Nat.ltb_spec (length (fields_of line))
                (length (headers_of content))); [reflexivity | lia].
  - rewrite length_skipn. subst fields. lia.
  - apply repair_length.
Qed.

Lemma short_row_right_aligned_witness :
  exists row,
    nth_error (data_rows_of (s "A,B,C,D,E,F" ++ newline :: s "a,b,c,d")) 0
      = Some row /\
    row = [s "a"; []; []; s "b"; s "c"; s "d"] /\
    length [s "b"; s "c"; s "d"] = 3 /\
    length row = 6.
Proof.
  apply (short_row_right_aligned
           (s "A,B,C,D,E,F" ++ newline :: s "a,b,c,d") 0 (s "a,b,c,d")).
  - reflexivity.
  - vm_compute. lia.
  - vm_compute. lia.
Defined.

(** C3, as stated, fails: the repaired row is not [v1, "", "", v4, v5]. *)
Lemma three_field_row_not_padded_in_the_middle :
  data_rows_of five_columns_bare <> [[s "v1"; []; []; s "v4"; s "v5"]] /\
  data_rows_of five_columns_quoted <> [[s "v1"; []; []; s "v4"; s "v5"]].
Proof. split; vm_compute; discriminate. Qed.

(** C3, amended. With header [A,B,C,D,E] and the row [v1,v4,v5], all three
    fields are the row's last three, so nothing stays in front: the repaired
    row is ["", "", v1, v4, v5], the empty fields at positions A and B. *)
Theorem three_field_row_padded_in_front :
  headers_of five_columns_bare = [s "A"; s "B"; s "C"; s "D"; s "E"] /\
  data_rows_of five_columns_bare = [[[]; []; s "v1"; s "v4"; s "v5"]] /\
  headers_of five_columns_quoted = [s "A"; s "B"; s "C"; s "D"; s "E"] /\
  data_rows_of five_columns_quoted = [[[]; []; s "v1"; s "v4"; s "v5"]].
Proof. repeat split; vm_compute; reflexivity. Qed.

(** ** The loader never aborts on a short line *)

Section Loader.

Variable num : Type.
Variable to_numeric : str -> option num.
Variable object_dtype : bool.

Lemma width_check (content : str) :
  forallb (fun r => length r =? length (headers_of content))
          (data_rows_of content) = true.
Proof.
  apply forallb_forall. intros r Hr. apply Nat.eqb_eq.
  pose proof (data_rows_width content) as H.
  rewrite Forall_forall in H. now apply H.
Qed.

(** [load_data] fails exactly when the header repeats a label. *)
Lemma load_data_some (content : str) :
  distinct (headers_of content) = true ->
  load_data to_numeric object_dtype content =
  Some (mkDF (headers_of content)
          (enumerate_from 0
             (map (type_row to_numeric object_dtype (headers_of content))
                  (data_rows_of content)))).
Proof.
  intros Hd. unfold load_data. now rewrite width_check, Hd.
Qed.

Lemma load_data_none (content : str) :
  distinct (headers_of content) = false ->
  load_data to_numeric object_dtype content = None.
Proof.
  intros Hd. unfold load_data. now rewrite width_check, Hd.
Qed.

Lemma nth_error_enumerate_from {A} (l : list A) (n i : nat) :
  nth_error (enumerate_from n l) i =
  option_map (fun x => (n + i, x)) (nth_error l i).
Proof.
  revert n i. induction l as [|x l IH]; intros n [|i]; simpl; trivial.
  - now rewrite Nat.add_0_r.
  - rewrite IH. now rewrite Nat.add_succ_r.
Qed.

(** C4, amended. A data line with fewer than three fields does not abort
    ingestion.  When the header has more columns than the line has fields,
    the line is repaired by putting the empty strings in front of its
    fields; the table is produced, with the typed form of that row at the
    line's position. *)
Theorem short_line_is_padded_in_front (content : str) (i : nat) (line : str) :
  distinct (headers_of content) = true ->
  nth_error (tl (lines_of content)) i = Some line ->
  length (fields_of line) < 3 ->
  length (fields_of line) < length (headers_of content) ->
  let fields := fields_of line in
  let N := length (headers_of content) in
  let row := repeat [] (N - length fields) ++ fields in
  nth_error (data_rows_of content) i = Some row /\
  length row = N /\
  exists df,
    load_data to_numeric object_dtype content = Some df /\
    columns df = headers_of content /\
    nth_error (rows df) i
      = Some (i, type_row to_numeric object_dtype (headers_of content) row).
Proof.
  intros Hd Hline H3 HN fields N row.
  assert (Hrow : repair N fields = row).
  { rewrite repair_eq. subst row fields N.
    destruct (Nat.ltb_spec (length (fields_of line))
                (length (headers_of content))); [|lia].
    replace (length (fields_of line) - 3) with 0 by lia.
    reflexivity. }
  assert (Hnth : nth_error (data_rows_of content) i = Some row).
  { rewrite data_rows_of_map, nth_error_map, Hline. simpl.
    now rewrite <- Hrow. }
  split; [exact Hnth|]. split.
  - rewrite <- Hrow. apply repair_length.
  - eexists. split; [apply load_data_some; exact Hd|]. split; [reflexivity|].
    simpl. rewrite nth_error_enumerate_from, nth_error_map, Hnth.
    reflexivity.
Qed.

End Loader.

(** C4, as stated, fails: this file has a data line with fewer than three
    fields and is loaded all the same. *)
Lemma two_field_line_is_loaded :
  length (fields_of (s "r1,EC2")) = 2 /\
  nth_error (tl (lines_of two_field_file)) 0 = Some (s "r1,EC2") /\
  load_data Decimal.to_numeric true two_field_file
  = Some (mkDF [s "ResourceID"; Service; MonthlyCostUSD; Tagged]
               [(0, [NA; NA; NA; Str (s "EC2")])]) /\
  load_data Decimal.to_numeric false two_field_file
  = Some (mkDF [s "ResourceID"; Service; MonthlyCostUSD; Tagged]
               [(0, [NA; NA; NA; Str (s "EC2")])]).
Proof. repeat split; vm_compute; reflexivity. Qed.

Lemma short_line_is_padded_in_front_witness :
  nth_error (data_rows_of two_field_file) 0
    = Some ([[]; []] ++ [s "r1"; s "EC2"]) /\
  length ([[]; []] ++ [s "r1"; s "EC2"]) = 4 /\
  exists df,
    load_data Decimal.to_numeric true two_field_file = Some df /\
    columns df = headers_of two_field_file /\
    nth_error (rows df) 0
      = Some (0, type_row Decimal.to_numeric true
                   (headers_of two_field_file)
                   ([[]; []] ++ [s "r1"; s "EC2"])).
Proof.
  apply (short_line_is_padded_in_front Z Decimal.to_numeric true
           two_field_file 0 (s "r1,EC2")).
  - reflexivity.
  - reflexivity.
  - vm_compute. lia.
  - vm_compute. lia.
Defined.

(** ** Filter Engine *)

Section Filter.

Variable num : Type.

Lemma str_eqb_eq (a b : str) : str_eqb a b = true <-> a = b.
Proof.
  unfold str_eqb. destruct (list_eq_dec ascii_dec a b); split;
    intros; congruence.
Qed.

Lemma str_eqb_refl (a : str) : str_eqb a a = true.
Proof. now apply str_eqb_eq. Qed.

Lemma str_eqb_neq (a b : str) : str_eqb a b = false <-> a <> b.
Proof.
  unfold str_eqb. destruct (list_eq_dec ascii_dec a b); split;
    intros; congruence.
Qed.

Lemma has_column_col_pos (cols : list str) (col : str) :
  has_column cols col = true <-> exists p, col_pos cols col = Some p.
Proof.
  induction cols as [|c cols IH]; simpl.
  - split; [discriminate | intros [p Hp]; discriminate].
  - destruct (str_eqb col c); simpl.
    + split; eauto.
    + rewrite IH. split; intros [p Hp].
      * rewrite Hp. simpl. eauto.
      * destruct (col_pos cols col); [eauto | discriminate].
Qed.

Lemma filter_subseq {A} (f : A -> bool) (l : list A) :
  subseq (filter f l) l.
Proof.
  induction l as [|x l IH]; simpl.
  - constructor.
  - destruct (f x); now constructor.
Qed.

Lemma filter_twice {A} (f g : A -> bool) (l : list A) :
  filter g (filter f l) = filter (fun x => f x && g x) l.
Proof.
  induction l as [|x l IH]; simpl; trivial.
  destruct (f x); simpl; [destruct (g x)|]; now rewrite IH.
Qed.

Lemma filter_true {A} (f : A -> bool) (l : list A) :
  (forall x, f x = true) -> filter f l = l.
Proof.
  intros Hf. induction l as [|x l IH]; simpl; trivial.
  now rewrite Hf, IH.
Qed.

(** One step of the block keeps the rows on which its predicate holds,
    provided an unguarded column exists. *)
Lemma narrow_holds (guarded : bool) (cols : list str) (col sel : str)
  (g : nat * list (cell num) -> bool) (rs : list (nat * list (cell num))) :
  (guarded = false -> sel <> All -> has_column cols col = true) ->
  narrow (if guarded then Some cols else None) col sel
    (mkDF cols (filter g rs))
  = Some (mkDF cols
            (filter (fun r => g r && holds guarded cols col sel (snd r)) rs)).
Proof.
  intros Hcol. unfold narrow, holds, active.
  destruct (str_eqb sel All) eqn:Hsl; simpl.
  - f_equal. f_equal. apply filter_ext. intros r. now rewrite andb_true_r.
  - apply str_eqb_neq in Hsl.
    assert (Hsel : forall p, col_pos cols col = Some p ->
              select_eq (mkDF cols (filter g rs)) col sel
              = Some (mkDF cols
                  (filter (fun r => g r && matches cols col sel (snd r))
                          rs))).
    { intros p Hp. unfold select_eq, matches. simpl. rewrite Hp.
      now rewrite filter_twice. }
    destruct guarded; simpl.
    + destruct (has_column cols col) eqn:Hc.
      * apply has_column_col_pos in Hc. destruct Hc as [p Hp]. eauto.
      * f_equal. f_equal. apply filter_ext. intros r.
        now rewrite andb_true_r.
    + destruct (proj1 (has_column_col_pos cols col) (Hcol eq_refl Hsl))
        as [p Hp].
      eauto.
Qed.

Lemma holds_all (guarded : bool) (cols : list str) (col : str)
  (r : list (cell num)) :
  holds guarded cols col All r = true.
Proof. unfold holds, active. now rewrite str_eqb_refl. Qed.

(** C8. The filter block leaves [df] as it is and makes [filtered_df] the
    rows of [df] that satisfy every active exact-match predicate, in the
    order of [df]; with every selection at ['All'] the result is [df]
    itself.  The two columns the block does not test for are taken to exist
    when their selection is active. *)
Theorem filter_is_conjunction (sel : Selection) (df : DataFrame num) :
  (selected_service sel <> All ->
   has_column (columns df) Service = true) ->
  (selected_tagged sel <> All ->
   has_column (columns df) Tagged = true) ->
  apply_filters sel df = Some (mkEnv df (filter_spec sel df)) /\
  subseq (rows (filter_spec sel df)) (rows df) /\
  columns (filter_spec sel df) = columns df /\
  (forall r, In r (rows (filter_spec sel df)) <->
             In r (rows df) /\ satisfies sel (columns df) (snd r) = true) /\
  (sel = mkSel All All All All All -> filter_spec sel df = df).
Proof.
  intros HS HT. split; [|split; [|split; [|split]]].
  - destruct df as [cols rs]. simpl in *.
    unfold apply_filters, filter_step, filter_spec. simpl.
    rewrite <- (filter_true (fun _ => true) rs) at 2 by reflexivity.
    rewrite (narrow_holds false cols Service) by auto. simpl.
    rewrite (narrow_holds true cols Region) by discriminate. simpl.
    rewrite (narrow_holds true cols Department) by discriminate. simpl.
    rewrite (narrow_holds true cols Environment) by discriminate. simpl.
    rewrite (narrow_holds false cols Tagged) by auto. simpl.
    reflexivity.
  - apply filter_subseq.
  - reflexivity.
  - intros r. unfold filter_spec. simpl. apply filter_In.
  - intros ->. destruct df as [cols rs].
    unfold filter_spec, satisfies. simpl. f_equal.
    apply filter_true. intros r. now rewrite !holds_all.
Qed.

End Filter.

(** ** Aggregations *)

Section Aggregations.

Open Scope Q_scope.

Lemma checked_div_nonzero (a b : Q) :
  ~ b == 0 -> checked_div a b = Some (a / b).
Proof.
  intros Hb. unfold checked_div.
  destruct (Qeq_bool b 0) eqn:E; trivial.
  apply Qeq_bool_iff in E. contradiction.
Qed.

Lemma inject_nat_nonzero (n : nat) :
  (0 < n)%nat -> ~ inject_Z (Z.of_nat n) == 0.
Proof.
  intros Hn E. unfold Qeq in E. simpl in E. lia.
Qed.

Lemma missing_rows_some (df : frame) (cols : list str) (p : nat) :
  exists rep, missing_rows df p cols = Some rep.
Proof.
  revert p. induction cols as [|col cols IH]; intros p; simpl.
  - eauto.
  - destruct (IH (S p)) as [rep Hrep]. rewrite Hrep.
    destruct (Nat.ltb_spec 0 (df_len df)).
    + rewrite checked_div_nonzero by now apply inject_nat_nonzero.
      simpl. eauto.
    + simpl. eauto.
Qed.

Lemma missing_rows_empty (df : frame) (cols : list str) (p : nat) :
  rows df = [] ->
  missing_rows df p cols = Some (map (fun col => (col, 0%nat, 0)) cols).
Proof.
  intros He. revert p. induction cols as [|col cols IH]; intros p; simpl.
  - reflexivity.
  - rewrite IH. unfold df_len, missing_count. rewrite He. reflexivity.
Qed.

(** C9, amended. On a view with the [Tagged] and [MonthlyCostUSD] columns
    no aggregation raises, whatever the rows.  The untagged-cost percentage
    is untagged cost over total cost times 100 when the total is positive
    and 0 when the total is zero or negative.  On a view with no rows the
    three costs and both percentages are 0, and the missing-value report
    has a zero count and a zero percentage for every column. *)
Theorem aggregations_total (v : frame) :
  has_column (columns v) Tagged = true ->
  has_column (columns v) MonthlyCostUSD = true ->
  exists total tagged untagged pct,
    cost_split v = Some (total, tagged, untagged) /\
    untagged_cost_pct v = Some pct /\
    (0 < total -> pct == untagged / total * 100) /\
    (total <= 0 -> pct = 0) /\
    (exists q, untagged_pct v = Some q) /\
    (exists rep, missing_report v = Some rep) /\
    (rows v = [] ->
     total = 0 /\ tagged = 0 /\ untagged = 0 /\ pct = 0 /\
     untagged_pct v = Some 0 /\
     missing_report v = Some (map (fun col => (col, 0%nat, 0)) (columns v))).
Proof.
  intros HT HM.
  apply has_column_col_pos in HT. destruct HT as [k Hk].
  apply has_column_col_pos in HM. destruct HM as [p Hp].
  unfold untagged_cost_pct, cost_split, groupby_sum, column_sum.
  rewrite Hk, Hp. cbn [bind].
  set (g := fold_left _ (rows v) []).
  set (total := fold_left Qplus _ 0).
  exists total, (series_get g Yes 0), (series_get g No 0).
  assert (Hpct : exists pct,
            (if Qlt_le_dec 0 total
             then option_map (fun x => x * 100)
                    (checked_div (series_get g No 0) total)
             else Some 0) = Some pct /\
            (0 < total -> pct == series_get g No 0 / total * 100) /\
            (total <= 0 -> pct = 0)).
  { destruct (Qlt_le_dec 0 total) as [Hlt|Hle].
    - rewrite checked_div_nonzero.
      + eexists. split; [reflexivity|]. split; [reflexivity|].
        intros Hle. exfalso. apply (Qlt_not_le _ _ Hlt Hle).
      + intros E. rewrite E in Hlt. now apply (Qlt_irrefl 0).
    - exists 0. split; [reflexivity|]. split; [|reflexivity].
      intros Hlt. exfalso. apply (Qlt_not_le _ _ Hlt Hle). }
  destruct Hpct as [pct [Hpct [Hpos Hneg]]].
  exists pct. split; [reflexivity|]. split; [exact Hpct|].
  split; [exact Hpos|]. split; [exact Hneg|].
  assert (Hu : exists q, untagged_pct v = Some q).
  { unfold untagged_pct, value_counts. rewrite Hk. cbn [bind].
    destruct (Nat.ltb_spec 0 (df_len v)).
    - rewrite checked_div_nonzero by now apply inject_nat_nonzero.
      simpl. eauto.
    - eauto. }
  split; [exact Hu|].
  split; [apply missing_rows_some|].
  intros He. subst g total. rewrite He in *. simpl in *.
  repeat split.
  - apply Hneg. apply Qle_refl.
  - unfold untagged_pct, value_counts, df_len. rewrite Hk, He. reflexivity.
  - now apply missing_rows_empty.
Qed.

End Aggregations.

(** C9, as stated, fails: the total cost of this view is not zero, and the
    percentage is 0 instead of untagged / total * 100 = 100. *)
Lemma negative_total_reports_zero_pct :
  cost_split refund_view = Some ((-10)%Q, 0%Q, (-10)%Q) /\
  ~ ((-10) == 0)%Q /\
  untagged_cost_pct refund_view = Some 0%Q /\
  ~ (0 == (-10) / (-10) * 100)%Q.
Proof.
  repeat split; try (vm_compute; reflexivity); intros E; vm_compute in E;
    discriminate.
Qed.

Lemma aggregations_total_witness :
  exists total tagged untagged pct,
    cost_split two_resources = Some (total, tagged, untagged) /\
    untagged_cost_pct two_resources = Some pct /\
    (0 < total -> pct == untagged / total * 100)%Q /\
    (total <= 0 -> pct = 0)%Q /\
    (exists q, untagged_pct two_resources = Some q) /\
    (exists rep, missing_report two_resources = Some rep) /\
    (rows two_resources = [] ->
     total = 0%Q /\ tagged = 0%Q /\ untagged = 0%Q /\ pct = 0%Q /\
     untagged_pct two_resources = Some 0%Q /\
     missing_report two_resources
     = Some (map (fun col => (col, 0, 0%Q)) (columns two_resources))).
Proof.
  apply (aggregations_total two_resources); reflexivity.
Defined.

(** ** Remediation *)

Section Remediation.

Variable num : Type.

Lemma col_pos_nth (cols : list str) (col : str) (p : nat) :
  col_pos cols col = Some p -> nth_error cols p = Some col.
Proof.
  revert p. induction cols as [|c cols IH]; intros p; simpl; [discriminate|].
  destruct (str_eqb col c) eqn:E.
  - intros [= <-]. apply str_eqb_eq in E. now subst.
  - destruct (col_pos cols col); simpl; [|discriminate].
    intros [= <-]. simpl. now apply IH.
Qed.

Lemma col_pos_lt (cols : list str) (col : str) (p : nat) :
  col_pos cols col = Some p -> p < length cols.
Proof.
  intros H. apply col_pos_nth in H. apply nth_error_Some. congruence.
Qed.

Lemma col_pos_inj (cols : list str) (a b : str) (p : nat) :
  col_pos cols a = Some p -> col_pos cols b = Some p -> a = b.
Proof.
  intros Ha Hb. apply col_pos_nth in Ha, Hb. congruence.
Qed.

Lemma existsb_str_In (x : str) (l : list str) :
  existsb (str_eqb x) l = true <-> In x l.
Proof.
  rewrite existsb_exists. split.
  - intros [y [Hy E]]. apply str_eqb_eq in E. now subst.
  - intros H. exists x. split; [assumption | apply str_eqb_refl].
Qed.

Lemma distinct_NoDup (l : list str) : distinct l = true <-> NoDup l.
Proof.
  induction l as [|x l IH]; simpl.
  - split; [constructor | reflexivity].
  - rewrite andb_true_iff, negb_true_iff, IH. split.
    + intros [Hx Hl]. constructor; [|assumption].
      intros Hin. apply existsb_str_In in Hin. congruence.
    + intros H. inversion H as [|? ? Hx Hl]; subst. split; [|assumption].
      destruct (existsb (str_eqb x) l) eqn:E; trivial.
      apply existsb_str_In in E. contradiction.
Qed.

(** In a list of distinct labels, the label after the prefix [pre] sits at
    position [length pre]. *)
Lemma col_pos_app (pre suf : list str) (c : str) :
  ~ In c pre -> col_pos (pre ++ c :: suf) c = Some (length pre).
Proof.
  induction pre as [|x pre IH]; simpl; intros Hn.
  - now rewrite str_eqb_refl.
  - destruct (str_eqb c x) eqn:E.
    + apply str_eqb_eq in E. subst. exfalso. auto.
    + rewrite IH by auto. reflexivity.
Qed.

Lemma upd_length {A} (p : nat) (v : A) (l : list A) :
  length (upd p v l) = length l.
Proof.
  revert p. induction l as [|x l IH]; intros [|p]; simpl; auto.
Qed.

Lemma nth_error_upd_same {A} (p : nat) (v : A) (l : list A) :
  p < length l -> nth_error (upd p v l) p = Some v.
Proof.
  revert p. induction l as [|x l IH]; intros [|p]; simpl; intros H;
    try lia; trivial.
  apply IH. lia.
Qed.

Lemma nth_error_upd_other {A} (p q : nat) (v : A) (l : list A) :
  p <> q -> nth_error (upd p v l) q = nth_error l q.
Proof.
  revert p q. induction l as [|x l IH]; intros [|p] [|q]; simpl; intros H;
    trivial; try congruence.
  apply IH. congruence.
Qed.

(** Overwriting position [k] of a row already rewritten up to [k]. *)
Lemma upd_overwrite {A} (k : nat) (r old : list A) (v : A) :
  nth_error r k = Some v -> length old = length r ->
  upd k v (firstn k r ++ skipn k old) = firstn (S k) r ++ skipn (S k) old.
Proof.
  revert r old. induction k as [|k IH]; intros [|x r] [|y old]; simpl;
    intros Hv Hl; try discriminate.
  - now injection Hv as ->.
  - f_equal. apply IH; [assumption | lia].
Qed.

Lemma has_index_In (df : DataFrame num) (idx : nat) :
  has_index df idx = true <-> In idx (index df).
Proof.
  unfold has_index. rewrite existsb_exists. split.
  - intros [y [Hy E]]. apply Nat.eqb_eq in E. now subst.
  - intros H. exists idx. split; [assumption | apply Nat.eqb_refl].
Qed.

(** Assigning a cell whose labels exist rewrites that cell only. *)
Lemma set_at_existing (cols : list str) (rs : list (nat * list (cell num)))
  (idx p : nat) (col : str) (v : cell num) :
  col_pos cols col = Some p -> In idx (map fst rs) ->
  set_at (mkDF cols rs) idx col v
  = mkDF cols
      (map (fun r => if fst r =? idx then (fst r, upd p v (snd r)) else r)
           rs).
Proof.
  intros Hp Hidx. unfold set_at. simpl.
  assert (Hc : has_column cols col = true).
  { apply has_column_col_pos. eauto. }
  rewrite Hc.
  assert (Hi : has_index (mkDF cols rs) idx = true).
  { now apply has_index_In. }
  rewrite Hi. simpl. now rewrite Hp.
Qed.

Lemma map_fst_relabel {A} (idx : nat) (f : nat * A -> A)
  (rs : list (nat * A)) :
  map fst (map (fun r => if fst r =? idx then (fst r, f r) else r) rs)
  = map fst rs.
Proof.
  rewrite map_map. apply map_ext. intros r.
  now destruct (fst r =? idx).
Qed.

(** The inner loop, from any point on: the columns [suf] still to write,
    the columns [pre] already written. *)
Lemma write_row_from (cols : list str) (idx : nat) (r : list (cell num))
  (suf pre : list str) (rs : list (nat * list (cell num))) :
  cols = pre ++ suf -> NoDup cols -> length r = length cols ->
  In idx (map fst rs) ->
  Forall (fun r0 : nat * list (cell num) => length (snd r0) = length cols)
         rs ->
  fold_left
    (fun d col =>
       set_at d idx col
         (match row_get cols r col with Some c => c | None => NA end))
    suf
    (mkDF cols
       (map (fun r0 => if fst r0 =? idx
                       then (fst r0, firstn (length pre) r
                                       ++ skipn (length pre) (snd r0))
                       else r0) rs))
  = mkDF cols (map (fun r0 => if fst r0 =? idx then (fst r0, r) else r0) rs).
Proof.
  intros Hcols Hnd Hlen Hidx Hrect. revert pre Hcols.
  induction suf as [|c suf IH]; intros pre Hcols; simpl.
  - rewrite app_nil_r in Hcols. subst pre. f_equal.
    apply map_ext_in. intros r0 Hr0.
    destruct (fst r0 =? idx); trivial. f_equal.
    rewrite Forall_forall in Hrect. specialize (Hrect r0 Hr0).
    rewrite <- Hlen, firstn_all, skipn_all2 by lia.
    apply app_nil_r.
  - assert (Hpos : col_pos cols c = Some (length pre)).
    { subst cols. apply col_pos_app.
      apply NoDup_remove_2 in Hnd. intros Hin. apply Hnd.
      apply in_or_app. now left. }
    assert (Hlt : length pre < length r).
    { rewrite Hlen. eapply col_pos_lt; eassumption. }
    destruct (nth_error r (length pre)) as [v|] eqn:Hv;
      [|apply nth_error_None in Hv; lia].
    assert (Hget : row_get cols r c = Some v).
    { unfold row_get. now rewrite Hpos. }
    rewrite Hget.
    rewrite (set_at_existing _ _ _ (length pre)); trivial.
    2:{ now rewrite map_fst_relabel. }
    rewrite map_map.
    specialize (IH (pre ++ [c])).
    rewrite <- app_assoc in IH. simpl in IH. specialize (IH Hcols).
    rewrite <- IH. f_equal. f_equal.
    apply map_ext_in. intros r0 Hr0.
    destruct (fst r0 =? idx) eqn:E; simpl; rewrite E; trivial.
    f_equal. rewrite length_app. simpl. rewrite Nat.add_1_r.
    apply upd_overwrite; trivial.
    rewrite Forall_forall in Hrect. specialize (Hrect r0 Hr0). lia.
Qed.

(** The inner loop replaces the row labelled [idx] by the edited row. *)
Lemma write_row_replaces (cols : list str) (idx : nat) (r : list (cell num))
  (rs : list (nat * list (cell num))) :
  NoDup cols -> length r = length cols -> In idx (map fst rs) ->
  Forall (fun r0 : nat * list (cell num) => length (snd r0) = length cols)
         rs ->
  write_row cols idx r (mkDF cols rs)
  = mkDF cols (map (fun r0 => if fst r0 =? idx then (fst r0, r) else r0) rs).
Proof.
  intros Hnd Hlen Hidx Hrect. unfold write_row.
  rewrite <- (write_row_from cols idx r cols [] rs) by auto.
  f_equal. f_equal. simpl. rewrite <- (map_id rs) at 1.
  apply map_ext. intros [i r0]. simpl. now destruct (i =? idx).
Qed.

Lemma finalize_length (cols : list str) (r : list (cell num)) :
  length (finalize cols r) = length r.
Proof.
  unfold finalize. destruct (gate cols r); trivial.
  destruct (col_pos cols Tagged); trivial. apply upd_length.
Qed.

(** One turn of the handler's loop. *)
Lemma apply_row_replaces (cols : list str) (idx pT n : nat)
  (r : list (cell num)) (rs : list (nat * list (cell num))) :
  NoDup cols -> col_pos cols Tagged = Some pT ->
  length r = length cols -> In idx (map fst rs) ->
  Forall (fun r0 : nat * list (cell num) => length (snd r0) = length cols)
         rs ->
  apply_row cols (mkDF cols rs, n) (idx, r)
  = (mkDF cols
       (map (fun r0 => if fst r0 =? fst (idx, r)
                       then (fst r0, finalize cols (snd (idx, r)))
                       else r0) rs),
     if gate cols r then S n else n).
Proof.
  intros Hnd HpT Hlen Hidx Hrect. unfold apply_row. cbn [fst snd].
  rewrite write_row_replaces by assumption.
  fold (gate cols r). unfold finalize. rewrite HpT.
  destruct (gate cols r); [|reflexivity].
  rewrite (set_at_existing _ _ _ pT) by
    (trivial; now rewrite map_fst_relabel).
  rewrite map_map. f_equal. f_equal. apply map_ext. intros r0.
  destruct (fst r0 =? idx) eqn:E; simpl; now rewrite E.
Qed.

(** The whole loop: every row of [df_edited] becomes what the batch makes
    of it, and [changes_made] counts the batch rows that pass the gate. *)
Lemma apply_changes_fused (cols : list str) (pT : nat)
  (bs rs : list (nat * list (cell num))) (n : nat) :
  NoDup cols -> col_pos cols Tagged = Some pT ->
  Forall (fun b : nat * list (cell num) =>
            length (snd b) = length cols /\ In (fst b) (map fst rs)) bs ->
  Forall (fun r0 : nat * list (cell num) => length (snd r0) = length cols)
         rs ->
  fold_left (apply_row cols) bs (mkDF cols rs, n)
  = (mkDF cols (map (row_after cols bs) rs),
     n + length (filter (fun b => gate cols (snd b)) bs)).
Proof.
  intros Hnd HpT Hbs. revert rs n Hbs.
  induction bs as [|[idx r] bs IH]; intros rs n Hbs Hrect.
  - simpl. rewrite Nat.add_0_r. f_equal. f_equal.
    unfold row_after. simpl. now rewrite map_id.
  - inversion Hbs as [|? ? [Hlen Hidx] Hbs']; subst. simpl in Hlen, Hidx.
    cbn [fold_left].
    rewrite (apply_row_replaces cols idx pT) by assumption.
    rewrite IH.
    + rewrite map_map. f_equal.
      cbn [filter snd]. destruct (gate cols r); simpl; lia.
    + rewrite map_fst_relabel with (f := fun _ => finalize cols r).
      exact Hbs'.
    + apply Forall_map. revert Hrect. apply Forall_impl. intros r0 Hr0.
      destruct (fst r0 =? fst (idx, r)); trivial.
      simpl. now rewrite finalize_length.
Qed.

Lemma row_after_fst (cols : list str) (bs : list (nat * list (cell num)))
  (r0 : nat * list (cell num)) :
  fst (row_after cols bs r0) = fst r0.
Proof.
  revert r0. induction bs as [|b bs IH]; intros r0; trivial.
  unfold row_after in *. simpl. rewrite IH.
  now destruct (fst r0 =? fst b).
Qed.

(** A row whose label is not in the batch is left alone. *)
Lemma row_after_absent (cols : list str) (bs : list (nat * list (cell num)))
  (r0 : nat * list (cell num)) :
  ~ In (fst r0) (map fst bs) -> row_after cols bs r0 = r0.
Proof.
  induction bs as [|b bs IH]; intros Hn; trivial.
  unfold row_after in *. simpl in *.
  destruct (Nat.eqb_spec (fst r0) (fst b)) as [E|E].
  - exfalso. apply Hn. now left.
  - apply IH. intros Hin. apply Hn. now right.
Qed.

(** A row whose label is in the batch, once, becomes the finalized edited
    row. *)
Lemma row_after_present (cols : list str) (bs : list (nat * list (cell num)))
  (r0 b : nat * list (cell num)) :
  NoDup (map fst bs) -> In b bs -> fst b = fst r0 ->
  row_after cols bs r0 = (fst r0, finalize cols (snd b)).
Proof.
  revert r0. induction bs as [|b' bs IH]; intros r0 Hnd Hin Hb;
    [contradiction|].
  inversion Hnd as [|? ? Hnotin Hnd']; subst.
  change (row_after cols (b' :: bs) r0)
    with (row_after cols bs
            (if fst r0 =? fst b' then (fst r0, finalize cols (snd b'))
             else r0)).
  destruct Hin as [->|Hin].
  - rewrite <- Hb, Nat.eqb_refl.
    apply row_after_absent. simpl. exact Hnotin.
  - destruct (Nat.eqb_spec (fst r0) (fst b')) as [E|E].
    + exfalso. apply Hnotin. rewrite <- E, <- Hb. now apply in_map.
    + now apply IH.
Qed.

(** *** The view handed to the editor *)

Lemma select_eq_rows (d d' : DataFrame num) (col v : str) :
  select_eq d col v = Some d' ->
  columns d' = columns d /\
  exists p, col_pos (columns d) col = Some p /\
    rows d' = filter (fun r => cell_is v (cell_at_pos p (snd r))) (rows d).
Proof.
  unfold select_eq. destruct (col_pos (columns d) col) as [p|];
    [|discriminate].
  intros [= <-]. simpl. eauto.
Qed.

Lemma narrow_rows (g : option (list str)) (col v : str)
  (d d' : DataFrame num) :
  narrow g col v d = Some d' ->
  columns d' = columns d /\ exists f, rows d' = filter f (rows d).
Proof.
  unfold narrow.
  destruct (negb (str_eqb v All) && _).
  - intros H. apply select_eq_rows in H.
    destruct H as [Hc [p [_ Hr]]]. eauto.
  - intros [= <-]. split; trivial. exists (fun _ => true).
    symmetry. now apply filter_true.
Qed.

Lemma cell_is_nth (cols : list str) (r : list (cell num)) (col v : str)
  (p : nat) :
  col_pos cols col = Some p ->
  cell_is v (cell_at_pos p r) = true ->
  row_get cols r col = Some (Str v).
Proof.
  intros Hp. unfold cell_at_pos, row_get. rewrite Hp.
  destruct (nth_error r p) as [c|] eqn:E.
  - rewrite (nth_error_nth _ _ _ E).
    destruct c as [|x|x]; simpl; try discriminate.
    intros H. apply str_eqb_eq in H. now subst.
  - rewrite nth_overflow by now apply nth_error_None.
    discriminate.
Qed.

(** The view has the columns of [df_edited]; its rows are rows of
    [df_edited], in order, all with [Tagged] equal to ['No']. *)
Lemma untagged_view_rows (sel : Selection) (df view : DataFrame num) :
  untagged_view sel df = Some view ->
  columns view = columns df /\
  exists h,
    rows view = filter h (rows df) /\
    forall r, h r = true ->
              row_get (columns df) (snd r) Tagged = Some (Str No).
Proof.
  unfold untagged_view, bind.
  destruct (select_eq df Tagged No) as [d0|] eqn:H0; [|discriminate].
  destruct (narrow None Service _ d0) as [d1|] eqn:H1; [|discriminate].
  destruct (narrow (Some (columns d1)) Region _ d1) as [d2|] eqn:H2;
    [|discriminate].
  destruct (narrow (Some (columns d2)) Department _ d2) as [d3|] eqn:H3;
    [|discriminate].
  intros H4.
  apply select_eq_rows in H0. destruct H0 as [C0 [p [Hp R0]]].
  apply narrow_rows in H1, H2, H3, H4.
  destruct H1 as [C1 [f1 R1]]. destruct H2 as [C2 [f2 R2]].
  destruct H3 as [C3 [f3 R3]]. destruct H4 as [C4 [f4 R4]].
  split; [congruence|].
  rewrite R4, R3, R2, R1, R0, !filter_twice.
  eexists. split; [reflexivity|].
  intros r Hr. simpl in Hr. rewrite !andb_true_iff in Hr.
  destruct Hr as [Hr _].
  now apply (cell_is_nth _ _ _ _ p).
Qed.

Lemma NoDup_map_filter {A B} (f : A -> B) (h : A -> bool) (l : list A) :
  NoDup (map f l) -> NoDup (map f (filter h l)).
Proof.
  induction l as [|x l IH]; simpl; intros Hnd; [constructor|].
  inversion Hnd as [|? ? Hx Hl]; subst.
  destruct (h x); simpl; [|auto].
  constructor; [|auto].
  intros Hin. apply Hx. apply in_map_iff in Hin.
  destruct Hin as [y [Hy Hin]]. apply filter_In in Hin.
  apply in_map_iff. exists y. tauto.
Qed.

Lemma NoDup_map_inj {A B} (f : A -> B) (l : list A) (a b : A) :
  NoDup (map f l) -> In a l -> In b l -> f a = f b -> a = b.
Proof.
  induction l as [|x l IH]; simpl; intros Hnd Ha Hb E; [contradiction|].
  inversion Hnd as [|? ? Hx Hl]; subst.
  destruct Ha as [->|Ha], Hb as [->|Hb]; trivial.
  - exfalso. apply Hx. rewrite E. now apply in_map.
  - exfalso. apply Hx. rewrite <- E. now apply in_map.
  - now apply IH.
Qed.

Lemma Forall2_In_r {A B} (R : A -> B -> Prop) (l : list A) (l' : list B)
  (b : B) :
  Forall2 R l l' -> In b l' -> exists a, In a l /\ R a b.
Proof.
  induction 1 as [|x y l l' Hxy _ IH]; simpl; [contradiction|].
  intros [->|Hin].
  - eauto.
  - destruct (IH Hin) as [a [Ha HR]]. eauto.
Qed.

Lemma Forall2_In_l {A B} (R : A -> B -> Prop) (l : list A) (l' : list B)
  (a : A) :
  Forall2 R l l' -> In a l -> exists b, In b l' /\ R a b.
Proof.
  induction 1 as [|x y l l' Hxy _ IH]; simpl; [contradiction|].
  intros [->|Hin].
  - eauto.
  - destruct (IH Hin) as [b [Hb HR]]. eauto.
Qed.

Lemma edited_labels (cols : list str)
  (vs bs : list (nat * list (cell num))) :
  Forall2 (edited_row cols) vs bs -> map fst bs = map fst vs.
Proof.
  induction 1 as [|v b vs bs [Hf _] _ IH]; simpl; congruence.
Qed.

(** The cell of the [Tagged] column is not the user's to change. *)
Lemma edited_row_tagged (cols : list str) (v b : nat * list (cell num)) :
  edited_row cols v b ->
  row_get cols (snd b) Tagged = row_get cols (snd v) Tagged.
Proof.
  intros [_ [_ Hd]]. rewrite Forall_forall in Hd.
  unfold row_get. destruct (col_pos cols Tagged) as [p|] eqn:Hp; trivial.
  apply (Hd Tagged); trivial.
  unfold disabled_columns. simpl. tauto.
Qed.

(** *** The finalized row *)

Lemma finalize_other (cols : list str) (r : list (cell num)) (col : str) :
  col <> Tagged -> row_get cols (finalize cols r) col = row_get cols r col.
Proof.
  intros Hne. unfold finalize. destruct (gate cols r); trivial.
  destruct (col_pos cols Tagged) as [pT|] eqn:HpT; trivial.
  unfold row_get. destruct (col_pos cols col) as [p|] eqn:Hp; trivial.
  apply nth_error_upd_other. intros ->.
  apply Hne. symmetry. eapply col_pos_inj; eassumption.
Qed.

Lemma finalize_filled (cols : list str) (r : list (cell num)) (col : str) :
  col <> Tagged -> filled cols (finalize cols r) col = filled cols r col.
Proof. intros Hne. unfold filled. now rewrite finalize_other. Qed.

Lemma finalize_tagged (cols : list str) (r : list (cell num)) (pT : nat) :
  col_pos cols Tagged = Some pT -> length r = length cols ->
  row_get cols r Tagged = Some (Str No) ->
  row_get cols (finalize cols r) Tagged
  = Some (Str (if gate cols r then Yes else No)).
Proof.
  intros HpT Hlen Hno. unfold finalize. rewrite HpT.
  destruct (gate cols r); trivial.
  unfold row_get. rewrite HpT. apply nth_error_upd_same.
  rewrite Hlen. eapply col_pos_lt; eassumption.
Qed.

(** With the three columns in the table, the gate is the conjunction of
    the three cells being filled. *)
Lemma gate_filled (cols : list str) (r : list (cell num)) :
  has_column cols Department = true -> has_column cols Project = true ->
  has_column cols Owner = true ->
  gate cols r = filled cols r Department && filled cols r Project
                && filled cols r Owner.
Proof.
  intros HD HP HO. unfold gate, has_field, filled.
  now rewrite HD, HP, HO.
Qed.

(** *** One click *)

(** What one click does to [df_edited], given what the editor can return. *)
Lemma click_spec (sel : Selection) (df view edited : DataFrame num)
  (pT : nat) :
  well_formed df -> col_pos (columns df) Tagged = Some pT ->
  untagged_view sel df = Some view ->
  data_editor_result view edited ->
  apply_changes df edited
  = (mkDF (columns df)
       (map (row_after (columns df) (rows edited)) (rows df)),
     length (filter (fun b => gate (columns df) (snd b)) (rows edited)))
  /\ NoDup (map fst (rows edited))
  /\ exists h,
       Forall2 (edited_row (columns df)) (filter h (rows df)) (rows edited)
       /\ forall r, h r = true ->
                    row_get (columns df) (snd r) Tagged = Some (Str No).
Proof.
  intros [Hd [Hnd Hrect]] HpT Hview [Hcols Hrows].
  apply untagged_view_rows in Hview. destruct Hview as [Hvc [h [Hvr Hno]]].
  rewrite Hvc in Hcols, Hrows. rewrite Hvr in Hrows.
  destruct df as [cols rs]. simpl in *.
  assert (Hlab : map fst (rows edited) = map fst (filter h rs)).
  { eapply edited_labels; eassumption. }
  split; [|split].
  - unfold apply_changes. rewrite Hcols.
    apply (apply_changes_fused cols pT); trivial.
    + now apply distinct_NoDup.
    + apply Forall_forall. intros b Hb.
      destruct (Forall2_In_r _ _ _ _ Hrows Hb) as [v [Hv [Hf [Hl _]]]].
      apply filter_In in Hv. destruct Hv as [Hv _].
      rewrite Forall_forall in Hrect. split.
      * rewrite Hl. now apply Hrect.
      * rewrite Hf. now apply in_map.
  - rewrite Hlab. now apply NoDup_map_filter.
  - exists h. split; assumption.
Qed.

Lemma tagged_is_get (cols : list str) (r : list (cell num)) (v w : str) :
  row_get cols r Tagged = Some (Str w) -> tagged_is v cols r = str_eqb w v.
Proof. intros H. unfold tagged_is. now rewrite H. Qed.

(** The rows that leave the ['No'] group are as many as the batch rows
    that pass the gate. *)
Lemma untagged_count_after (cols : list str) (pT : nat)
  (h : nat * list (cell num) -> bool)
  (rs bs : list (nat * list (cell num))) :
  col_pos cols Tagged = Some pT ->
  NoDup (map fst rs) ->
  Forall (fun r0 : nat * list (cell num) => length (snd r0) = length cols)
         rs ->
  (forall r, h r = true -> row_get cols (snd r) Tagged = Some (Str No)) ->
  Forall2 (edited_row cols) (filter h rs) bs ->
  length (filter (is_no cols) (map (row_after cols bs) rs))
  + length (filter (fun b => gate cols (snd b)) bs)
  = length (filter (is_no cols) rs).
Proof.
  intros HpT Hnd Hrect Hno. revert bs.
  induction rs as [|r0 rs IH]; intros bs Hal.
  - simpl in Hal. inversion Hal. reflexivity.
  - inversion Hnd as [|? ? Hr0 Hnd']; subst.
    inversion Hrect as [|? ? Hl0 Hrect']; subst.
    assert (Hsub : forall bs', Forall2 (edited_row cols) (filter h rs) bs' ->
                     ~ In (fst r0) (map fst bs')).
    { intros bs' Hal' Hin. rewrite (edited_labels _ _ _ Hal') in Hin.
      apply Hr0. apply in_map_iff in Hin. destruct Hin as [y [Hy Hin]].
      apply filter_In in Hin. rewrite <- Hy. apply in_map. tauto. }
    simpl in Hal. destruct (h r0) eqn:Hh.
    + inversion Hal as [|? b ? bs' Hed Hal']; subst.
      specialize (IH Hnd' Hrect' bs' Hal').
      assert (Hfst : fst b = fst r0) by apply Hed.
      assert (Hrest : map (row_after cols (b :: bs')) rs
                      = map (row_after cols bs') rs).
      { apply map_ext_in. intros r Hr. unfold row_after. simpl.
        destruct (Nat.eqb_spec (fst r) (fst b)) as [E|E]; trivial.
        exfalso. apply Hr0. rewrite <- Hfst, <- E. now apply in_map. }
      assert (Hhead : row_after cols (b :: bs') r0
                      = (fst r0, finalize cols (snd b))).
      { unfold row_after. simpl. rewrite Hfst, Nat.eqb_refl.
        apply (row_after_absent cols bs' (fst r0, finalize cols (snd b))).
        simpl. now apply Hsub. }
      cbn [map]. rewrite Hrest, Hhead. cbn [filter].
      assert (Hb : row_get cols (snd b) Tagged = Some (Str No)).
      { rewrite (edited_row_tagged _ _ _ Hed). now apply Hno. }
      assert (Hlb : length (snd b) = length cols).
      { destruct Hed as [_ [Hl _]]. congruence. }
      change (is_no cols r0) with (tagged_is No cols (snd r0)).
      change (is_no cols (fst r0, finalize cols (snd b)))
        with (tagged_is No cols (finalize cols (snd b))).
      rewrite (tagged_is_get _ _ No No (Hno r0 Hh)).
      rewrite (tagged_is_get _ _ No _ (finalize_tagged _ _ pT HpT Hlb Hb)).
      destruct (gate cols (snd b)); simpl; lia.
    + specialize (IH Hnd' Hrect' bs Hal).
      cbn [map filter].
      rewrite (row_after_absent cols bs r0) by now apply Hsub.
      destruct (is_no cols r0); simpl; lia.
Qed.

(** What becomes of a batch row: it was a ['No'] row of [df_edited], and
    its finalized form is the row with that label afterwards. *)
Lemma click_row (sel : Selection) (df view edited : DataFrame num)
  (idx : nat) (r : list (cell num)) :
  well_formed df -> has_column (columns df) Tagged = true ->
  untagged_view sel df = Some view ->
  data_editor_result view edited ->
  In (idx, r) (rows edited) ->
  length r = length (columns df) /\
  (exists r0, In (idx, r0) (rows df) /\
              row_get (columns df) r0 Tagged = Some (Str No)) /\
  In (idx, finalize (columns df) r) (rows (fst (apply_changes df edited))) /\
  row_get (columns df) (finalize (columns df) r) Tagged
  = Some (Str (if gate (columns df) r then Yes else No)).
Proof.
  intros Hwf HT Hview Hed Hin.
  apply has_column_col_pos in HT. destruct HT as [pT HpT].
  destruct (click_spec sel df view edited pT Hwf HpT Hview Hed)
    as [Happ [Hnd [h [Hal Hno]]]].
  destruct (Forall2_In_r _ _ _ _ Hal Hin) as [v [Hv Hvr]].
  pose proof (edited_row_tagged _ _ _ Hvr) as Htag.
  destruct Hvr as [Hf [Hl _]]. simpl in Hf, Hl, Htag.
  apply filter_In in Hv. destruct Hv as [Hv Hh].
  destruct Hwf as [_ [_ Hrect]]. rewrite Forall_forall in Hrect.
  assert (Hlen : length r = length (columns df)).
  { rewrite Hl. now apply Hrect. }
  split; [exact Hlen|]. split; [|split].
  - exists (snd v). split; [|now apply Hno].
    rewrite Hf. now destruct v.
  - rewrite Happ. simpl. apply in_map_iff. exists v. split; [|exact Hv].
    rewrite (row_after_present _ _ v (idx, r)); trivial.
    now rewrite Hf.
  - apply (finalize_tagged _ _ pT); trivial.
    rewrite Htag. now apply Hno.
Qed.

Lemma Forall2_map_same {A} (R : A -> A -> Prop) (f : A -> A) (l : list A) :
  (forall x, In x l -> R x (f x)) -> Forall2 R l (map f l).
Proof.
  induction l as [|x l IH]; simpl; intros H; constructor; auto.
Qed.

Lemma same_identity_refl (cols : list str) (r : nat * list (cell num)) :
  same_identity cols r r.
Proof. repeat split. Qed.

Lemma same_identity_trans (cols : list str)
  (r1 r2 r3 : nat * list (cell num)) :
  same_identity cols r1 r2 -> same_identity cols r2 r3 ->
  same_identity cols r1 r3.
Proof.
  intros [F1 [L1 C1]] [F2 [L2 C2]]. repeat split; try congruence.
  intros col Hc. rewrite C2, C1; trivial.
Qed.

Lemma Forall2_trans {A} (R : A -> A -> Prop) (l1 l2 l3 : list A) :
  (forall x y z, R x y -> R y z -> R x z) ->
  Forall2 R l1 l2 -> Forall2 R l2 l3 -> Forall2 R l1 l3.
Proof.
  intros Ht H12. revert l3.
  induction H12 as [|x y l1 l2 Hxy _ IH]; intros l3 H23;
    inversion H23; subst; constructor; eauto.
Qed.

Lemma Forall2_same {A} (R : A -> A -> Prop) (l : list A) :
  (forall x, R x x) -> Forall2 R l l.
Proof. intros Hr. induction l; constructor; auto. Qed.

Lemma identity_disabled (col : str) :
  In col identity_columns -> In col disabled_columns /\ col <> Tagged.
Proof.
  unfold identity_columns, disabled_columns. simpl.
  intros [<-|[<-|[<-|[<-|[<-|[<-|[]]]]]]]; split;
    try tauto; intros E; vm_compute in E; discriminate.
Qed.

(** One click keeps the columns, and the rows' identities in their order;
    a row that is ['Yes'] stays ['Yes'], and the ['No'] rows do not get
    more numerous. *)
Lemma click_shape (d d' : DataFrame num) :
  well_formed d -> has_column (columns d) Tagged = true ->
  apply_click d d' ->
  columns d' = columns d /\
  Forall2 (same_identity (columns d)) (rows d) (rows d') /\
  Forall2 (fun r r' => is_yes (columns d) r = true ->
                       is_yes (columns d) r' = true) (rows d) (rows d') /\
  untagged_count d' <= untagged_count d.
Proof.
  intros Hwf HT Hclick.
  destruct Hclick as [sel d view edited Hview Hed _].
  pose proof HT as HT'. apply has_column_col_pos in HT'.
  destruct HT' as [pT HpT].
  destruct (click_spec sel d view edited pT Hwf HpT Hview Hed)
    as [Happ [Hnd [h [Hal Hno]]]].
  rewrite Happ. cbn [fst columns rows].
  assert (Hcase : forall r0, In r0 (rows d) ->
            row_after (columns d) (rows edited) r0 = r0 \/
            exists b, edited_row (columns d) r0 b /\ h r0 = true /\
              row_after (columns d) (rows edited) r0
              = (fst r0, finalize (columns d) (snd b))).
  { intros r0 Hr0.
    destruct (in_dec Nat.eq_dec (fst r0) (map fst (rows edited)))
      as [Hin|Hout].
    - right. apply in_map_iff in Hin. destruct Hin as [b [Hb Hin]].
      destruct (Forall2_In_r _ _ _ _ Hal Hin) as [v [Hv Hvr]].
      apply filter_In in Hv. destruct Hv as [Hv Hh].
      assert (v = r0).
      { destruct Hwf as [_ [Hndi _]].
        apply (NoDup_map_inj fst (rows d)); trivial.
        destruct Hvr as [Hf _]. congruence. }
      subst v. exists b. split; [exact Hvr|]. split; [exact Hh|].
      now apply row_after_present.
    - left. now apply row_after_absent. }
  split; [reflexivity|]. split; [|split].
  - apply Forall2_map_same. intros r0 Hr0.
    destruct (Hcase r0 Hr0) as [->|[b [Hed' [_ ->]]]].
    + apply same_identity_refl.
    + destruct Hed' as [Hf [Hl Hdis]]. rewrite Forall_forall in Hdis.
      repeat split; simpl.
      * now rewrite finalize_length.
      * intros col Hcol. destruct (identity_disabled col Hcol) as [Hd Hne].
        rewrite finalize_other by assumption.
        unfold row_get.
        destruct (col_pos (columns d) col) as [p|] eqn:Hp; trivial.
        now apply (Hdis col Hd).
  - apply Forall2_map_same. intros r0 Hr0.
    destruct (Hcase r0 Hr0) as [->|[b [_ [Hh _]]]]; trivial.
    unfold is_yes at 1. rewrite (tagged_is_get _ _ Yes No (Hno r0 Hh)).
    intros E. vm_compute in E. discriminate.
  - unfold untagged_count. cbn [columns rows].
    destruct Hwf as [_ [Hndi Hrect]].
    rewrite <- (untagged_count_after (columns d) pT h (rows d) (rows edited))
      by assumption.
    lia.
Qed.

Lemma Forall2_index (cols : list str) (rs rs' : list (nat * list (cell num))) :
  Forall2 (same_identity cols) rs rs' ->
  map fst rs' = map fst rs /\
  Forall2 (fun r r' : nat * list (cell num) =>
             length (snd r') = length (snd r)) rs rs'.
Proof.
  induction 1 as [|r r' rs rs' [Hf [Hl _]] _ [IH1 IH2]]; simpl.
  - split; constructor.
  - split; [congruence | now constructor].
Qed.

(** A click leaves a well-formed frame well-formed. *)
Lemma click_well_formed (d d' : DataFrame num) :
  well_formed d -> has_column (columns d) Tagged = true ->
  apply_click d d' -> well_formed d'.
Proof.
  intros Hwf HT Hclick.
  destruct (click_shape d d' Hwf HT Hclick) as [Hc [Hid _]].
  destruct (Forall2_index _ _ _ Hid) as [Hidx Hlen].
  destruct Hwf as [Hd [Hnd Hrect]]. unfold well_formed, index.
  rewrite Hc, Hidx. repeat split; trivial.
  clear - Hrect Hlen. induction Hlen as [|r r' rs rs' Hl _ IH];
    constructor; inversion Hrect; subst; auto. congruence.
Qed.

(** C2. After a click, every row of the applied batch is in [df_edited]
    with the cells the editor gave for it and with [Tagged] equal to ['Yes']
    exactly when its Department, Project and Owner cells are all filled,
    ['No'] otherwise; no other column enters the decision.  The reported
    count is the number of batch rows with the three cells filled, and it is
    the number of rows that left the ['No'] group. *)
Theorem auto_tag_rule (sel : Selection) (df view edited : DataFrame num) :
  well_formed df ->
  has_column (columns df) Tagged = true ->
  has_column (columns df) Department = true ->
  has_column (columns df) Project = true ->
  has_column (columns df) Owner = true ->
  untagged_view sel df = Some view ->
  data_editor_result view edited ->
  let cols := columns df in
  let df' := fst (apply_changes df edited) in
  let changes_made := snd (apply_changes df edited) in
  (forall idx r, In (idx, r) (rows edited) ->
     exists r',
       In (idx, r') (rows df') /\
       (forall col, col <> Tagged ->
                    row_get cols r' col = row_get cols r col) /\
       row_get cols r' Tagged
       = Some (Str (if filled cols r' Department && filled cols r' Project
                       && filled cols r' Owner
                    then Yes else No))) /\
  changes_made
  = length (filter (fun b => filled cols (snd b) Department
                             && filled cols (snd b) Project
                             && filled cols (snd b) Owner) (rows edited)) /\
  untagged_count df' + changes_made = untagged_count df.
Proof.
  intros Hwf HT HD HP HO Hview Hed cols df' changes_made.
  assert (HneD : Department <> Tagged)
    by (intros E; vm_compute in E; discriminate).
  assert (HneP : Project <> Tagged)
    by (intros E; vm_compute in E; discriminate).
  assert (HneO : Owner <> Tagged)
    by (intros E; vm_compute in E; discriminate).
  split; [|split].
  - intros idx r Hin.
    destruct (click_row sel df view edited idx r Hwf HT Hview Hed Hin)
      as [_ [_ [Hrow Htag]]].
    exists (finalize cols r). split; [exact Hrow|]. split.
    + intros col Hne. now apply finalize_other.
    + rewrite !finalize_filled by assumption.
      fold cols in Htag. rewrite Htag. now rewrite gate_filled.
  - pose proof HT as HT'. apply has_column_col_pos in HT'.
    destruct HT' as [pT HpT].
    destruct (click_spec sel df view edited pT Hwf HpT Hview Hed)
      as [Happ _].
    subst changes_made. rewrite Happ. simpl. f_equal.
    apply filter_ext. intros b. now apply gate_filled.
  - pose proof HT as HT'. apply has_column_col_pos in HT'.
    destruct HT' as [pT HpT].
    destruct (click_spec sel df view edited pT Hwf HpT Hview Hed)
      as [Happ [_ [h [Hal Hno]]]].
    subst changes_made df'. rewrite Happ. unfold untagged_count. simpl.
    destruct Hwf as [_ [Hnd Hrect]].
    now apply (untagged_count_after (columns df) pT h).
Qed.

(** C10. A gate field whose column is not in the table counts as filled.
    A batch row ends with [Tagged] equal to ['Yes'] exactly when every gate
    column that exists is filled in it; when none of Department, Project
    and Owner is a column, every batch row is marked ['Yes'] and the
    reported count is the size of the batch. *)
Theorem absent_gate_columns_pass (sel : Selection)
  (df view edited : DataFrame num) :
  well_formed df ->
  has_column (columns df) Tagged = true ->
  untagged_view sel df = Some view ->
  data_editor_result view edited ->
  let cols := columns df in
  let df' := fst (apply_changes df edited) in
  let changes_made := snd (apply_changes df edited) in
  (forall r : list (cell num),
     gate cols r
     = (negb (has_column cols Department) || filled cols r Department)
       && (negb (has_column cols Project) || filled cols r Project)
       && (negb (has_column cols Owner) || filled cols r Owner)) /\
  (forall idx r, In (idx, r) (rows edited) ->
     exists r', In (idx, r') (rows df') /\
                row_get cols r' Tagged
                = Some (Str (if gate cols r then Yes else No))) /\
  (has_column cols Department = false ->
   has_column cols Project = false ->
   has_column cols Owner = false ->
   (forall idx r, In (idx, r) (rows edited) ->
      exists r', In (idx, r') (rows df') /\
                 row_get cols r' Tagged = Some (Str Yes)) /\
   changes_made = df_len edited).
Proof.
  intros Hwf HT Hview Hed cols df' changes_made.
  assert (Hrows : forall idx r, In (idx, r) (rows edited) ->
            exists r', In (idx, r') (rows df') /\
                       row_get cols r' Tagged
                       = Some (Str (if gate cols r then Yes else No))).
  { intros idx r Hin.
    destruct (click_row sel df view edited idx r Hwf HT Hview Hed Hin)
      as [_ [_ [Hrow Htag]]].
    exists (finalize cols r). split; assumption. }
  split; [|split].
  - intros r. unfold gate, has_field, filled.
    destruct (has_column cols Department), (has_column cols Project),
      (has_column cols Owner); reflexivity.
  - exact Hrows.
  - intros HD HP HO.
    assert (Hgate : forall r : list (cell num), gate cols r = true).
    { intros r. unfold gate, has_field. now rewrite HD, HP, HO. }
    split.
    + intros idx r Hin. destruct (Hrows idx r Hin) as [r' [H1 H2]].
      rewrite Hgate in H2. eauto.
    + pose proof HT as HT'. apply has_column_col_pos in HT'.
      destruct HT' as [pT HpT].
      destruct (click_spec sel df view edited pT Hwf HpT Hview Hed)
        as [Happ _].
      subst changes_made. rewrite Happ. simpl. unfold df_len. f_equal.
      apply filter_true. intros b. apply Hgate.
Qed.

(** In a session, [df_edited] stays well-formed and keeps the columns, the
    row labels and the identity cells of the table it was copied from. *)
Lemma session_invariant (df orig ed : DataFrame num) :
  well_formed df -> has_column (columns df) Tagged = true ->
  session df orig ed ->
  well_formed ed /\ columns ed = columns df /\
  Forall2 (same_identity (columns df)) (rows df) (rows ed).
Proof.
  intros Hwf HT Hs. induction Hs as [orig|orig ed ed' Hs IH Hclick].
  - repeat split; try apply Hwf.
    apply Forall2_same. intros r. apply same_identity_refl.
  - destruct IH as [Hwfe [Hc Hid]].
    assert (HTe : has_column (columns ed) Tagged = true) by now rewrite Hc.
    destruct (click_shape ed ed' Hwfe HTe Hclick) as [Hc' [Hid' _]].
    split; [eapply click_well_formed; eassumption|].
    split; [congruence|].
    rewrite Hc in Hid'.
    eapply Forall2_trans; [|eassumption|eassumption].
    intros x y z. apply same_identity_trans.
Qed.

Lemma clicks_only_tag (d d' : DataFrame num) :
  well_formed d -> has_column (columns d) Tagged = true ->
  clicks d d' ->
  untagged_count d' <= untagged_count d /\
  Forall2 (fun r r' => is_yes (columns d) r = true ->
                       is_yes (columns d) r' = true) (rows d) (rows d').
Proof.
  intros Hwf HT Hc. induction Hc as [d|d d1 d2 Hclick Hc IH].
  - split; [lia|]. apply Forall2_same. auto.
  - destruct (click_shape d d1 Hwf HT Hclick) as [Hcols [_ [Hyes Hcnt]]].
    assert (Hwf1 : well_formed d1) by (eapply click_well_formed; eassumption).
    assert (HT1 : has_column (columns d1) Tagged = true) by now rewrite Hcols.
    destruct (IH Hwf1 HT1) as [Hcnt' Hyes']. rewrite Hcols in Hyes'.
    split; [lia|].
    eapply Forall2_trans; [|eassumption|eassumption].
    simpl. auto.
Qed.


End Remediation.

(** *** The two-resource scenario *)

Lemma two_resources_well_formed : well_formed two_resources.
Proof. frame_well_formed. Qed.

Lemma two_resources_view_ok :
  untagged_view no_selection two_resources = Some two_resources_view.
Proof. reflexivity. Qed.

Lemma two_resources_edit_ok :
  data_editor_result two_resources_view two_resources_edit.
Proof. editor_result. Qed.

Lemma two_resources_click :
  apply_click two_resources
    (fst (apply_changes two_resources two_resources_edit)).
Proof.
  apply Click with (sel := no_selection) (view := two_resources_view).
  - exact two_resources_view_ok.
  - exact two_resources_edit_ok.
  - unfold df_len. simpl. lia.
Qed.

Lemma bare_table_well_formed : well_formed bare_table.
Proof. frame_well_formed. Qed.

Lemma bare_table_edit_ok : data_editor_result bare_table bare_table.
Proof. editor_result. Qed.

Lemma auto_tag_rule_witness :
  let df := two_resources in
  let edited := two_resources_edit in
  let cols := columns df in
  let df' := fst (apply_changes df edited) in
  let changes_made := snd (apply_changes df edited) in
  (forall idx r, In (idx, r) (rows edited) ->
     exists r',
       In (idx, r') (rows df') /\
       (forall col, col <> Tagged ->
                    row_get cols r' col = row_get cols r col) /\
       row_get cols r' Tagged
       = Some (Str (if filled cols r' Department && filled cols r' Project
                       && filled cols r' Owner
                    then Yes else No))) /\
  changes_made
  = length (filter (fun b => filled cols (snd b) Department
                             && filled cols (snd b) Project
                             && filled cols (snd b) Owner) (rows edited)) /\
  untagged_count df' + changes_made = untagged_count df.
Proof.
  apply (auto_tag_rule Q no_selection two_resources two_resources_view
           two_resources_edit).
  - exact two_resources_well_formed.
  - reflexivity.
  - reflexivity.
  - reflexivity.
  - reflexivity.
  - exact two_resources_view_ok.
  - exact two_resources_edit_ok.
Defined.

Lemma absent_gate_columns_pass_witness :
  let df := bare_table in
  let edited := bare_table in
  let cols := columns df in
  let df' := fst (apply_changes df edited) in
  let changes_made := snd (apply_changes df edited) in
  (forall r : list (cell Q),
     gate cols r
     = (negb (has_column cols Department) || filled cols r Department)
       && (negb (has_column cols Project) || filled cols r Project)
       && (negb (has_column cols Owner) || filled cols r Owner)) /\
  (forall idx r, In (idx, r) (rows edited) ->
     exists r', In (idx, r') (rows df') /\
                row_get cols r' Tagged
                = Some (Str (if gate cols r then Yes else No))) /\
  (has_column cols Department = false ->
   has_column cols Project = false ->
   has_column cols Owner = false ->
   (forall idx r, In (idx, r) (rows edited) ->
      exists r', In (idx, r') (rows df') /\
                 row_get cols r' Tagged = Some (Str Yes)) /\
   changes_made = df_len edited).
Proof.
  apply (absent_gate_columns_pass Q no_selection bare_table bare_table
           bare_table).
  - exact bare_table_well_formed.
  - reflexivity.
  - reflexivity.
  - exact bare_table_edit_ok.
Defined.


(** The scenario, computed: the click marks the first resource, reports
    one change and leaves no untagged row. *)
Lemma two_resources_after_click :
  apply_changes two_resources two_resources_edit
  = (mkDF (columns two_resources)
       [(0, [Str (s "r1"); Str (s "EC2"); Str (s "Eng"); Str (s "Apollo");
             Str (s "jdoe"); Num 100%Q; Str Yes]);
        (1, [Str (s "r2"); Str (s "S3"); Str (s "Eng"); Str (s "Apollo");
             Str (s "jdoe"); Num 50%Q; Str Yes])], 1).
Proof. reflexivity. Qed.

(** ** Strings: [strip], [split] and [join] *)

Section Text.

Lemma free_of_In (c : ascii) (x : str) : free_of c x = true <-> ~ In c x.
Proof.
  unfold free_of. rewrite negb_true_iff. split.
  - intros H Hin. assert (E : existsb (Ascii.eqb c) x = true).
    { apply existsb_exists. exists c. split; trivial. apply Ascii.eqb_refl. }
    congruence.
  - intros H. destruct (existsb (Ascii.eqb c) x) eqn:E; trivial.
    apply existsb_exists in E. destruct E as [y [Hy E]].
    apply Ascii.eqb_eq in E. subst. contradiction.
Qed.

Lemma free_of_incl (c : ascii) (x y : str) :
  incl x y -> free_of c y = true -> free_of c x = true.
Proof. rewrite !free_of_In. unfold incl. firstorder. Qed.

Lemma free_of_app (c : ascii) (x y : str) :
  free_of c (x ++ y) = free_of c x && free_of c y.
Proof. unfold free_of. now rewrite existsb_app, negb_orb. Qed.

Lemma free_of_cons (c x : ascii) (l : str) :
  free_of c (x :: l) = negb (Ascii.eqb c x) && free_of c l.
Proof. unfold free_of. simpl. now rewrite negb_orb. Qed.

Lemma lstrip_solid (l : str) : starts_solid l = true -> lstrip l = l.
Proof.
  destruct l as [|c l]; simpl; trivial.
  now destruct (isspace c).
Qed.

Lemma lstrip_suffix (l : str) : exists w, l = w ++ lstrip l.
Proof.
  induction l as [|c l [w IH]]; simpl.
  - now exists [].
  - destruct (isspace c).
    + exists (c :: w). simpl. now f_equal.
    + now exists [].
Qed.

Lemma lstrip_result (l : str) :
  lstrip l = [] \/ starts_solid (lstrip l) = true.
Proof.
  induction l as [|c l IH]; simpl; auto.
  destruct (isspace c) eqn:E; auto.
  right. simpl. now rewrite E.
Qed.

Lemma rstrip_prefix (l : str) : exists w, l = rstrip l ++ w.
Proof.
  unfold rstrip. destruct (lstrip_suffix (rev l)) as [w Hw].
  exists (rev w). rewrite <- rev_app_distr, <- Hw. now rewrite rev_involutive.
Qed.

Lemma lstrip_incl (l : str) : incl (lstrip l) l.
Proof.
  destruct (lstrip_suffix l) as [w Hw]. intros c Hc.
  rewrite Hw. apply in_or_app. now right.
Qed.

Lemma rstrip_incl (l : str) : incl (rstrip l) l.
Proof.
  destruct (rstrip_prefix l) as [w Hw]. intros c Hc.
  rewrite Hw. apply in_or_app. now left.
Qed.

Lemma strip_incl (l : str) : incl (strip l) l.
Proof.
  unfold strip. eapply incl_tran; [apply rstrip_incl | apply lstrip_incl].
Qed.

Lemma starts_solid_app (a b : str) :
  a <> [] -> starts_solid (a ++ b) = starts_solid a.
Proof. destruct a; [congruence | reflexivity]. Qed.

Lemma trimmed_solid (l : str) :
  starts_solid l = true -> ends_solid l = true -> trimmed l = true.
Proof.
  intros Hs He. destruct l; trivial. unfold trimmed. now rewrite Hs, He.
Qed.

(** [strip] leaves the empty string or a string with solid ends. *)
Lemma strip_trimmed (l : str) : trimmed (strip l) = true.
Proof.
  unfold strip, rstrip.
  destruct (lstrip_result l) as [E|Hs].
  - rewrite E. reflexivity.
  - set (u := lstrip l) in *.
    destruct (lstrip_result (rev u)) as [E|He].
    + rewrite E. reflexivity.
    + set (w := lstrip (rev u)) in *.
      assert (Hw : w <> []) by (destruct w; [discriminate | congruence]).
      assert (Hr : rev w <> []).
      { intros E. apply Hw. rewrite <- (rev_involutive w), E. reflexivity. }
      assert (Hstart : starts_solid (rev w) = true).
      { destruct (lstrip_suffix (rev u)) as [sp Hsp]. fold w in Hsp.
        assert (Hu : u = rev w ++ rev sp).
        { rewrite <- rev_app_distr, <- Hsp. now rewrite rev_involutive. }
        rewrite Hu in Hs. now rewrite starts_solid_app in Hs. }
      apply trimmed_solid; trivial.
      unfold ends_solid. now rewrite rev_involutive.
Qed.

Lemma trimmed_strip (l : str) : trimmed l = true -> strip l = l.
Proof.
  destruct l as [|c l]; [reflexivity|].
  unfold trimmed. rewrite andb_true_iff. intros [Hs He].
  unfold strip. rewrite (lstrip_solid _ Hs).
  unfold rstrip. unfold ends_solid in He. rewrite (lstrip_solid _ He).
  apply rev_involutive.
Qed.

Lemma strip_idempotent (l : str) : strip (strip l) = strip l.
Proof. apply trimmed_strip, strip_trimmed. Qed.

Lemma split_not_nil (sep : ascii) (l : str) : split sep l <> [].
Proof.
  destruct l as [|c l]; simpl; [discriminate|].
  destruct (Ascii.eqb c sep); [discriminate|].
  destruct (split sep l); discriminate.
Qed.

(** The pieces of a split are made of characters of the string, the
    separator excluded. *)
Lemma split_pieces (sep : ascii) (l w : str) (c : ascii) :
  In w (split sep l) -> In c w -> In c l /\ c <> sep.
Proof.
  revert w. induction l as [|x l IH]; intros w; simpl.
  - intros [<-|[]] [].
  - destruct (Ascii.eqb_spec x sep) as [->|Hne].
    + intros [<-|Hw] Hc; [contradiction|].
      destruct (IH w Hw Hc). tauto.
    + destruct (split sep l) as [|w0 ws] eqn:E.
      * intros [<-|[]] [<-|[]]. tauto.
      * intros [<-|Hw] Hc.
        -- destruct Hc as [<-|Hc]; [tauto|].
           destruct (IH w0 (or_introl eq_refl) Hc). tauto.
        -- destruct (IH w (or_intror Hw) Hc). tauto.
Qed.

Lemma split_free (sep : ascii) (l : str) :
  Forall (fun w => free_of sep w = true) (split sep l).
Proof.
  apply Forall_forall. intros w Hw. apply free_of_In. intros Hc.
  destruct (split_pieces sep l w sep Hw Hc) as [_ H]. congruence.
Qed.

Lemma split_keeps_free (sep c : ascii) (l : str) :
  free_of c l = true ->
  Forall (fun w => free_of c w = true) (split sep l).
Proof.
  intros Hl. apply Forall_forall. intros w Hw. apply free_of_In. intros Hc.
  apply free_of_In in Hl. apply Hl.
  now destruct (split_pieces sep l w c Hw Hc).
Qed.

Lemma split_app_sep (sep : ascii) (w rest : str) :
  free_of sep w = true ->
  split sep (w ++ sep :: rest) = w :: split sep rest.
Proof.
  induction w as [|c w IH]; simpl; intros Hw.
  - now rewrite Ascii.eqb_refl.
  - unfold free_of in Hw. simpl in Hw. rewrite negb_orb in Hw.
    apply andb_true_iff in Hw. destruct Hw as [Hc Hw].
    rewrite Ascii.eqb_sym. apply negb_true_iff in Hc. rewrite Hc.
    now rewrite IH.
Qed.

Lemma split_free_id (sep : ascii) (w : str) :
  free_of sep w = true -> split sep w = [w].
Proof.
  induction w as [|c w IH]; simpl; intros Hw; trivial.
  unfold free_of in Hw. simpl in Hw. rewrite negb_orb in Hw.
  apply andb_true_iff in Hw. destruct Hw as [Hc Hw].
  rewrite Ascii.eqb_sym. apply negb_true_iff in Hc. rewrite Hc.
  now rewrite IH.
Qed.

(** Splitting undoes joining. *)
Lemma split_join (sep : ascii) (ws : list str) :
  ws <> [] -> Forall (fun w => free_of sep w = true) ws ->
  split sep (join sep ws) = ws.
Proof.
  induction ws as [|w ws IH]; intros Hne Hf; [congruence|].
  inversion Hf as [|? ? Hw Hws]; subst.
  destruct ws as [|w' ws].
  - simpl. now apply split_free_id.
  - change (join sep (w :: w' :: ws)) with (w ++ sep :: join sep (w' :: ws)).
    rewrite split_app_sep by assumption.
    f_equal. apply IH; [discriminate | assumption].
Qed.

Lemma join_free (sep c : ascii) (ws : list str) :
  c <> sep -> Forall (fun w => free_of c w = true) ws ->
  free_of c (join sep ws) = true.
Proof.
  intros Hne. induction ws as [|w ws IH]; intros Hf; [reflexivity|].
  inversion Hf as [|? ? Hw Hws]; subst.
  destruct ws as [|w' ws]; [exact Hw|].
  change (join sep (w :: w' :: ws)) with (w ++ sep :: join sep (w' :: ws)).
  rewrite free_of_app, Hw, free_of_cons.
  apply Ascii.eqb_neq in Hne. rewrite Hne. simpl. now apply IH.
Qed.

Lemma slice_incl {A} (l : list A) (lo hi : option Z) : incl (slice l lo hi) l.
Proof.
  unfold slice. intros x Hx.
  set (a := match lo with Some i => slice_bound (length l) i | None => 0 end)
    in *.
  rewrite <- (firstn_skipn a l). apply in_or_app. right.
  rewrite <- (firstn_skipn
                (match hi with Some i => slice_bound (length l) i
                             | None => length l end - a) (skipn a l)).
  apply in_or_app. now left.
Qed.

Lemma unquote_incl (l : str) : incl (unquote l) l.
Proof.
  unfold unquote. destruct (startswith dquote l && endswith dquote l).
  - apply slice_incl.
  - apply incl_refl.
Qed.

End Text.

(** ** The shape of what [load_data] returns *)

Section Shape.

Variable num : Type.
Variable to_numeric : str -> option num.
Variable object_dtype : bool.

Lemma lines_free (content : str) :
  Forall (fun l => free_of newline l = true) (lines_of content).
Proof. apply split_free. Qed.

Lemma header_line_free (content : str) :
  free_of newline (hd [] (lines_of content)) = true.
Proof.
  pose proof (lines_free content) as H.
  destruct (lines_of content); [reflexivity|].
  now inversion H.
Qed.

(** The fields of a line without newline have no comma and no newline. *)
Lemma fields_free (line : str) :
  free_of newline line = true ->
  Forall (fun w => free_of comma w = true /\ free_of newline w = true)
         (split comma (unquote (strip line))).
Proof.
  intros Hl.
  assert (Hn : free_of newline (unquote (strip line)) = true).
  { eapply free_of_incl; [|exact Hl].
    eapply incl_tran; [apply unquote_incl | apply strip_incl]. }
  pose proof (split_free comma (unquote (strip line))) as H1.
  pose proof (split_keeps_free comma newline _ Hn) as H2.
  rewrite Forall_forall in *. intros w Hw. split; auto.
Qed.

Lemma strip_clean (w : str) :
  free_of comma w = true -> free_of newline w = true ->
  clean_text (strip w) = true.
Proof.
  intros Hc Hn. unfold clean_text.
  rewrite strip_trimmed.
  rewrite (free_of_incl comma _ _ (strip_incl w) Hc).
  now rewrite (free_of_incl newline _ _ (strip_incl w) Hn).
Qed.

Lemma headers_clean (content : str) :
  Forall (fun h => clean_text h = true) (headers_of content).
Proof.
  unfold headers_of. apply Forall_map.
  pose proof (fields_free _ (header_line_free content)) as H.
  revert H. apply Forall_impl. intros w [Hc Hn]. now apply strip_clean.
Qed.

Lemma headers_not_nil (content : str) : headers_of content <> [].
Proof.
  unfold headers_of. intros E. apply map_eq_nil in E.
  revert E. apply split_not_nil.
Qed.

Lemma firstn_incl {A} (n : nat) (l : list A) : incl (firstn n l) l.
Proof.
  intros x Hx. rewrite <- (firstn_skipn n l). apply in_or_app. now left.
Qed.

Lemma skipn_incl {A} (n : nat) (l : list A) : incl (skipn n l) l.
Proof.
  intros x Hx. rewrite <- (firstn_skipn n l). apply in_or_app. now right.
Qed.

(** A repaired row holds fields of the line and empty strings. *)
Lemma repair_fields (N : nat) (fields : list str) (w : str) :
  In w (repair N fields) -> w = [] \/ In w fields.
Proof.
  rewrite repair_eq.
  destruct (length fields <? N).
  - intros H. apply in_app_or in H. destruct H as [H|H].
    + right. eapply firstn_incl; eassumption.
    + apply in_app_or in H. destruct H as [H|H].
      * left. now apply repeat_spec in H.
      * right. eapply skipn_incl; eassumption.
  - destruct (N <? length fields); [|tauto].
    intros H. right. eapply firstn_incl; eassumption.
Qed.

Lemma data_rows_free (content : str) :
  Forall (Forall (fun w => free_of comma w = true /\
                           free_of newline w = true))
         (data_rows_of content).
Proof.
  rewrite data_rows_of_map. apply Forall_map, Forall_forall.
  intros line Hline. apply Forall_forall. intros w Hw.
  apply repair_fields in Hw. destruct Hw as [->|Hw]; [now split|].
  assert (Hl : free_of newline line = true).
  { pose proof (lines_free content) as H. rewrite Forall_forall in H.
    apply H. destruct (lines_of content); [contradiction|]. now right. }
  pose proof (fields_free line Hl) as H. rewrite Forall_forall in H.
  now apply H.
Qed.

(** What the loader leaves in a cell, the text columns stripped or not: a
    string is not empty, has no comma and no newline and is not in the cost
    column, and it is trimmed where the columns are stripped; a number is in
    the cost column. *)
Lemma type_cell_kind (col x : str) :
  free_of comma x = true -> free_of newline x = true ->
  match type_cell to_numeric object_dtype col x with
  | NA => True
  | Str y =>
      str_eqb col MonthlyCostUSD = false /\ y <> [] /\
      free_of comma y = true /\ free_of newline y = true /\
      (object_dtype = true -> trimmed y = true)
  | Num _ => str_eqb col MonthlyCostUSD = true
  end.
Proof.
  intros Hc Hn. unfold type_cell, clean_cell.
  set (y := if object_dtype then strip x else x).
  assert (Hy : free_of comma y = true /\ free_of newline y = true /\
               (object_dtype = true -> trimmed y = true)).
  { subst y. destruct object_dtype.
    - split; [exact (free_of_incl comma _ _ (strip_incl x) Hc)|].
      split; [exact (free_of_incl newline _ _ (strip_incl x) Hn)|].
      intros _. apply strip_trimmed.
    - split; [exact Hc|]. split; [exact Hn | discriminate]. }
  destruct y as [|c y].
  - now destruct (str_eqb col MonthlyCostUSD).
  - destruct (str_eqb col MonthlyCostUSD) eqn:Ecol; simpl.
    + destruct (to_numeric (c :: y)); simpl; trivial.
    + split; [reflexivity|]. split; [discriminate | exact Hy].
Qed.

Lemma type_cell_shape (col x : str) :
  free_of comma x = true -> free_of newline x = true ->
  (object_dtype = false ->
   cell_trimmed (type_cell to_numeric object_dtype col x) = true) ->
  cell_shape col (type_cell to_numeric object_dtype col x) = true.
Proof.
  intros Hc Hn Ht. pose proof (type_cell_kind col x Hc Hn) as Hk.
  destruct (type_cell to_numeric object_dtype col x) as [|y|v]; simpl in *;
    trivial.
  destruct Hk as [Hcol [Hne [Hcy [Hny Hty]]]].
  rewrite Hcol. unfold clean_text. rewrite Hcy, Hny.
  assert (Htr : trimmed y = true) by (destruct object_dtype; auto).
  rewrite Htr. now destruct y.
Qed.

Lemma type_row_shape (cols : list str) (r : list str) :
  length r = length cols ->
  Forall (fun w => free_of comma w = true /\ free_of newline w = true) r ->
  (object_dtype = false ->
   forallb (@cell_trimmed num) (type_row to_numeric object_dtype cols r)
   = true) ->
  row_shape cols (type_row to_numeric object_dtype cols r) = true.
Proof.
  revert r. induction cols as [|col cols IH]; intros [|x r] Hlen Hf Ht;
    simpl in *; try discriminate; trivial.
  inversion Hf as [|? ? [Hc Hn] Hf']; subst.
  rewrite type_cell_shape; trivial.
  - apply IH; [lia | assumption |].
    intros E. specialize (Ht E). now apply andb_true_iff in Ht.
  - intros E. specialize (Ht E). now apply andb_true_iff in Ht.
Qed.

Lemma type_row_length (cols : list str) (r : list str) :
  length r = length cols ->
  length (type_row to_numeric object_dtype cols r) = length cols.
Proof.
  revert r. induction cols as [|col cols IH]; intros [|x r] Hlen;
    simpl in *; try discriminate; trivial.
  now rewrite IH by lia.
Qed.

(** The cell of a typed row at a position is the typed field there. *)
Lemma type_row_nth (cols : list str) (r : list str) (p : nat) (col : str) :
  length r = length cols -> nth_error cols p = Some col ->
  exists x,
    nth_error r p = Some x /\
    nth_error (type_row to_numeric object_dtype cols r) p
    = Some (type_cell to_numeric object_dtype col x).
Proof.
  revert r p. induction cols as [|c cols IH]; intros [|x r] [|p] Hlen Hp;
    simpl in *; try discriminate.
  - injection Hp as ->. now exists x.
  - apply IH; [lia | assumption].
Qed.

Lemma map_snd_enumerate_from {A} (l : list A) (n : nat) :
  map snd (enumerate_from n l) = l.
Proof.
  revert n. induction l as [|x l IH]; intros n; simpl; trivial.
  now rewrite IH.
Qed.

(** Every row of a loaded table is the typed form of fields without comma
    or newline, one per column. *)
Lemma load_data_rows (content : str) (df : DataFrame num)
  (r : nat * list (cell num)) :
  load_data to_numeric object_dtype content = Some df ->
  In r (rows df) ->
  exists fields,
    length fields = length (columns df) /\
    Forall (fun w => free_of comma w = true /\ free_of newline w = true)
           fields /\
    snd r = type_row to_numeric object_dtype (columns df) fields.
Proof.
  intros Hload Hr.
  destruct (distinct (headers_of content)) eqn:Hd.
  2:{ rewrite load_data_none in Hload by assumption. discriminate. }
  rewrite load_data_some in Hload by assumption.
  injection Hload as <-. simpl in *.
  apply (in_map snd) in Hr. rewrite map_snd_enumerate_from in Hr.
  apply in_map_iff in Hr. destruct Hr as [fields [<- Hin]].
  pose proof (data_rows_width content) as Hw.
  pose proof (data_rows_free content) as Hf.
  rewrite Forall_forall in Hw, Hf.
  exists fields. repeat split; auto.
Qed.

(** What is known of every table the loader returns, when it stripped the
    text columns or when no string cell has white space at its ends. *)
Lemma load_data_shape (content : str) (df : DataFrame num) :
  load_data to_numeric object_dtype content = Some df ->
  (object_dtype = false -> trimmed_cells df = true) ->
  loaded_shape df.
Proof.
  intros Hload Htrim.
  assert (Hrows : forall r, In r (rows df) ->
            row_shape (columns df) (snd r) = true).
  { intros r Hr.
    destruct (load_data_rows content df r Hload Hr)
      as [fields [Hlen [Hfree E]]].
    rewrite E. apply type_row_shape; trivial.
    intros Eo. rewrite <- E. specialize (Htrim Eo).
    unfold trimmed_cells in Htrim. rewrite forallb_forall in Htrim.
    now apply Htrim. }
  destruct (distinct (headers_of content)) eqn:Hd.
  2:{ rewrite load_data_none in Hload by assumption. discriminate. }
  rewrite load_data_some in Hload by assumption.
  injection Hload as <-. unfold loaded_shape. simpl in *.
  split; [apply headers_not_nil|]. split; [exact Hd|].
  split; [apply headers_clean|]. split.
  - now rewrite map_snd_enumerate_from.
  - apply Forall_forall. exact Hrows.
Qed.

Lemma index_enumerate_from {A} (l : list A) (n : nat) :
  map fst (enumerate_from n l) = seq n (length l).
Proof.
  revert n. induction l as [|x l IH]; intros n; simpl; trivial.
  now rewrite IH.
Qed.

Lemma row_shape_length (cols : list str) (r : list (cell num)) :
  row_shape cols r = true -> length r = length cols.
Proof.
  revert r. induction cols as [|col cols IH]; intros [|c r]; simpl;
    try discriminate; trivial.
  rewrite andb_true_iff. intros [_ H]. now rewrite (IH r H).
Qed.

(** A loaded table is well-formed: a session can start from it. *)
Lemma load_data_well_formed (content : str) (df : DataFrame num) :
  load_data to_numeric object_dtype content = Some df -> well_formed df.
Proof.
  intros Hload.
  assert (Hrows : Forall (fun r : nat * list (cell num) =>
                            length (snd r) = length (columns df)) (rows df)).
  { apply Forall_forall. intros r Hr.
    destruct (load_data_rows content df r Hload Hr)
      as [fields [Hlen [_ ->]]].
    now apply type_row_length. }
  destruct (distinct (headers_of content)) eqn:Hd.
  2:{ rewrite load_data_none in Hload by assumption. discriminate. }
  rewrite load_data_some in Hload by assumption.
  injection Hload as <-. split; [exact Hd|]. split; [|exact Hrows].
  unfold index. simpl. rewrite index_enumerate_from. apply seq_NoDup.
Qed.

End Shape.

(** ** Export and reload *)

Section RoundTrip.

Variable num : Type.
Variable to_numeric : str -> option num.
Variable object_dtype : bool.
Variable num_repr : num -> str.
Hypothesis Hreads : reads_back to_numeric num_repr.
Hypothesis Hprints : prints_plain num_repr.

Lemma plain_parts (x : str) :
  plain x = true ->
  trimmed x = true /\ free_of comma x = true /\ free_of newline x = true
  /\ free_of dquote x = true.
Proof.
  unfold plain, clean_text. rewrite !andb_true_iff. tauto.
Qed.

Lemma csv_field_plain (x : str) : plain x = true -> csv_field x = x.
Proof.
  intros Hp. apply plain_parts in Hp. destruct Hp as [_ [Hc [Hn Hq]]].
  unfold csv_field.
  assert (E : needs_quoting x = false); [|now rewrite E].
  unfold needs_quoting. apply not_true_is_false. intros H.
  apply existsb_exists in H. destruct H as [c [Hin Hc']].
  rewrite !orb_true_iff in Hc'.
  rewrite free_of_In in Hc, Hn, Hq.
  destruct Hc' as [[E|E]|E]; apply Ascii.eqb_eq in E; subst; contradiction.
Qed.

Lemma startswith_In (c : ascii) (l : str) :
  startswith c l = true -> In c l.
Proof.
  destruct l as [|x l]; simpl; [discriminate|].
  intros E. apply Ascii.eqb_eq in E. now left.
Qed.

Lemma unquote_free (l : str) : free_of dquote l = true -> unquote l = l.
Proof.
  intros Hq. unfold unquote.
  destruct (startswith dquote l) eqn:E; trivial.
  apply startswith_In in E. apply free_of_In in Hq. contradiction.
Qed.

Lemma solid_not_nil (l : str) : starts_solid l = true -> l <> [].
Proof. destruct l; [discriminate | discriminate]. Qed.

Lemma ends_solid_app (a b : str) :
  b <> [] -> ends_solid (a ++ b) = ends_solid b.
Proof.
  intros Hb. unfold ends_solid. rewrite rev_app_distr.
  apply starts_solid_app. intros E. apply Hb.
  rewrite <- (rev_involutive b), E. reflexivity.
Qed.

Lemma trimmed_solid_parts (x : str) :
  trimmed x = true -> x <> [] ->
  starts_solid x = true /\ ends_solid x = true.
Proof.
  destruct x as [|c x]; [congruence|].
  unfold trimmed. rewrite andb_true_iff. tauto.
Qed.

(** A line of trimmed fields is empty or has solid ends. *)
Lemma join_comma_solid (T : list str) :
  Forall (fun x => trimmed x = true) T -> T <> [] ->
  join comma T = [] \/
  (starts_solid (join comma T) = true /\ ends_solid (join comma T) = true).
Proof.
  induction T as [|x T IH]; intros Hf Hne; [congruence|].
  inversion Hf as [|? ? Hx HT]; subst.
  destruct T as [|y T].
  - simpl. destruct x as [|c x]; [now left|]. right.
    apply trimmed_solid_parts; [assumption | discriminate].
  - right.
    change (join comma (x :: y :: T))
      with (x ++ comma :: join comma (y :: T)).
    split.
    + destruct x as [|c x]; [reflexivity|].
      rewrite starts_solid_app by discriminate.
      apply trimmed_solid_parts; [assumption | discriminate].
    + destruct (IH HT) as [E|[_ He]]; [discriminate| |].
      * rewrite E. rewrite ends_solid_app by discriminate. reflexivity.
      * change (x ++ comma :: join comma (y :: T))
          with (x ++ [comma] ++ join comma (y :: T)).
        rewrite app_assoc, ends_solid_app; trivial.
        intros E. rewrite E in He. discriminate.
Qed.

Lemma join_nil (sep : ascii) (T : list str) :
  join sep T = [] -> T = [] \/ T = [[]].
Proof.
  destruct T as [|x [|y T]]; simpl; auto.
  - intros ->. auto.
  - intros E. apply app_eq_nil in E. destruct E as [_ E]. discriminate.
Qed.

(** A record of plain texts is written without quoting, on a line of its
    own that reads back as the same fields. *)
Lemma record_reads_back (T : list str) :
  T <> [] -> Forall (fun x => plain x = true) T ->
  fields_of (csv_record T) = T /\
  free_of newline (csv_record T) = true /\
  starts_solid (csv_record T) = true /\
  ends_solid (csv_record T) = true.
Proof.
  intros Hne Hp.
  assert (Hparts : Forall (fun x => trimmed x = true /\
                     free_of comma x = true /\ free_of newline x = true /\
                     free_of dquote x = true) T).
  { revert Hp. apply Forall_impl. intros x. apply plain_parts. }
  assert (Hmap : map csv_field T = T).
  { rewrite <- (map_id T) at 2. apply map_ext_in. intros x Hx.
    rewrite Forall_forall in Hp. now apply csv_field_plain, Hp. }
  assert (Hrec : T = [[]] /\ csv_record T = [dquote; dquote] \/
                 T <> [[]] /\ csv_record T = join comma T).
  { unfold csv_record. rewrite Hmap.
    destruct T as [|[|c x] [|y T]]; try (right; split;
      [discriminate | reflexivity]).
    now left. }
  destruct Hrec as [[-> ->]|[Hne1 ->]].
  - repeat split.
  - assert (Htrim : Forall (fun x => trimmed x = true) T).
    { revert Hparts. apply Forall_impl. tauto. }
    destruct (join_comma_solid T Htrim Hne) as [E|[Hs He]].
    { apply join_nil in E. tauto. }
    assert (Hq : free_of dquote (join comma T) = true).
    { apply join_free; [discriminate|].
      revert Hparts. apply Forall_impl. tauto. }
    assert (Hn : free_of newline (join comma T) = true).
    { apply join_free; [discriminate|].
      revert Hparts. apply Forall_impl. tauto. }
    repeat split; trivial.
    unfold fields_of.
    rewrite trimmed_strip by now apply trimmed_solid.
    rewrite unquote_free by assumption.
    apply split_join; trivial.
    revert Hparts. apply Forall_impl. tauto.
Qed.

Lemma flat_map_lines (recs : list str) :
  recs <> [] ->
  flat_map (fun r => r ++ [newline]) recs = join newline recs ++ [newline].
Proof.
  induction recs as [|r recs IH]; intros Hne; [congruence|].
  destruct recs as [|r' recs]; [simpl; apply app_nil_r|].
  change (flat_map (fun r0 => r0 ++ [newline]) (r :: r' :: recs))
    with ((r ++ [newline])
          ++ flat_map (fun r0 => r0 ++ [newline]) (r' :: recs)).
  rewrite IH by discriminate.
  change (join newline (r :: r' :: recs))
    with (r ++ newline :: join newline (r' :: recs)).
  now rewrite <- !app_assoc.
Qed.

Lemma join_lines_solid (recs : list str) :
  recs <> [] ->
  Forall (fun r => starts_solid r = true /\ ends_solid r = true) recs ->
  starts_solid (join newline recs) = true /\
  ends_solid (join newline recs) = true.
Proof.
  induction recs as [|r recs IH]; intros Hne Hf; [congruence|].
  inversion Hf as [|? ? [Hs He] Hrest]; subst.
  destruct recs as [|r' recs]; [now split|].
  change (join newline (r :: r' :: recs))
    with (r ++ newline :: join newline (r' :: recs)).
  destruct (IH ltac:(discriminate) Hrest) as [Hs' He'].
  split.
  - rewrite starts_solid_app; [assumption | now apply solid_not_nil].
  - change (r ++ newline :: join newline (r' :: recs))
      with (r ++ [newline] ++ join newline (r' :: recs)).
    rewrite app_assoc, ends_solid_app; trivial.
    now apply solid_not_nil.
Qed.

(** [strip] removes the final newline of the export and nothing else. *)
Lemma strip_export (x : str) :
  starts_solid x = true -> ends_solid x = true ->
  strip (x ++ [newline]) = x.
Proof.
  intros Hs He. unfold strip.
  rewrite lstrip_solid.
  2:{ rewrite starts_solid_app; [assumption | now apply solid_not_nil]. }
  unfold rstrip. rewrite rev_app_distr. simpl.
  unfold ends_solid in He. rewrite (lstrip_solid _ He).
  apply rev_involutive.
Qed.

Lemma cell_text_plain (col : str) (c : cell num) :
  cell_shape col c = true -> cell_free_of dquote c = true ->
  plain (cell_text num_repr c) = true.
Proof.
  destruct c as [|x|v]; simpl; intros Hs Hq.
  - reflexivity.
  - rewrite !andb_true_iff in Hs. destruct Hs as [[_ _] Hc].
    unfold plain. now rewrite Hc, Hq.
  - apply Hprints.
Qed.

Lemma row_texts_plain (cols : list str) (r : list (cell num)) :
  row_shape cols r = true -> forallb (cell_free_of dquote) r = true ->
  Forall (fun x => plain x = true) (map (cell_text num_repr) r) /\
  length (map (cell_text num_repr) r) = length cols.
Proof.
  revert r. induction cols as [|col cols IH]; intros [|c r]; simpl;
    try discriminate.
  - intros _ _. split; [constructor | reflexivity].
  - rewrite !andb_true_iff. intros [Hc Hr] [Hq Hqs].
    destruct (IH r Hr Hqs) as [Hp Hl]. split.
    + constructor; [eapply cell_text_plain; eassumption | assumption].
    + now rewrite Hl.
Qed.

(** Stripped or not, a trimmed text is kept as it is. *)
Lemma clean_cell_trimmed (x : str) :
  trimmed x = true ->
  clean_cell num object_dtype x
  = match x with [] => NA | _ => Str x end.
Proof.
  intros Ht. unfold clean_cell.
  destruct object_dtype; [now rewrite (trimmed_strip _ Ht) | reflexivity].
Qed.

(** Typing the text of a cell gives the cell back. *)
Lemma type_cell_back (col : str) (c : cell num) :
  cell_shape col c = true ->
  type_cell to_numeric object_dtype col (cell_text num_repr c) = c.
Proof.
  destruct c as [|x|v]; simpl; intros Hs; unfold type_cell.
  - rewrite clean_cell_trimmed by reflexivity.
    now destruct (str_eqb col MonthlyCostUSD).
  - rewrite !andb_true_iff in Hs. destruct Hs as [[Hcol Hx] Hc].
    apply negb_true_iff in Hcol. rewrite Hcol.
    unfold clean_text in Hc. rewrite !andb_true_iff in Hc.
    destruct Hc as [[Ht _] _]. rewrite (clean_cell_trimmed _ Ht).
    destruct x; [discriminate | reflexivity].
  - rewrite Hs. destruct (Hprints v) as [Hp Hn].
    apply plain_parts in Hp. destruct Hp as [Ht _].
    rewrite (clean_cell_trimmed _ Ht).
    destruct (num_repr v) eqn:E; [discriminate|].
    simpl. rewrite <- E. now rewrite Hreads.
Qed.

Lemma type_row_back (cols : list str) (r : list (cell num)) :
  row_shape cols r = true ->
  type_row to_numeric object_dtype cols (map (cell_text num_repr) r) = r.
Proof.
  revert r. induction cols as [|col cols IH]; intros [|c r]; simpl;
    try discriminate; trivial.
  rewrite andb_true_iff. intros [Hc Hr].
  now rewrite type_cell_back, IH.
Qed.

Lemma repair_same_width (N : nat) (fields : list str) :
  length fields = N -> repair N fields = fields.
Proof.
  intros <-. rewrite repair_eq. now rewrite Nat.ltb_irrefl.
Qed.

Lemma flat_map_after_map {A B C} (g : A -> B) (f : B -> list C)
  (l : list A) :
  flat_map f (map g l) = flat_map (fun x => f (g x)) l.
Proof.
  induction l as [|x l IH]; simpl; trivial. now rewrite IH.
Qed.

Lemma export_records_plain (df : DataFrame num) :
  loaded_shape df -> quote_free df = true ->
  Forall (fun T => length T = length (columns df) /\
                   Forall (fun x => plain x = true) T)
         (export_records num_repr df).
Proof.
  intros [Hne [_ [Hclean [_ Hrows]]]] Hq.
  unfold quote_free in Hq. apply andb_true_iff in Hq.
  destruct Hq as [Hqc Hqr]. rewrite forallb_forall in Hqc, Hqr.
  constructor.
  - split; trivial. apply Forall_forall. intros h Hh.
    rewrite Forall_forall in Hclean. unfold plain.
    now rewrite (Hclean h Hh), (Hqc h Hh).
  - apply Forall_map, Forall_forall. intros r Hr.
    rewrite Forall_forall in Hrows.
    destruct (row_texts_plain (columns df) (snd r) (Hrows r Hr) (Hqr r Hr)).
    now split.
Qed.

(** The lines of the exported text are the written records. *)
Lemma export_lines (df : DataFrame num) :
  loaded_shape df -> quote_free df = true ->
  lines_of (to_csv num_repr df) = map csv_record (export_records num_repr df).
Proof.
  intros Hshape Hq.
  pose proof (export_records_plain df Hshape Hq) as Hp.
  assert (Hne : columns df <> []) by apply Hshape.
  assert (Hrec : Forall (fun rec => free_of newline rec = true /\
                           starts_solid rec = true /\
                           ends_solid rec = true)
                        (map csv_record (export_records num_repr df))).
  { apply Forall_map. revert Hp. apply Forall_impl. intros T [Hl HT].
    assert (HT0 : T <> []).
    { intros ->. simpl in Hl. destruct (columns df); [congruence|].
      discriminate. }
    destruct (record_reads_back T HT0 HT) as [_ H]. exact H. }
  unfold lines_of, to_csv.
  rewrite <- (flat_map_after_map csv_record (fun r => r ++ [newline])).
  rewrite flat_map_lines by discriminate.
  destruct (join_lines_solid (map csv_record (export_records num_repr df)))
    as [Hs He]; [discriminate | |].
  { revert Hrec. apply Forall_impl. tauto. }
  rewrite strip_export by assumption.
  apply split_join; [discriminate|].
  revert Hrec. apply Forall_impl. tauto.
Qed.


End RoundTrip.

(** *** The decimal reading *)

Section DecimalReading.

Lemma token_plain (x : str) : forallb token_char x = true -> plain x = true.
Proof.
  intros H. rewrite forallb_forall in H.
  assert (Hfree : forall c, token_char c = false -> free_of c x = true).
  { intros c Hc. apply free_of_In. intros Hin. rewrite (H c Hin) in Hc.
    discriminate. }
  unfold plain, clean_text.
  rewrite (Hfree comma), (Hfree newline), (Hfree dquote) by reflexivity.
  rewrite !andb_true_r.
  destruct x as [|c x]; [reflexivity|].
  assert (Hsolid : forall y : str, y <> [] ->
            (forall a, In a y -> token_char a = true) ->
            starts_solid y = true).
  { intros [|a y] Hy Ha; [congruence|]. simpl.
    specialize (Ha a (or_introl eq_refl)). unfold token_char in Ha.
    rewrite !andb_true_iff in Ha. tauto. }
  apply trimmed_solid.
  - apply Hsolid; [discriminate | exact H].
  - unfold ends_solid. apply Hsolid.
    + intros E. apply (f_equal (@rev ascii)) in E.
      rewrite rev_involutive in E. discriminate.
    + intros a Ha. apply H. now apply in_rev.
Qed.

Lemma uint_text_tokens (d : Decimal.uint) :
  forallb token_char (list_ascii_of_string (NilEmpty.string_of_uint d))
  = true.
Proof. induction d; simpl; trivial. Qed.

Lemma int_text_tokens (d : Decimal.signed_int) :
  forallb token_char (list_ascii_of_string (NilZero.string_of_int d)) = true.
Proof.
  assert (H : forall u, forallb token_char
                (list_ascii_of_string (NilZero.string_of_uint u)) = true).
  { intros u. destruct u; try apply uint_text_tokens. reflexivity. }
  destruct d; simpl; auto.
Qed.

Lemma int_text_nonempty (d : Decimal.signed_int) :
  nonempty (list_ascii_of_string (NilZero.string_of_int d)) = true.
Proof. destruct d as [u|u]; [destruct u|]; reflexivity. Qed.

Lemma decimal_prints_plain : prints_plain Decimal.num_repr.
Proof.
  intros z. unfold Decimal.num_repr. split.
  - apply token_plain, int_text_tokens.
  - apply int_text_nonempty.
Qed.

Lemma decimal_reads_back : reads_back Decimal.to_numeric Decimal.num_repr.
Proof.
  intros z. unfold Decimal.to_numeric, Decimal.num_repr.
  rewrite string_of_list_ascii_of_string.
  rewrite NilZero.isi.
  - simpl. now rewrite DecimalZ.of_to.
  - destruct z; simpl; try discriminate.
    intros [= E]. revert E. apply DecimalPos.Unsigned.to_uint_nonnil.
  - destruct z; simpl; try discriminate.
    intros [= E]. revert E. apply DecimalPos.Unsigned.to_uint_nonnil.
Qed.

End DecimalReading.


(** Where the text columns are not stripped, white space at the end of a
    cell does not survive either: the fourth field of the long line is
    loaded with its final space, exported with it at the end of its line,
    and loaded back without it. *)
Lemma final_space_does_not_round_trip :
  load_data Decimal.to_numeric false spaced_tag_file
    = Some spaced_tag_table /\
  quote_free spaced_tag_table = true /\
  trimmed_cells spaced_tag_table = false /\
  load_data Decimal.to_numeric false
    (to_csv Decimal.num_repr spaced_tag_table)
    <> Some spaced_tag_table.
Proof.
  split; [reflexivity|]. split; [reflexivity|]. split; [reflexivity|].
  vm_compute. discriminate.
Qed.


Lemma filter_is_conjunction_witness :
  let sel := mkSel (s "EC2") All All All No in
  apply_filters sel two_resources
  = Some (mkEnv two_resources (filter_spec sel two_resources)) /\
  subseq (rows (filter_spec sel two_resources)) (rows two_resources) /\
  columns (filter_spec sel two_resources) = columns two_resources /\
  (forall r, In r (rows (filter_spec sel two_resources)) <->
             In r (rows two_resources) /\
             satisfies sel (columns two_resources) (snd r) = true) /\
  (sel = mkSel All All All All All ->
   filter_spec sel two_resources = two_resources).
Proof.
  apply (filter_is_conjunction Q (mkSel (s "EC2") All All All No)
           two_resources).
  - reflexivity.
  - reflexivity.
Defined.

(** * Further properties of the loader *)

Section LoaderMore.

Variable num : Type.
Variable to_numeric : str -> option num.
Variable object_dtype : bool.

Lemma lstrip_pad (w l : str) :
  forallb isspace w = true -> lstrip (w ++ l) = lstrip l.
Proof.
  induction w as [|c w IH]; simpl; trivial.
  rewrite andb_true_iff. intros [Hc Hw]. rewrite Hc. auto.
Qed.

Lemma rstrip_pad (l w : str) :
  forallb isspace w = true -> rstrip (l ++ w) = rstrip l.
Proof.
  intros Hw. unfold rstrip. rewrite rev_app_distr, lstrip_pad; trivial.
  rewrite forallb_forall in *. intros c Hc. apply Hw. now apply in_rev.
Qed.

Lemma lstrip_spaces (w : str) : forallb isspace w = true -> lstrip w = [].
Proof.
  intros Hw. rewrite <- (app_nil_r w). now rewrite lstrip_pad.
Qed.

(** White space around a string is of no consequence to [strip]. *)
Lemma strip_pad (w1 l w2 : str) :
  forallb isspace w1 = true -> forallb isspace w2 = true ->
  strip (w1 ++ l ++ w2) = strip l.
Proof.
  intros H1 H2. unfold strip. rewrite lstrip_pad by assumption.
  induction l as [|c l IH]; simpl.
  - now rewrite lstrip_spaces.
  - destruct (isspace c); [exact IH|].
    change (c :: l ++ w2) with ((c :: l) ++ w2). now apply rstrip_pad.
Qed.

(** X1. The loader gives no table in two cases only: the bytes of the
    file do not decode, or the header line repeats a column label.  No data
    line, short, long or empty, makes it fail. *)
Theorem load_fails_only_on_repeated_label (decoded : option str) :
  load_data_file to_numeric object_dtype decoded = None <->
  decoded = None \/
  exists content, decoded = Some content /\ ~ NoDup (headers_of content).
Proof.
  destruct decoded as [content|]; simpl.
  2:{ split; [now left | reflexivity]. }
  destruct (distinct (headers_of content)) eqn:Hd.
  - rewrite load_data_some by assumption. split; [discriminate|].
    intros [H|[c [[= <-] H]]]; [discriminate|].
    contradiction H. now apply distinct_NoDup.
  - rewrite load_data_none by assumption. split; [|reflexivity].
    intros _. right. exists content. split; [reflexivity|].
    intros H. apply distinct_NoDup in H. congruence.
Qed.

(** X2. A loaded table has the stripped header fields for columns and one
    row per line after the header, in the order of the file: the row at
    position [i] is labelled [i] and holds the typed form of the repaired
    fields of the [i]-th line after the header.  The labels are
    0, 1, 2, ..., and every row has one cell per column. *)
Theorem loaded_table_layout (content : str) (df : DataFrame num) :
  load_data to_numeric object_dtype content = Some df ->
  columns df = headers_of content /\
  df_len df = length (tl (lines_of content)) /\
  index df = seq 0 (df_len df) /\
  Forall (fun r => length (snd r) = length (columns df)) (rows df) /\
  forall i line,
    nth_error (tl (lines_of content)) i = Some line ->
    nth_error (rows df) i
    = Some (i, type_row to_numeric object_dtype (columns df)
                 (repair (length (columns df)) (fields_of line))).
Proof.
  intros Hload.
  pose proof (load_data_well_formed num to_numeric object_dtype content df
                Hload) as [_ [_ Hrect]].
  destruct (distinct (headers_of content)) eqn:Hd.
  2:{ rewrite load_data_none in Hload by assumption. discriminate. }
  rewrite load_data_some in Hload by assumption.
  injection Hload as <-. unfold df_len, index in *. simpl in *.
  assert (Hn : length (enumerate_from 0
                  (map (type_row to_numeric object_dtype
                          (headers_of content))
                       (data_rows_of content)))
               = length (tl (lines_of content))).
  { rewrite <- (length_map fst), index_enumerate_from, length_seq.
    now rewrite length_map, data_rows_of_map, length_map. }
  split; [reflexivity|]. split; [exact Hn|]. split; [|split; [exact Hrect|]].
  - rewrite index_enumerate_from. f_equal.
    now rewrite <- (length_map fst), index_enumerate_from, length_seq.
  - intros i line Hline.
    rewrite nth_error_enumerate_from, nth_error_map, data_rows_of_map,
      nth_error_map, Hline. reflexivity.
Qed.

(** X3. In a loaded table no cell is an empty string: a string cell is
    non-empty, has no comma and no newline, and is never in the cost
    column; a number is in the cost column only.  Where the loader strips
    the text columns, a string cell has no white space at either end. *)
Theorem loaded_cells (content : str) (df : DataFrame num)
  (r : nat * list (cell num)) (col : str) (c : cell num) :
  load_data to_numeric object_dtype content = Some df ->
  In r (rows df) ->
  row_get (columns df) (snd r) col = Some c ->
  (forall x, c = Str x ->
     col <> MonthlyCostUSD /\ x <> [] /\
     ~ In comma x /\ ~ In newline x /\
     (object_dtype = true -> strip x = x)) /\
  (forall v, c = Num v -> col = MonthlyCostUSD).
Proof.
  intros Hload Hr Hget.
  destruct (load_data_rows num to_numeric object_dtype content df r Hload Hr)
    as [fields [Hlen [Hfree E]]].
  unfold row_get in Hget.
  destruct (col_pos (columns df) col) as [p|] eqn:Hp; [|discriminate].
  apply col_pos_nth in Hp.
  destruct (type_row_nth num to_numeric object_dtype _ _ _ _ Hlen Hp)
    as [x0 [Hx0 Hcell]].
  rewrite E, Hcell in Hget. injection Hget as <-.
  rewrite Forall_forall in Hfree.
  destruct (Hfree x0 (nth_error_In _ _ Hx0)) as [Hc Hn].
  pose proof (type_cell_kind num to_numeric object_dtype col x0 Hc Hn) as Hk.
  destruct (type_cell to_numeric object_dtype col x0) as [|y|w].
  - split; intros ? [=].
  - destruct Hk as [Hcol [Hne [Hcy [Hny Hty]]]]. split; [|intros ? [=]].
    intros x [= <-].
    split; [now apply str_eqb_neq|]. split; [exact Hne|].
    split; [now apply free_of_In|]. split; [now apply free_of_In|].
    intros Eo. apply trimmed_strip. auto.
  - split; [intros ? [=]|]. intros v _. now apply str_eqb_eq.
Qed.

(** Where the text columns are not stripped, a cell can keep white space
    at its ends. *)
Lemma unstripped_cell_keeps_space :
  load_data Decimal.to_numeric false spaced_tag_file = Some spaced_tag_table.
Proof. reflexivity. Qed.

(** X4. A data line with at least as many fields as the header has columns
    contributes its first N fields: the fields beyond the header's width are
    dropped without notice. *)
Theorem long_row_truncated (content : str) (i : nat) (line : str) :
  nth_error (tl (lines_of content)) i = Some line ->
  length (headers_of content) <= length (fields_of line) ->
  nth_error (data_rows_of content) i
  = Some (firstn (length (headers_of content)) (fields_of line)).
Proof.
  intros Hline Hlen.
  rewrite data_rows_of_map, nth_error_map, Hline. simpl. f_equal.
  rewrite repair_eq.
  destruct (Nat.ltb_spec (length (fields_of line))
              (length (headers_of content))); [lia|].
  destruct (Nat.ltb_spec (length (headers_of content))
              (length (fields_of line))); trivial.
  symmetry. apply firstn_all2. lia.
Qed.

Lemma repeat_snoc {A} (x : A) (n : nat) :
  repeat x n ++ [x] = repeat x (S n).
Proof. induction n as [|n IH]; simpl; trivial. now rewrite IH. Qed.

Lemma type_row_blank (cols : list str) :
  type_row to_numeric object_dtype cols (repeat [] (length cols))
  = repeat NA (length cols).
Proof.
  induction cols as [|col cols IH]; simpl; trivial.
  rewrite IH. f_equal. unfold type_cell, clean_cell.
  destruct object_dtype; simpl; now destruct (str_eqb col MonthlyCostUSD).
Qed.

(** X5. A line after the header that is empty or made of white space gives
    a row of missing values only. *)
Theorem blank_line_gives_missing_row (content : str) (i : nat) (line : str)
  (df : DataFrame num) :
  load_data to_numeric object_dtype content = Some df ->
  nth_error (tl (lines_of content)) i = Some line ->
  forallb isspace line = true ->
  nth_error (rows df) i = Some (i, repeat NA (length (columns df))).
Proof.
  intros Hload Hline Hsp.
  destruct (distinct (headers_of content)) eqn:Hd.
  2:{ rewrite load_data_none in Hload by assumption. discriminate. }
  rewrite load_data_some in Hload by assumption.
  injection Hload as <-. simpl.
  rewrite nth_error_enumerate_from, nth_error_map, data_rows_of_map,
    nth_error_map, Hline. simpl. f_equal. f_equal.
  assert (Hf : fields_of line = [[]]).
  { unfold fields_of, strip. now rewrite (lstrip_spaces _ Hsp). }
  rewrite Hf, <- type_row_blank. f_equal.
  rewrite repair_eq. simpl length.
  pose proof (headers_not_nil content) as Hne.
  destruct (headers_of content) as [|h hs] eqn:Hh; [congruence|].
  simpl length. destruct hs as [|h' hs]; [reflexivity|].
  simpl length. replace (1 <? S (S (length hs))) with true
    by (symmetry; apply Nat.ltb_lt; lia).
  simpl. f_equal. f_equal. now rewrite repeat_snoc.
Qed.

(** X6. White space around a line and one pair of double quotes around it
    are ignored: the fields are those of the text between the quotes. *)
Theorem wrapped_line_fields (w1 l w2 : str) :
  forallb isspace w1 = true -> forallb isspace w2 = true ->
  fields_of (w1 ++ (dquote :: l ++ [dquote]) ++ w2) = split comma l.
Proof.
  intros H1 H2. unfold fields_of. rewrite strip_pad by assumption.
  assert (Hs : strip (dquote :: l ++ [dquote]) = dquote :: l ++ [dquote]).
  { apply trimmed_strip, trimmed_solid; [reflexivity|].
    unfold ends_solid. change (dquote :: l ++ [dquote])
      with ((dquote :: l) ++ [dquote]).
    now rewrite rev_app_distr. }
  rewrite Hs. unfold unquote.
  assert (He : endswith dquote (dquote :: l ++ [dquote]) = true).
  { unfold endswith. change (dquote :: l ++ [dquote])
      with ((dquote :: l) ++ [dquote]).
    now rewrite rev_app_distr. }
  rewrite He. simpl startswith. cbn [andb]. f_equal.
  unfold slice. change (-1)%Z with (- Z.of_nat 1)%Z.
  rewrite slice_bound_neg by lia.
  change 1%Z with (Z.of_nat 1). rewrite slice_bound_nat.
  simpl length. rewrite length_app. simpl length.
  rewrite Nat.min_r by lia. simpl skipn.
  replace (S (length l + 1) - 1 - 1) with (length l) by lia.
  rewrite firstn_app, firstn_all, Nat.sub_diag. simpl. apply app_nil_r.
Qed.

(** X7. White space before and after the content of a file, a final
    newline in particular, changes nothing to what is loaded. *)
Theorem surrounding_space_ignored (w1 content w2 : str) :
  forallb isspace w1 = true -> forallb isspace w2 = true ->
  load_data to_numeric object_dtype (w1 ++ content ++ w2)
  = load_data to_numeric object_dtype content.
Proof.
  intros H1 H2.
  assert (Hl : lines_of (w1 ++ content ++ w2) = lines_of content).
  { unfold lines_of. now rewrite strip_pad. }
  unfold load_data, headers_of, data_rows_of, headers_of. now rewrite Hl.
Qed.

End LoaderMore.

(** * Further properties of the filters *)

Section FilterMore.

Variable num : Type.

(** The block, run on a table that has the columns it indexes. *)
Lemma apply_filters_runs (sel : Selection) (df : DataFrame num) :
  (selected_service sel <> All ->
   has_column (columns df) Service = true) ->
  (selected_tagged sel <> All ->
   has_column (columns df) Tagged = true) ->
  apply_filters sel df = Some (mkEnv df (filter_spec sel df)).
Proof.
  intros HS HT. destruct df as [cols rs]. simpl in *.
  unfold apply_filters, filter_step, filter_spec. simpl.
  rewrite <- (filter_true (fun _ => true) rs) at 2 by reflexivity.
  rewrite (narrow_holds num false cols Service) by auto. simpl.
  rewrite (narrow_holds num true cols Region) by discriminate. simpl.
  rewrite (narrow_holds num true cols Department) by discriminate. simpl.
  rewrite (narrow_holds num true cols Environment) by discriminate. simpl.
  rewrite (narrow_holds num false cols Tagged) by auto. simpl.
  reflexivity.
Qed.

Lemma No_not_All : No <> All.
Proof. intros E. vm_compute in E. discriminate. Qed.

(** The table of the editor, as one filter. *)
Lemma untagged_view_runs (sel : Selection) (d : DataFrame num) :
  has_column (columns d) Tagged = true ->
  (selected_service sel <> All ->
   has_column (columns d) Service = true) ->
  untagged_view sel d
  = Some (filter_spec
            (mkSel (selected_service sel) (selected_region sel)
                   (selected_department sel) (selected_environment sel) No)
            d).
Proof.
  intros HT HS. destruct d as [cols rs]. simpl in *.
  pose proof HT as HT'. apply has_column_col_pos in HT'.
  destruct HT' as [p Hp].
  unfold untagged_view, select_eq. simpl. rewrite Hp. cbn [bind].
  rewrite (narrow_holds num false cols Service) by auto. cbn [bind columns].
  rewrite (narrow_holds num true cols Region) by discriminate.
  cbn [bind columns].
  rewrite (narrow_holds num true cols Department) by discriminate.
  cbn [bind columns].
  rewrite (narrow_holds num true cols Environment) by discriminate.
  unfold filter_spec, satisfies. simpl. f_equal. f_equal.
  apply filter_ext. intros r.
  assert (Hno : holds false cols Tagged No (snd r)
                = cell_is No (cell_at_pos p (snd r))).
  { unfold holds, active, matches. rewrite Hp.
    now rewrite (proj2 (str_eqb_neq No All) No_not_All). }
  rewrite Hno.
  destruct (cell_is No (cell_at_pos p (snd r))),
    (holds false cols Service (selected_service sel) (snd r)),
    (holds true cols Region (selected_region sel) (snd r)),
    (holds true cols Department (selected_department sel) (snd r)),
    (holds true cols Environment (selected_environment sel) (snd r));
    reflexivity.
Qed.

(** X8. The table handed to the editor on the remediation page is what the
    sidebar block gives on [df_edited] with its tag status set to ['No']:
    the same rows in the same order, whatever the other four selections. *)
Theorem editor_table_is_filtered_no (sel : Selection) (d : DataFrame num) :
  has_column (columns d) Tagged = true ->
  (selected_service sel <> All ->
   has_column (columns d) Service = true) ->
  let sel_no := mkSel (selected_service sel) (selected_region sel)
                  (selected_department sel) (selected_environment sel) No in
  untagged_view sel d
  = option_map (@env_filtered_df num) (apply_filters sel_no d).
Proof.
  intros HT HS sel_no.
  rewrite untagged_view_runs by assumption.
  rewrite apply_filters_runs; [reflexivity | exact HS | intros _; exact HT].
Qed.

Lemma filter_spec_twice (sel1 sel2 : Selection) (df : DataFrame num) :
  filter_spec sel2 (filter_spec sel1 df)
  = mkDF (columns df)
      (filter (fun r => satisfies sel1 (columns df) (snd r)
                        && satisfies sel2 (columns df) (snd r)) (rows df)).
Proof. unfold filter_spec. simpl. now rewrite filter_twice. Qed.

(** X9. Filtering a filtered table keeps the rows that satisfy both
    selections; the order of the two selections does not matter, and
    filtering again with the same selection changes nothing. *)
Theorem filters_compose (sel1 sel2 : Selection) (df : DataFrame num) :
  (selected_service sel2 <> All ->
   has_column (columns df) Service = true) ->
  (selected_tagged sel2 <> All ->
   has_column (columns df) Tagged = true) ->
  apply_filters sel2 (filter_spec sel1 df)
  = Some (mkEnv (filter_spec sel1 df)
            (mkDF (columns df)
               (filter (fun r => satisfies sel1 (columns df) (snd r)
                                 && satisfies sel2 (columns df) (snd r))
                       (rows df)))) /\
  filter_spec sel2 (filter_spec sel1 df)
  = filter_spec sel1 (filter_spec sel2 df) /\
  filter_spec sel2 (filter_spec sel2 df) = filter_spec sel2 df.
Proof.
  intros HS HT. split; [|split].
  - rewrite apply_filters_runs by assumption.
    now rewrite filter_spec_twice.
  - rewrite !filter_spec_twice. f_equal. apply filter_ext.
    intros r. apply andb_comm.
  - rewrite filter_spec_twice. unfold filter_spec. f_equal.
    apply filter_ext. intros r. apply andb_diag.
Qed.

Lemma missing_columns_nil (df : DataFrame num) :
  missing_columns df = [] ->
  has_column (columns df) (s "ResourceID") = true /\
  has_column (columns df) Service = true /\
  has_column (columns df) MonthlyCostUSD = true /\
  has_column (columns df) Tagged = true.
Proof.
  intros Hm.
  assert (H : forall col, In col required_columns ->
                          has_column (columns df) col = true).
  { intros col Hin. destruct (has_column (columns df) col) eqn:E; trivial.
    assert (Hf : In col (missing_columns df)).
    { apply filter_In. split; [exact Hin | now rewrite E]. }
    rewrite Hm in Hf. contradiction. }
  unfold required_columns in H. simpl in H. repeat split; apply H; tauto.
Qed.

(** X10. When the required-columns check has passed and the sidebar lists
    have been built, so that the run reaches the filter block, the block and
    the editor's table are computed without a missing-column error for
    every selection, and what they return has the columns of the table, so
    it passes the check as well. *)
Theorem required_columns_suffice (num_compare : num -> num -> comparison)
  (sel : Selection) (df : DataFrame num) (lists : SidebarLists num) :
  missing_columns df = [] ->
  sidebar num_compare df = Some lists ->
  exists filtered_df untagged_df,
    apply_filters sel df = Some (mkEnv df filtered_df) /\
    untagged_view sel df = Some untagged_df /\
    columns filtered_df = columns df /\
    columns untagged_df = columns df /\
    missing_columns filtered_df = [] /\
    missing_columns untagged_df = [].
Proof.
  intros Hm _. pose proof Hm as Hreq.
  apply missing_columns_nil in Hreq. destruct Hreq as [_ [HS [_ HT]]].
  eexists. eexists.
  split; [apply apply_filters_runs; auto|].
  split; [apply untagged_view_runs; auto|].
  repeat split; exact Hm.
Qed.

End FilterMore.

(** * Further properties of the aggregations *)

Section AggregationsMore.

Open Scope Q_scope.

Lemma str_eqb_sym (a b : str) : str_eqb a b = str_eqb b a.
Proof.
  destruct (str_eqb a b) eqn:E.
  - apply str_eqb_eq in E. subst. symmetry. apply str_eqb_refl.
  - apply str_eqb_neq in E. symmetry. apply str_eqb_neq. congruence.
Qed.

Lemma add_to_group_count (k k' : str) (g : list (str * nat)) :
  series_get (add_to_group Nat.add k 1%nat g) k' 0%nat
  = (series_get g k' 0 + (if str_eqb k k' then 1 else 0))%nat.
Proof.
  induction g as [|[ks x] g IH]; simpl.
  - rewrite (str_eqb_sym k' k). now destruct (str_eqb k k').
  - destruct (str_eqb k ks) eqn:E; simpl.
    + apply str_eqb_eq in E. subst ks. rewrite (str_eqb_sym k' k).
      destruct (str_eqb k k'); lia.
    + destruct (str_eqb k' ks) eqn:E'.
      * apply str_eqb_eq in E'. subst ks. rewrite E. lia.
      * exact IH.
Qed.

Lemma value_counts_group (k : nat) (v : str)
  (rs : list (nat * list (cell Q))) (g : list (str * nat)) :
  series_get
    (fold_left
       (fun g r =>
          match cell_at_pos k (snd r) with
          | Str x => add_to_group Nat.add x 1%nat g
          | _ => g
          end) rs g) v 0%nat
  = (series_get g v 0
     + length (filter (fun r => cell_is v (cell_at_pos k (snd r))) rs))%nat.
Proof.
  revert g. induction rs as [|r rs IH]; intros g; simpl.
  - lia.
  - rewrite IH. destruct (cell_at_pos k (snd r)) as [|x|x]; simpl;
      try reflexivity.
    rewrite add_to_group_count. destruct (str_eqb x v); simpl; lia.
Qed.

Lemma cell_is_at_pos (cols : list str) (p : nat) (v : str)
  (r : list (cell Q)) :
  col_pos cols Tagged = Some p ->
  cell_is v (cell_at_pos p r) = tagged_is v cols r.
Proof.
  intros Hp. unfold tagged_is, row_get, cell_at_pos. rewrite Hp.
  destruct (nth_error r p) as [c|] eqn:E.
  - now rewrite (nth_error_nth _ _ _ E).
  - rewrite nth_overflow by now apply nth_error_None. reflexivity.
Qed.

Lemma share_bounds (a b : nat) :
  (a <= b)%nat -> (0 < b)%nat ->
  0 <= inject_Z (Z.of_nat a) / inject_Z (Z.of_nat b) * 100 <= 100.
Proof.
  intros Hab Hb.
  assert (Hb' : 0 < inject_Z (Z.of_nat b)).
  { change 0 with (inject_Z 0). rewrite <- Zlt_Qlt. lia. }
  assert (H0 : 0 <= inject_Z (Z.of_nat a) / inject_Z (Z.of_nat b)).
  { apply Qle_shift_div_l; trivial. rewrite Qmult_0_l.
    change 0 with (inject_Z 0). rewrite <- Zle_Qle. lia. }
  assert (H1 : inject_Z (Z.of_nat a) / inject_Z (Z.of_nat b) <= 1).
  { apply Qle_shift_div_r; trivial. rewrite Qmult_1_l.
    rewrite <- Zle_Qle. lia. }
  split; lra.
Qed.

Lemma filter_length_le {A} (f : A -> bool) (l : list A) :
  (length (filter f l) <= length l)%nat.
Proof.
  induction l as [|x l IH]; simpl; trivial.
  destruct (f x); simpl; lia.
Qed.

(** The count [value_counts] holds for ['No'] is the number of ['No']
    rows. *)
Lemma untagged_of_count (v : frame) :
  has_column (columns v) Tagged = true ->
  untagged_of v = Some (untagged_count v).
Proof.
  intros HT. apply has_column_col_pos in HT. destruct HT as [k Hk].
  unfold untagged_of, value_counts, untagged_count. rewrite Hk. simpl.
  f_equal. rewrite value_counts_group. simpl. f_equal.
  apply filter_ext. intros r. unfold is_no.
  now apply cell_is_at_pos.
Qed.


(** X14. On a view with the [Tagged] column the tagged percentage of the
    overview and the untagged percentage of the exploration page are
    computed without error, the empty view included, and both lie between
    0 and 100. *)
Theorem tag_percentages (v : frame) :
  has_column (columns v) Tagged = true ->
  exists t u,
    tagged_pct v = Some t /\ untagged_pct v = Some u /\
    0 <= t <= 100 /\ 0 <= u <= 100 /\
    (df_len v = 0%nat -> t == 0 /\ u == 0).
Proof.
  intros HT. apply has_column_col_pos in HT. destruct HT as [k Hk].
  unfold tagged_pct, untagged_pct, value_counts. rewrite Hk. cbn [bind].
  rewrite !value_counts_group. simpl series_get. simpl Nat.add.
  set (y := length (filter (fun r => cell_is Yes (cell_at_pos k (snd r)))
                           (rows v))).
  set (n := length (filter (fun r => cell_is No (cell_at_pos k (snd r)))
                           (rows v))).
  assert (Hy : (y <= df_len v)%nat) by apply filter_length_le.
  assert (Hn : (n <= df_len v)%nat) by apply filter_length_le.
  destruct (Nat.ltb_spec 0 (df_len v)) as [Hlen|Hlen].
  - rewrite !checked_div_nonzero by now apply inject_nat_nonzero.
    simpl. do 2 eexists. split; [reflexivity|]. split; [reflexivity|].
    split; [now apply share_bounds|]. split; [now apply share_bounds|].
    intros H. lia.
  - simpl. exists 0, 0. repeat split; try lra; reflexivity.
Qed.

End AggregationsMore.

(** * The missing-value report and the completeness score *)

Section Reports.

Open Scope Q_scope.

(** Rounding a number between 0 and [M] stays between 0 and [M]. *)
Lemma round_half_even_bounds (q : Q) (M : Z) :
  0 <= q -> q <= inject_Z M ->
  (0 <= round_half_even q <= M)%Z.
Proof.
  intros H0 HM. unfold round_half_even.
  assert (Hf0 : (0 <= Qfloor q)%Z).
  { change 0%Z with (Qfloor (inject_Z 0)) at 1.
    apply Qfloor_resp_le. exact H0. }
  assert (HfM : (Qfloor q <= M)%Z).
  { rewrite <- (Qfloor_Z M). now apply Qfloor_resp_le. }
  assert (Hup : ~ q - inject_Z (Qfloor q) < 1 # 2 -> (Qfloor q + 1 <= M)%Z).
  { intros Hn. destruct (Z.eq_dec (Qfloor q) M) as [E|E]; [|lia].
    exfalso. apply Hn. rewrite E. lra. }
  destruct (Qcompare (q - inject_Z (Qfloor q)) (1 # 2)) eqn:E.
  - apply Qeq_alt in E.
    assert (Hle : (Qfloor q + 1 <= M)%Z) by (apply Hup; lra).
    destruct (Z.even (Qfloor q)); lia.
  - lia.
  - apply Qgt_alt in E.
    assert (Hle : (Qfloor q + 1 <= M)%Z) by (apply Hup; lra).
    lia.
Qed.

Lemma round2_bounds (x : Q) : 0 <= x <= 100 -> 0 <= round2 x <= 100.
Proof.
  intros [H0 H1]. unfold round2.
  destruct (round_half_even_bounds (x * 100) 10000) as [Hz0 Hz1].
  - lra.
  - change (inject_Z 10000) with (10000 # 1). lra.
  - set (z := round_half_even (x * 100)) in *.
    assert (Ha : inject_Z 0 <= inject_Z z) by (rewrite <- Zle_Qle; lia).
    assert (Hb : inject_Z z <= inject_Z 10000) by (rewrite <- Zle_Qle; lia).
    change (inject_Z 0) with 0 in Ha.
    change (inject_Z 10000) with (10000 # 1) in Hb.
    split.
    + apply Qle_shift_div_l; lra.
    + apply Qle_shift_div_r; lra.
Qed.

Lemma missing_rows_layout (df : frame) (cols : list str) (p : nat) :
  exists rep,
    missing_rows df p cols = Some rep /\
    map (fun e => fst (fst e)) rep = cols /\
    map (fun e => snd (fst e)) rep
    = map (missing_count df) (seq p (length cols)) /\
    Forall (fun e => (snd (fst e) <= df_len df)%nat /\ 0 <= snd e <= 100)
           rep.
Proof.
  revert p. induction cols as [|col cols IH]; intros p.
  - exists []. simpl. repeat split; constructor.
  - destruct (IH (S p)) as [rep [Hrep [Hl [Hc Hb]]]].
    assert (Hn : (missing_count df p <= df_len df)%nat)
      by apply filter_length_le.
    assert (Hpct : exists pct,
              (if (0 <? df_len df)%nat
               then option_map (fun x => round2 (x * 100))
                      (checked_div
                         (inject_Z (Z.of_nat (missing_count df p)))
                         (inject_Z (Z.of_nat (df_len df))))
               else Some 0) = Some pct /\ 0 <= pct <= 100).
    { destruct (Nat.ltb_spec 0 (df_len df)) as [Hlen|Hlen].
      - rewrite checked_div_nonzero by now apply inject_nat_nonzero.
        eexists. split; [reflexivity|].
        apply round2_bounds. now apply share_bounds.
      - exists 0. split; [reflexivity | lra]. }
    destruct Hpct as [pct [Hpct Hbound]].
    exists ((col, missing_count df p, pct) :: rep).
    cbn [missing_rows]. rewrite Hpct. cbn [bind]. rewrite Hrep.
    simpl. repeat split; try congruence; try lra.
    constructor; [|exact Hb]. simpl. split; [exact Hn | exact Hbound].
Qed.

(** X15. The missing-value report never fails.  It has one line per
    column, in the order of the columns, with the number of missing cells
    of that column, which is at most the number of rows, and a percentage
    between 0 and 100. *)
Theorem missing_report_layout (v : frame) :
  exists rep,
    missing_report v = Some rep /\
    map (fun e => fst (fst e)) rep = columns v /\
    map (fun e => snd (fst e)) rep
    = map (missing_count v) (seq 0 (length (columns v))) /\
    Forall (fun e => (snd (fst e) <= df_len v)%nat /\ 0 <= snd e <= 100)
           rep.
Proof. apply missing_rows_layout. Qed.

Close Scope Q_scope.

Variable num : Type.

Lemma filter_all {A} (f : A -> bool) (l : list A) :
  length (filter f l) = length l <-> forall x, In x l -> f x = true.
Proof.
  induction l as [|x l IH]; simpl.
  - split; [intros _ y [] | reflexivity].
  - destruct (f x) eqn:E; simpl.
    + split.
      * intros H y [<-|Hy]; trivial. apply IH; [lia | assumption].
      * intros H. f_equal. apply IH. auto.
    + split.
      * intros H. pose proof (filter_length_le f l). lia.
      * intros H. rewrite (H x) in E by now left. discriminate.
Qed.

Lemma has_field_existing (cols : list str) (r : list (cell num))
  (f : str) :
  In f tag_fields ->
  (has_field cols r f = true <->
   (In f (existing_tag_fields cols) -> filled cols r f = true)).
Proof.
  intros Hf. unfold has_field, existing_tag_fields. fold (filled cols r f).
  rewrite filter_In.
  destruct (has_column cols f).
  - split; [intros H _; exact H | intros H; apply H; now split].
  - split; [intros _ [_ E]; discriminate | reflexivity].
Qed.

(** X16. The completeness score of a row is at most the number of tag
    fields that are columns, itself at most five.  It is that number
    exactly when every tag field that is a column is filled in the row, and
    a row with the full score passes the auto-tag gate of the remediation
    page. *)
Theorem full_score_passes_gate (cols : list str) (r : list (cell num)) :
  completeness_score cols r <= length (existing_tag_fields cols) <= 5 /\
  (completeness_score cols r = length (existing_tag_fields cols) <->
   forall f, In f tag_fields -> has_field cols r f = true) /\
  (completeness_score cols r = length (existing_tag_fields cols) ->
   gate cols r = true).
Proof.
  assert (Hiff : completeness_score cols r
                 = length (existing_tag_fields cols) <->
                 forall f, In f tag_fields -> has_field cols r f = true).
  { unfold completeness_score. rewrite filter_all. split.
    - intros H f Hf. apply has_field_existing; auto.
    - intros H f Hf.
      assert (Hin : In f tag_fields).
      { unfold existing_tag_fields in Hf. apply filter_In in Hf. tauto. }
      exact (proj1 (has_field_existing cols r f Hin) (H f Hin) Hf). }
  split; [|split].
  - split; [apply filter_length_le|].
    unfold existing_tag_fields.
    apply (Nat.le_trans _ (length tag_fields)); [apply filter_length_le|].
    reflexivity.
  - exact Hiff.
  - intros H. rewrite Hiff in H. unfold gate.
    rewrite !H; trivial; unfold tag_fields; simpl; tauto.
Qed.

End Reports.

(** * Further properties of the remediation page *)

Section SessionMore.

Variable num : Type.

(** What a click makes of each row of [df_edited]: nothing, or the
    finalized form of the batch row edited from it, which was a ['No']
    row. *)
Lemma click_rows (sel : Selection) (d view edited : DataFrame num) :
  well_formed d -> has_column (columns d) Tagged = true ->
  untagged_view sel d = Some view ->
  data_editor_result view edited ->
  exists g,
    fst (apply_changes d edited) = mkDF (columns d) (map g (rows d)) /\
    forall r0, In r0 (rows d) ->
      g r0 = r0 \/
      exists b, In b (rows edited) /\ edited_row (columns d) r0 b /\
        row_get (columns d) (snd r0) Tagged = Some (Str No) /\
        g r0 = (fst r0, finalize (columns d) (snd b)).
Proof.
  intros Hwf HT Hview Hed.
  apply has_column_col_pos in HT. destruct HT as [pT HpT].
  destruct (click_spec num sel d view edited pT Hwf HpT Hview Hed)
    as [Happ [Hnd [h [Hal Hno]]]].
  exists (row_after (columns d) (rows edited)).
  split; [now rewrite Happ|].
  intros r0 Hr0.
  destruct (in_dec Nat.eq_dec (fst r0) (map fst (rows edited)))
    as [Hin|Hout].
  - right. apply in_map_iff in Hin. destruct Hin as [b [Hb Hin]].
    destruct (Forall2_In_r _ _ _ _ Hal Hin) as [v [Hv Hvr]].
    apply filter_In in Hv. destruct Hv as [Hv Hh].
    assert (v = r0).
    { destruct Hwf as [_ [Hndi _]].
      apply (NoDup_map_inj fst (rows d)); trivial.
      destruct Hvr as [Hf _]. congruence. }
    subst v. exists b. split; [exact Hin|]. split; [exact Hvr|].
    split; [now apply Hno|]. now apply row_after_present.
  - left. now apply row_after_absent.
Qed.

(** Along a logged session the table stays well-formed with the same
    columns, and the ['No'] rows that are gone are the changes reported. *)
Lemma session_log_counts (df ed : DataFrame num) (n : nat) :
  well_formed df -> has_column (columns df) Tagged = true ->
  session_log df ed n ->
  well_formed ed /\ columns ed = columns df /\
  untagged_count ed + n = untagged_count df.
Proof.
  intros Hwf HT Hs.
  induction Hs as [|ed n sel view edited Hs IH Hview Hed Hlen].
  - repeat split; try apply Hwf. lia.
  - destruct IH as [Hwfe [Hc Hcnt]].
    assert (HTe : has_column (columns ed) Tagged = true) by now rewrite Hc.
    pose proof HTe as HT'. apply has_column_col_pos in HT'.
    destruct HT' as [pT HpT].
    destruct (click_spec num sel ed view edited pT Hwfe HpT Hview Hed)
      as [Happ [_ [h [Hal Hno]]]].
    split; [|split].
    + apply (click_well_formed num ed); trivial.
      now apply Click with (sel := sel) (view := view).
    + rewrite Happ. simpl. exact Hc.
    + rewrite Happ. unfold untagged_count in *. cbn [fst snd columns rows].
      destruct Hwfe as [_ [Hnd Hrect]].
      pose proof (untagged_count_after num (columns ed) pT h (rows ed)
                    (rows edited) HpT Hnd Hrect Hno Hal) as Hstep.
      lia.
Qed.

(** In a session the rows stay as many, and the ['No'] rows do not get
    more numerous. *)
Lemma session_counts (df orig ed : DataFrame num) :
  well_formed df -> has_column (columns df) Tagged = true ->
  session df orig ed ->
  columns ed = columns df /\ df_len ed = df_len df /\
  untagged_count ed <= untagged_count df.
Proof.
  intros Hwf HT Hs.
  destruct (session_invariant num df orig ed Hwf HT Hs) as [_ [Hc Hid]].
  split; [exact Hc|]. split.
  - unfold df_len. symmetry. eapply Forall2_length. eassumption.
  - clear Hid. induction Hs as [orig|orig ed ed' Hs IH Hclick]; [lia|].
    destruct (session_invariant num df orig ed Hwf HT Hs)
      as [Hwfe [Hce _]].
    assert (HTe : has_column (columns ed) Tagged = true) by now rewrite Hce.
    destruct (click_shape num ed ed' Hwfe HTe Hclick) as [_ [_ [_ Hle]]].
    specialize (IH Hce). lia.
Qed.

End SessionMore.

(** * The sidebar lists *)

Section SidebarMore.

Variable num : Type.
Variable to_numeric : str -> option num.
Variable object_dtype : bool.
Variable num_compare : num -> num -> comparison.

(** Two values do not compare when one is a string and the other is not. *)
Lemma less_than_none (a b : cell num) :
  less_than num_compare a b = None <-> is_text a <> is_text b.
Proof. destruct a, b; simpl; split; congruence. Qed.

Lemma insert_sorted_same (x : cell num) (l : list (cell num)) :
  (forall y, In y l -> is_text y = is_text x) ->
  exists r, insert_sorted num_compare x l = Some r /\
            forall c, In c r <-> c = x \/ In c l.
Proof.
  induction l as [|y l IH]; intros H.
  - exists [x]. split; [reflexivity|]. intros c. simpl. intuition congruence.
  - simpl. destruct (less_than num_compare x y) as [[|]|] eqn:E.
    + exists (x :: y :: l). split; [reflexivity|]. intros c. simpl.
      intuition congruence.
    + destruct IH as [r [Hr Hin]]; [intros z Hz; apply H; now right|].
      rewrite Hr. exists (y :: r). split; [reflexivity|]. intros c. simpl.
      rewrite Hin. tauto.
    + apply less_than_none in E. contradiction E. symmetry. apply H.
      now left.
Qed.

Lemma insert_sorted_mixed (x y : cell num) (l : list (cell num)) :
  In y l -> (forall z, In z l -> is_text z = is_text y) ->
  is_text x <> is_text y ->
  insert_sorted num_compare x l = None.
Proof.
  destruct l as [|z l]; [contradiction|]. intros _ H Hxy. simpl.
  assert (E : less_than num_compare x z = None).
  { apply less_than_none. rewrite (H z) by now left. exact Hxy. }
  now rewrite E.
Qed.

(** Sorting values that are all strings, or none of them a string, gives
    the same values. *)
Lemma sorted_same (l : list (cell num)) :
  (forall a b, In a l -> In b l -> is_text a = is_text b) ->
  exists r, sorted num_compare l = Some r /\ forall c, In c r <-> In c l.
Proof.
  induction l as [|x l IH]; intros H.
  - exists []. split; [reflexivity | tauto].
  - destruct IH as [r [Hr Hin]].
    { intros a b Ha Hb. apply H; now right. }
    simpl. rewrite Hr. simpl.
    destruct (insert_sorted_same x r) as [r' [Hr' Hin']].
    { intros y Hy. apply H; [right; now apply Hin | now left]. }
    exists r'. split; [exact Hr'|]. intros c. rewrite Hin', Hin.
    simpl. intuition congruence.
Qed.

(** Sorting a string and a value that is not one raises. *)
Lemma sorted_mixed (l : list (cell num)) (a b : cell num) :
  In a l -> In b l -> is_text a <> is_text b ->
  sorted num_compare l = None.
Proof.
  revert a b. induction l as [|x l IH]; intros a b Ha Hb Hab;
    [contradiction|].
  simpl. destruct (sorted num_compare l) as [r|] eqn:Es; [|reflexivity].
  simpl.
  assert (Hsame : forall a' b', In a' l -> In b' l ->
                                is_text a' = is_text b').
  { intros a' b' Ha' Hb'.
    destruct (bool_dec (is_text a') (is_text b')) as [E|E]; trivial.
    discriminate (IH a' b' Ha' Hb' E). }
  destruct (sorted_same l Hsame) as [r' [Hr' Hin]].
  rewrite Es in Hr'. injection Hr' as <-.
  assert (Hy : exists y, In y l /\ is_text x <> is_text y).
  { destruct Ha as [<-|Ha], Hb as [<-|Hb].
    - now contradiction Hab.
    - now exists b.
    - exists a. split; [exact Ha | congruence].
    - contradiction Hab. now apply Hsame. }
  destruct Hy as [y [Hy Hxy]].
  apply (insert_sorted_mixed x y); trivial.
  - now apply Hin.
  - intros z Hz. apply Hsame; [now apply Hin | assumption].
Qed.

(** [unique] keeps, of every value, one that it takes for the same. *)
Lemma unique_grows (l seen : list (cell num)) (c : cell num) :
  In c seen ->
  In c (fold_left
          (fun seen c => if existsb (same_value num_compare c) seen
                         then seen else seen ++ [c]) l seen).
Proof.
  revert seen. induction l as [|a l IH]; intros seen Hc; simpl; trivial.
  apply IH. destruct (existsb (same_value num_compare a) seen); trivial.
  apply in_or_app. now left.
Qed.

Lemma unique_keeps (l seen : list (cell num)) (c : cell num) :
  In c l ->
  exists c',
    In c' (fold_left
             (fun seen c => if existsb (same_value num_compare c) seen
                            then seen else seen ++ [c]) l seen) /\
    (c' = c \/ same_value num_compare c c' = true).
Proof.
  revert seen. induction l as [|a l IH]; intros seen Hc; [contradiction|].
  simpl. destruct Hc as [->|Hc]; [|now apply IH].
  destruct (existsb (same_value num_compare c) seen) eqn:E.
  - apply existsb_exists in E. destruct E as [c' [Hin Hsame]].
    exists c'. split; [now apply unique_grows | now right].
  - exists c. split; [|now left].
    apply unique_grows, in_or_app. right. now left.
Qed.

Lemma unique_from (l seen : list (cell num)) (c : cell num) :
  In c (fold_left
          (fun seen c => if existsb (same_value num_compare c) seen
                         then seen else seen ++ [c]) l seen) ->
  In c seen \/ In c l.
Proof.
  revert seen. induction l as [|a l IH]; intros seen; simpl; [tauto|].
  intros H. apply IH in H. destruct H as [H|H]; [|tauto].
  destruct (existsb (same_value num_compare a) seen); [tauto|].
  apply in_app_or in H. simpl in H. tauto.
Qed.

Lemma same_value_kind (a b : cell num) :
  same_value num_compare a b = true -> is_text a = is_text b.
Proof. destruct a, b; simpl; congruence. Qed.

(** The list of a select box cannot be built exactly when the values hold
    a string and a value that is not one. *)
Lemma options_of_none (values : list (cell num)) :
  options_of num_compare values = None <->
  exists a b, In a values /\ In b values /\
              is_text a = true /\ is_text b = false.
Proof.
  unfold options_of, unique. split.
  - intros H.
    set (u := fold_left
                (fun seen c => if existsb (same_value num_compare c) seen
                               then seen else seen ++ [c]) values []) in *.
    destruct (existsb (@is_text num) u) eqn:E1;
      destruct (existsb (fun c => negb (is_text c)) u) eqn:E2.
    + apply existsb_exists in E1, E2.
      destruct E1 as [a [Ha Hta]]. destruct E2 as [b [Hb Htb]].
      apply negb_true_iff in Htb.
      exists a, b. subst u.
      apply unique_from in Ha, Hb. simpl in Ha, Hb. tauto.
    + exfalso. destruct (sorted_same u) as [r [Hr _]].
      * intros a b Ha Hb.
        assert (Hall : forall c, In c u -> is_text c = true).
        { intros c Hc. destruct (is_text c) eqn:Ec; trivial.
          assert (existsb (fun c => negb (is_text c)) u = true).
          { apply existsb_exists. exists c. now rewrite Ec. }
          congruence. }
        now rewrite (Hall a Ha), (Hall b Hb).
      * rewrite Hr in H. discriminate.
    + exfalso. destruct (sorted_same u) as [r [Hr _]].
      * intros a b Ha Hb.
        assert (Hall : forall c, In c u -> is_text c = false).
        { intros c Hc. destruct (is_text c) eqn:Ec; trivial.
          assert (existsb (@is_text num) u = true).
          { apply existsb_exists. exists c. now rewrite Ec. }
          congruence. }
        now rewrite (Hall a Ha), (Hall b Hb).
      * rewrite Hr in H. discriminate.
    + exfalso. destruct (sorted_same u) as [r [Hr _]].
      * intros a b Ha Hb.
        assert (Hall : forall c, In c u -> is_text c = false).
        { intros c Hc. destruct (is_text c) eqn:Ec; trivial.
          assert (existsb (@is_text num) u = true).
          { apply existsb_exists. exists c. now rewrite Ec. }
          congruence. }
        now rewrite (Hall a Ha), (Hall b Hb).
      * rewrite Hr in H. discriminate.
  - intros [a [b [Ha [Hb [Hta Htb]]]]].
    destruct (unique_keeps values [] a Ha) as [a' [Ha' Hsa]].
    destruct (unique_keeps values [] b Hb) as [b' [Hb' Hsb]].
    assert (Hka : is_text a' = true).
    { destruct Hsa as [->|Hsa]; trivial.
      apply same_value_kind in Hsa. congruence. }
    assert (Hkb : is_text b' = false).
    { destruct Hsb as [->|Hsb]; trivial.
      apply same_value_kind in Hsb. congruence. }
    rewrite (sorted_mixed _ a' b' Ha' Hb'); [reflexivity | congruence].
Qed.

(** In a loaded table, a column other than the cost column holds strings
    and missing values only. *)
Lemma loaded_column_text (content : str) (df : DataFrame num) (col : str)
  (values : list (cell num)) :
  load_data to_numeric object_dtype content = Some df ->
  col <> MonthlyCostUSD ->
  column_values df col = Some values ->
  forall c, In c values -> c = NA \/ exists x, c = Str x.
Proof.
  intros Hload Hcol Hvals c Hc. unfold column_values in Hvals.
  destruct (col_pos (columns df) col) as [p|] eqn:Hp; [|discriminate].
  injection Hvals as <-. apply in_map_iff in Hc.
  destruct Hc as [r [<- Hr]].
  destruct (load_data_rows num to_numeric object_dtype content df r Hload Hr)
    as [fields [Hlen [Hfree E]]].
  apply col_pos_nth in Hp.
  destruct (type_row_nth num to_numeric object_dtype _ _ _ _ Hlen Hp)
    as [x0 [Hx0 Hcell]].
  rewrite <- E in Hcell. unfold cell_at_pos.
  rewrite (nth_error_nth _ _ _ Hcell).
  rewrite Forall_forall in Hfree.
  destruct (Hfree x0 (nth_error_In _ _ Hx0)) as [Hc Hn].
  pose proof (type_cell_kind num to_numeric object_dtype col x0 Hc Hn) as Hk.
  destruct (type_cell to_numeric object_dtype col x0) as [|y|w].
  - now left.
  - right. now exists y.
  - apply str_eqb_eq in Hk. contradiction.
Qed.

Lemma options_of_text (values : list (cell num)) :
  (forall c, In c values -> c = NA \/ exists x, c = Str x) ->
  (options_of num_compare values = None <->
   In NA values /\ exists x, In (Str x) values).
Proof.
  intros Htext. rewrite options_of_none. split.
  - intros [a [b [Ha [Hb [Hta Htb]]]]]. split.
    + destruct (Htext b Hb) as [->|[x ->]]; [exact Hb | discriminate].
    + destruct (Htext a Ha) as [->|[x ->]]; [discriminate | now exists x].
  - intros [Hna [x Hx]]. exists (Str x), NA. now repeat split.
Qed.

Lemma options_of_dropna (values : list (cell num)) :
  (forall c, In c values -> c = NA \/ exists x, c = Str x) ->
  options_of num_compare (dropna values) <> None.
Proof.
  intros Htext H. apply options_of_none in H.
  destruct H as [a [b [_ [Hb [_ Htb]]]]].
  unfold dropna in Hb. apply filter_In in Hb. destruct Hb as [Hb Hnn].
  destruct (Htext b Hb) as [->|[x ->]]; discriminate.
Qed.

Lemma has_column_values (df : DataFrame num) (col : str) :
  has_column (columns df) col = true ->
  exists values, column_values df col = Some values.
Proof.
  intros H. apply has_column_col_pos in H. destruct H as [p Hp].
  unfold column_values. rewrite Hp. simpl. eauto.
Qed.

Lemma column_values_has (df : DataFrame num) (col : str)
  (values : list (cell num)) :
  column_values df col = Some values -> has_column (columns df) col = true.
Proof.
  unfold column_values. intros H. apply has_column_col_pos.
  destruct (col_pos (columns df) col) as [p|]; [now exists p | discriminate].
Qed.

(** X24. For a loaded table that passed the required-columns check, the
    sidebar lists cannot be built, and the run ends in an exception before
    any page is drawn, exactly when the [Service] column, or the [Region]
    column if there is one, holds a missing value and a string.  Missing
    values of [Department] and [Environment] are dropped before sorting and
    never matter. *)
Theorem sidebar_fails_on_missing_value (content : str) (df : DataFrame num) :
  load_data to_numeric object_dtype content = Some df ->
  missing_columns df = [] ->
  (sidebar num_compare df = None <->
   exists col values x,
     (col = Service \/ col = Region) /\
     column_values df col = Some values /\
     In NA values /\ In (Str x) values).
Proof.
  intros Hload Hreq.
  apply missing_columns_nil in Hreq. destruct Hreq as [_ [HS _]].
  destruct (has_column_values df Service HS) as [vs Hvs].
  assert (Htext : forall col values,
            col <> MonthlyCostUSD -> column_values df col = Some values ->
            forall c, In c values -> c = NA \/ exists x, c = Str x).
  { intros col values Hc Hv. eapply loaded_column_text; eassumption. }
  assert (Hdrop : forall col,
            col <> MonthlyCostUSD ->
            guarded_options num_compare df col (@dropna num) <> None).
  { intros col Hc. unfold guarded_options.
    destruct (has_column (columns df) col) eqn:Hh; [|discriminate].
    destruct (has_column_values df col Hh) as [v Hv]. rewrite Hv. simpl.
    pose proof (options_of_dropna v (Htext col v Hc Hv)) as Hd.
    destruct (options_of num_compare (dropna v)); [discriminate|].
    now contradiction Hd. }
  assert (HnS : Service <> MonthlyCostUSD) by (intros E; discriminate E).
  assert (HnR : Region <> MonthlyCostUSD) by (intros E; discriminate E).
  assert (HnD : Department <> MonthlyCostUSD) by (intros E; discriminate E).
  assert (HnE : Environment <> MonthlyCostUSD) by (intros E; discriminate E).
  pose proof (options_of_text vs (Htext Service vs HnS Hvs)) as HoS.
  unfold sidebar. rewrite Hvs. cbn [bind].
  destruct (options_of num_compare vs) as [sv|] eqn:Eo.
  - cbn [bind].
    assert (HnotS : ~ (In NA vs /\ exists x, In (Str x) vs)).
    { intros H. apply HoS in H. discriminate. }
    unfold guarded_options at 1.
    destruct (has_column (columns df) Region) eqn:HR.
    + destruct (has_column_values df Region HR) as [vr Hvr].
      rewrite Hvr. cbn [bind].
      pose proof (options_of_text vr (Htext Region vr HnR Hvr)) as HoR.
      destruct (options_of num_compare vr) as [rv|] eqn:Er.
      * cbn [bind option_map].
        pose proof (Hdrop Department HnD) as HD.
        pose proof (Hdrop Environment HnE) as HE.
        destruct (guarded_options num_compare df Department (@dropna num));
          [|now contradiction HD].
        destruct (guarded_options num_compare df Environment (@dropna num));
          [|now contradiction HE].
        cbn [bind]. split; [discriminate|].
        intros [col [values [x [[-> | ->] [Hv [Hna Hx]]]]]].
        -- rewrite Hvs in Hv. injection Hv as <-. exfalso. apply HnotS.
           split; [exact Hna | now exists x].
        -- rewrite Hvr in Hv. injection Hv as <-.
           assert (H : Some rv = None).
           { apply HoR. split; [exact Hna | now exists x]. }
           discriminate H.
      * cbn [bind option_map]. split; [|reflexivity]. intros _.
        destruct (proj1 HoR eq_refl) as [Hna [x Hx]].
        exists Region, vr, x. tauto.
    + cbn [bind].
      pose proof (Hdrop Department HnD) as HD.
      pose proof (Hdrop Environment HnE) as HE.
      destruct (guarded_options num_compare df Department (@dropna num));
        [|now contradiction HD].
      destruct (guarded_options num_compare df Environment (@dropna num));
        [|now contradiction HE].
      cbn [bind]. split; [discriminate|].
      intros [col [values [x [[-> | ->] [Hv [Hna Hx]]]]]].
      * rewrite Hvs in Hv. injection Hv as <-. exfalso. apply HnotS.
        split; [exact Hna | now exists x].
      * apply column_values_has in Hv. congruence.
  - cbn [bind]. split; [|reflexivity]. intros _.
    destruct (proj1 HoS eq_refl) as [Hna [x Hx]].
    exists Service, vs, x. tauto.
Qed.

End SidebarMore.

(** * The runs of a browser session *)

Section BrowserSession.

Variable num : Type.
Variable to_numeric : str -> option num.
Variable object_dtype : bool.
Variable num_compare : num -> num -> comparison.
Variable files : option str -> Prop.

Lemma store_original_edited (df : DataFrame num) (st : session_state num) :
  df_edited (store_original df st) = df_edited st.
Proof. unfold store_original. now destruct (original_df st). Qed.

Lemma store_edited_original (df : DataFrame num) (st : session_state num) :
  original_df (store_edited df st) = original_df st.
Proof. unfold store_edited. now destruct (df_edited st). Qed.

Lemma store_original_some (df : DataFrame num) (st : session_state num) :
  original_df (store_original df st)
  = Some (match original_df st with Some o => o | None => df end).
Proof. unfold store_original. now destruct (original_df st) eqn:E. Qed.

Lemma store_edited_some (df : DataFrame num) (st : session_state num) :
  df_edited (store_edited df st)
  = Some (match df_edited st with Some e => e | None => df end).
Proof. unfold store_edited. now destruct (df_edited st) eqn:E. Qed.

Lemma load_data_file_some (file : option str) (df : DataFrame num) :
  load_data_file to_numeric object_dtype file = Some df ->
  exists content,
    file = Some content /\
    load_data to_numeric object_dtype content = Some df.
Proof.
  destruct file as [content|]; simpl; [|discriminate].
  intros H. now exists content.
Qed.

(** What holds of the two snapshots in every state of a session.
    [original_df] is a table with rows loaded from one of the files;
    [df_edited] comes, click after click, from a table [df] loaded from one
    of the files, with its required columns; and no count is reported
    before [df_edited] is stored. *)
Lemma browser_invariant (n : nat) (st : session_state num) :
  browser to_numeric object_dtype num_compare files n st ->
  (forall orig, original_df st = Some orig ->
     exists content,
       files (Some content) /\
       load_data to_numeric object_dtype content = Some orig /\
       df_empty orig = false) /\
  (df_edited st = None -> n = 0) /\
  (forall ed, df_edited st = Some ed ->
     exists content df orig,
       files (Some content) /\
       load_data to_numeric object_dtype content = Some df /\
       df_empty df = false /\ missing_columns df = [] /\
       original_df st = Some orig /\
       session df orig ed /\ session_log df ed n).
Proof.
  intros Hb. induction Hb as [|file st n k st' Hb IH Hfile Hrun].
  - simpl. repeat split; intros; discriminate.
  - destruct IH as [IHo [IHn IHe]].
    assert (Hstored : forall df,
              load_data_file to_numeric object_dtype file = Some df ->
              df_empty df = false ->
              forall orig, original_df (store_original df st) = Some orig ->
              exists content,
                files (Some content) /\
                load_data to_numeric object_dtype content = Some orig /\
                df_empty orig = false).
    { intros df Hload Hne orig. rewrite store_original_some.
      intros [= <-]. destruct (original_df st) as [o|] eqn:Eo; [now apply IHo|].
      destruct (load_data_file_some file df Hload) as [content [-> Hc]].
      now exists content. }
    assert (Hpage : forall df,
              load_data_file to_numeric object_dtype file = Some df ->
              df_empty df = false -> missing_columns df = [] ->
              forall ed,
                df_edited (store_edited df (store_original df st)) = Some ed ->
                exists content df0 orig,
                  files (Some content) /\
                  load_data to_numeric object_dtype content = Some df0 /\
                  df_empty df0 = false /\ missing_columns df0 = [] /\
                  original_df (store_original df st) = Some orig /\
                  session df0 orig ed /\ session_log df0 ed n).
    { intros df Hload Hne Hreq ed. rewrite store_edited_some.
      rewrite store_original_edited. intros [= <-].
      destruct (df_edited st) as [e|] eqn:Ee.
      - destruct (IHe e eq_refl)
          as [content [df0 [orig [Hf [Hl [Hn0 [Hr [Ho [Hs Hlog]]]]]]]]].
        exists content, df0, orig. repeat split; trivial.
        rewrite store_original_some, Ho. reflexivity.
      - destruct (load_data_file_some file df Hload) as [content [-> Hc]].
        rewrite (IHn eq_refl).
        exists content, df, (match original_df st with
                             | Some o => o
                             | None => df
                             end).
        repeat split; trivial.
        + apply store_original_some.
        + apply session_start.
        + apply log_start. }
    inversion Hrun as [Hidle|df Hload Hne|df lists Hload Hne Hreq Hside
                       |df lists sel d view edited Hload Hne Hreq Hside Hd
                          Hview Hed Hlen]; subst.
    + rewrite Nat.add_0_r. repeat split; assumption.
    + rewrite Nat.add_0_r. split; [now apply Hstored|].
      rewrite store_original_edited. split; [exact IHn|].
      intros ed He.
      destruct (IHe ed He)
        as [content [df0 [orig [Hf [Hl [Hn0 [Hr [Ho [Hs Hlog]]]]]]]]].
      exists content, df0, orig. repeat split; trivial.
      rewrite store_original_some, Ho. reflexivity.
    + rewrite Nat.add_0_r. split; [|split].
      * rewrite store_edited_original. now apply Hstored.
      * rewrite store_edited_some. discriminate.
      * intros ed He.
        destruct (Hpage df Hload Hne Hreq ed He)
          as [content [df0 [orig [Hf [Hl [Hn0 [Hr [Ho [Hs Hlog]]]]]]]]].
        exists content, df0, orig. repeat split; trivial.
        now rewrite store_edited_original.
    + simpl. split; [now apply Hstored|]. split; [discriminate|].
      intros ed [= <-].
      destruct (IHe d Hd)
        as [content [df0 [orig [Hf [Hl [Hn0 [Hr [Ho [Hs Hlog]]]]]]]]].
      exists content, df0, orig. repeat split; trivial.
      { rewrite store_original_some, Ho. reflexivity. }
      * eapply session_click; [exact Hs|].
        now apply Click with (sel := sel) (view := view).
      * now apply log_click with (sel := sel) (view := view).
Qed.


(** With one file in the uploader during the whole session, both snapshots
    come from the table [df] loaded from it. *)
Lemma one_file_session (content : str) (n : nat) (st : session_state num)
  (original edited : DataFrame num) :
  (forall file, files file -> file = None \/ file = Some content) ->
  browser to_numeric object_dtype num_compare files n st ->
  original_df st = Some original ->
  df_edited st = Some edited ->
  load_data to_numeric object_dtype content = Some original /\
  well_formed original /\
  has_column (columns original) Tagged = true /\
  0 < df_len original /\
  session original original edited /\
  session_log original edited n.
Proof.
  intros Honly Hb Horig He.
  destruct (browser_invariant n st Hb) as [Ho [_ Hed]].
  destruct (Hed edited He)
    as [c [df [orig [Hf [Hl [Hne [Hreq [Horig' [Hs Hlog]]]]]]]]].
  rewrite Horig in Horig'. injection Horig' as <-.
  destruct (Ho original Horig) as [c' [Hf' [Hl' _]]].
  destruct (Honly _ Hf) as [E|E]; [discriminate|]. injection E as ->.
  destruct (Honly _ Hf') as [E|E]; [discriminate|]. injection E as ->.
  assert (df = original) by congruence. subst df.
  split; [exact Hl|].
  split; [eapply load_data_well_formed; eassumption|].
  apply missing_columns_nil in Hreq. destruct Hreq as [_ [_ [_ HT]]].
  split; [exact HT|]. split; [|now split].
  unfold df_empty in Hne. apply orb_false_iff in Hne.
  destruct Hne as [_ Hne]. apply Nat.eqb_neq in Hne. lia.
Qed.

End BrowserSession.

Section Comparison.

Open Scope Q_scope.

Variable to_numeric : str -> option Q.
Variable object_dtype : bool.
Variable num_compare : Q -> Q -> comparison.


Lemma Qdiv_le_compat (x y c : Q) : 0 < c -> x <= y -> x / c <= y / c.
Proof.
  intros Hc Hxy. apply Qle_shift_div_l; trivial.
  unfold Qdiv. rewrite <- Qmult_assoc, (Qmult_comm (/ c)).
  rewrite Qmult_inv_r by lra. lra.
Qed.

(** The percentages of the comparison page between a table with rows and
    what a session made of it. *)
Lemma session_percentages (df orig df_edited : frame) :
  well_formed df -> has_column (columns df) Tagged = true ->
  (0 < df_len df)%nat ->
  session df orig df_edited ->
  exists before_pct after_pct rate,
    untagged_share df = Some before_pct /\
    untagged_share df_edited = Some after_pct /\
    remediation_rate df df_edited = Some rate /\
    0 <= after_pct /\ after_pct <= before_pct /\ before_pct <= 100 /\
    0 <= rate <= 100.
Proof.
  intros Hwf HT Hlen Hs.
  destruct (session_counts Q df orig df_edited Hwf HT Hs)
    as [Hc [Hl Hle]].
  assert (HTe : has_column (columns df_edited) Tagged = true)
    by now rewrite Hc.
  unfold untagged_share, remediation_rate.
  rewrite !untagged_of_count by assumption. cbn [bind]. rewrite Hl.
  set (b := untagged_count df) in *. set (a := untagged_count df_edited) in *.
  assert (Hb : (b <= df_len df)%nat) by apply filter_length_le.
  rewrite !checked_div_nonzero by now apply inject_nat_nonzero.
  assert (Hrate : exists rate,
            (if (0 <? b)%nat
             then option_map (fun x => x * 100)
                    (checked_div (inject_Z (Z.of_nat b - Z.of_nat a))
                                 (inject_Z (Z.of_nat b)))
             else Some 0) = Some rate /\ 0 <= rate <= 100).
  { destruct (Nat.ltb_spec 0 b) as [Hpos|Hpos].
    - rewrite checked_div_nonzero by now apply inject_nat_nonzero.
      eexists. split; [reflexivity|]. simpl.
      rewrite <- Nat2Z.inj_sub by exact Hle.
      apply share_bounds; lia.
    - exists 0. split; [reflexivity | lra]. }
  destruct Hrate as [rate [Hrate Hbound]].
  do 3 eexists. split; [reflexivity|]. split; [reflexivity|].
  split; [exact Hrate|]. simpl.
  assert (Hlen' : 0 < inject_Z (Z.of_nat (df_len df))).
  { change 0 with (inject_Z 0). rewrite <- Zlt_Qlt. lia. }
  assert (Hab : inject_Z (Z.of_nat a) <= inject_Z (Z.of_nat b)).
  { rewrite <- Zle_Qle. lia. }
  pose proof (Qdiv_le_compat _ _ _ Hlen' Hab) as Hdiv.
  destruct (share_bounds a (df_len df)) as [Ha0 _]; [lia | lia |].
  destruct (share_bounds b (df_len df)) as [_ Hb1]; [lia | lia |].
  repeat split; try assumption; try apply Hbound. lra.
Qed.


End Comparison.

(** * The download of the remediated table *)

Section RemediatedDownload.

Variable num : Type.
Variable to_numeric : str -> option num.
Variable object_dtype : bool.
Variable num_repr : num -> str.
Hypothesis Hreads : reads_back to_numeric num_repr.
Hypothesis Hprints : prints_plain num_repr.

Lemma enumerate_from_labels {A} (l : list (nat * A)) (n : nat) :
  map fst l = seq n (length l) -> enumerate_from n (map snd l) = l.
Proof.
  revert n. induction l as [|[i x] l IH]; intros n; simpl; trivial.
  intros [= -> H]. now rewrite IH.
Qed.

Lemma loaded_shape_labels (d : DataFrame num) :
  loaded_shape d -> map fst (rows d) = seq 0 (length (rows d)).
Proof.
  intros [_ [_ [_ [Hidx _]]]]. rewrite Hidx at 1.
  rewrite index_enumerate_from. now rewrite length_map.
Qed.

Lemma loaded_shape_well_formed (d : DataFrame num) :
  loaded_shape d -> well_formed d.
Proof.
  intros Hs. pose proof (loaded_shape_labels d Hs) as Hl.
  destruct Hs as [_ [Hd [_ [_ Hrows]]]].
  split; [exact Hd|]. split.
  - unfold index. rewrite Hl. apply seq_NoDup.
  - revert Hrows. apply Forall_impl. intros r. apply row_shape_length.
Qed.

(** A table with the shape of a loaded table and no double quote loads
    back from its export. *)
Lemma shaped_table_reloads (d : DataFrame num) :
  loaded_shape d -> quote_free d = true ->
  load_data to_numeric object_dtype (to_csv num_repr d) = Some d.
Proof.
  intros Hshape Hq.
  pose proof (export_records_plain num num_repr Hprints d Hshape Hq) as Hp.
  pose proof (export_lines num num_repr Hprints d Hshape Hq) as Hlines.
  destruct Hshape as [Hne [Hd [Hclean [Hidx Hrows]]]].
  assert (Hfields : forall T, In T (export_records num_repr d) ->
            fields_of (csv_record T) = T /\ length T = length (columns d)).
  { intros T HT. rewrite Forall_forall in Hp.
    destruct (Hp T HT) as [Hl HpT]. split; trivial.
    apply record_reads_back; trivial.
    intros ->. simpl in Hl. destruct (columns d); [congruence|].
    discriminate. }
  assert (Hhead : headers_of (to_csv num_repr d) = columns d).
  { unfold headers_of. rewrite Hlines. unfold export_records. simpl.
    change (split comma (unquote (strip (csv_record (columns d)))))
      with (fields_of (csv_record (columns d))).
    destruct (Hfields (columns d)) as [-> _]; [now left|].
    rewrite <- (map_id (columns d)) at 2. apply map_ext_in.
    intros h Hh. rewrite Forall_forall in Hclean.
    specialize (Hclean h Hh). unfold clean_text in Hclean.
    rewrite !andb_true_iff in Hclean. now apply trimmed_strip. }
  assert (Hdata : data_rows_of (to_csv num_repr d)
                  = map (fun r => map (cell_text num_repr) (snd r))
                        (rows d)).
  { rewrite data_rows_of_map, Hhead, Hlines. simpl. rewrite map_map.
    rewrite map_map. apply map_ext_in. intros r Hr.
    destruct (Hfields (map (cell_text num_repr) (snd r))) as [-> Hl].
    { right. now apply in_map with (f := fun r0 =>
        map (cell_text num_repr) (snd r0)). }
    now apply repair_same_width. }
  rewrite load_data_some by now rewrite Hhead.
  rewrite Hhead, Hdata. destruct d as [cols rs]. simpl in *.
  f_equal. f_equal. rewrite Hidx at 2. f_equal.
  rewrite map_map. apply map_ext_in. intros r Hr.
  apply (type_row_back num to_numeric object_dtype num_repr Hreads Hprints).
  rewrite Forall_forall in Hrows. now apply Hrows.
Qed.

Lemma row_shape_upd (cols : list str) (col : str) (p : nat) (c : cell num)
  (r : list (cell num)) :
  col_pos cols col = Some p -> cell_shape col c = true ->
  row_shape cols r = true -> row_shape cols (upd p c r) = true.
Proof.
  revert p r. induction cols as [|h cols IH]; intros p [|x r]; simpl;
    try discriminate.
  destruct (str_eqb col h) eqn:E.
  - intros [= <-] Hc. apply str_eqb_eq in E. subst h.
    rewrite !andb_true_iff. intros [_ Hr]. simpl. now rewrite Hc.
  - destruct (col_pos cols col) as [p'|] eqn:Hp; [|discriminate].
    simpl. intros [= <-] Hc. rewrite !andb_true_iff. intros [Hx Hr].
    simpl. rewrite Hx. now apply IH.
Qed.

Lemma forallb_upd {A} (f : A -> bool) (p : nat) (c : A) (r : list A) :
  f c = true -> forallb f r = true -> forallb f (upd p c r) = true.
Proof.
  intros Hc. revert p. induction r as [|x r IH]; intros [|p]; simpl;
    trivial; rewrite !andb_true_iff; intros [Hx Hr].
  - now rewrite Hc.
  - rewrite Hx. auto.
Qed.

Lemma finalize_shape (cols : list str) (r : list (cell num)) :
  row_shape cols r = true -> row_shape cols (finalize cols r) = true.
Proof.
  intros Hr. unfold finalize. destruct (gate cols r); trivial.
  destruct (col_pos cols Tagged) as [p|] eqn:Hp; trivial.
  now apply (row_shape_upd cols Tagged).
Qed.

Lemma finalize_quote_free (cols : list str) (r : list (cell num)) :
  forallb (cell_free_of dquote) r = true ->
  forallb (cell_free_of dquote) (finalize cols r) = true.
Proof.
  intros Hr. unfold finalize. destruct (gate cols r); trivial.
  destruct (col_pos cols Tagged) as [p|]; trivial.
  now apply forallb_upd.
Qed.


End RemediatedDownload.

(** * The further properties on the example files and tables *)

Lemma loaded_table_layout_witness :
  columns two_resources_table = headers_of two_resources_file /\
  df_len two_resources_table = length (tl (lines_of two_resources_file)) /\
  index two_resources_table = seq 0 (df_len two_resources_table) /\
  Forall (fun r => length (snd r) = length (columns two_resources_table))
         (rows two_resources_table) /\
  forall i line,
    nth_error (tl (lines_of two_resources_file)) i = Some line ->
    nth_error (rows two_resources_table) i
    = Some (i, type_row Decimal.to_numeric true
                 (columns two_resources_table)
                 (repair (length (columns two_resources_table))
                         (fields_of line))).
Proof.
  apply (loaded_table_layout Z Decimal.to_numeric true two_resources_file
           two_resources_table).
  reflexivity.
Defined.

Lemma loaded_cells_witness :
  (forall x, @Str Z (s "EC2") = Str x ->
     Service <> MonthlyCostUSD /\ x <> [] /\
     ~ In comma x /\ ~ In newline x /\
     (true = true -> strip x = x)) /\
  (forall v : Z, Str (s "EC2") = Num v -> Service = MonthlyCostUSD).
Proof.
  apply (loaded_cells Z Decimal.to_numeric true two_resources_file
           two_resources_table
           (0, [Str (s "r1"); Str (s "EC2"); NA; NA; NA; Num 100%Z; Str No])
           Service (Str (s "EC2"))).
  - reflexivity.
  - simpl. tauto.
  - reflexivity.
Defined.

Lemma long_row_truncated_witness :
  nth_error (data_rows_of long_row_file) 0
  = Some (firstn (length (headers_of long_row_file))
                 (fields_of (s "r1,Yes,extra"))).
Proof.
  apply (long_row_truncated long_row_file 0 (s "r1,Yes,extra")).
  - reflexivity.
  - vm_compute. lia.
Defined.

Lemma blank_line_gives_missing_row_witness :
  nth_error
    (rows (mkDF [s "ResourceID"; Tagged]
             [(0, [@NA Z; NA]); (1, [Str (s "r1"); Str Yes])])) 0
  = Some (0, repeat NA 2).
Proof.
  apply (blank_line_gives_missing_row Z Decimal.to_numeric true
           blank_line_file
           0 []
           (mkDF [s "ResourceID"; Tagged]
              [(0, [NA; NA]); (1, [Str (s "r1"); Str Yes])])).
  - reflexivity.
  - reflexivity.
  - reflexivity.
Defined.

Lemma wrapped_line_fields_witness :
  fields_of (s "  " ++ (dquote :: s "a,b" ++ [dquote]) ++ ["013"%char])
  = split comma (s "a,b").
Proof.
  apply (wrapped_line_fields (s "  ") (s "a,b") ["013"%char]);
    reflexivity.
Defined.

Lemma surrounding_space_ignored_witness :
  load_data Decimal.to_numeric true
    ([newline] ++ two_resources_file ++ [newline])
  = load_data Decimal.to_numeric true two_resources_file.
Proof.
  apply (surrounding_space_ignored Z Decimal.to_numeric true [newline]
           two_resources_file [newline]); reflexivity.
Defined.

Lemma editor_table_is_filtered_no_witness :
  untagged_view no_selection two_resources
  = option_map (@env_filtered_df Q)
      (apply_filters (mkSel All All All All No) two_resources).
Proof.
  apply (editor_table_is_filtered_no Q no_selection two_resources);
    reflexivity.
Defined.

Lemma filters_compose_witness :
  let sel1 := mkSel (s "EC2") All All All All in
  let sel2 := mkSel All All All All No in
  apply_filters sel2 (filter_spec sel1 two_resources)
  = Some (mkEnv (filter_spec sel1 two_resources)
            (mkDF (columns two_resources)
               (filter
                  (fun r => satisfies sel1 (columns two_resources) (snd r)
                            && satisfies sel2 (columns two_resources)
                                 (snd r))
                  (rows two_resources)))) /\
  filter_spec sel2 (filter_spec sel1 two_resources)
  = filter_spec sel1 (filter_spec sel2 two_resources) /\
  filter_spec sel2 (filter_spec sel2 two_resources)
  = filter_spec sel2 two_resources.
Proof.
  apply (filters_compose Q (mkSel (s "EC2") All All All All)
           (mkSel All All All All No) two_resources); reflexivity.
Defined.

Lemma required_columns_suffice_witness :
  exists filtered_df untagged_df,
    apply_filters no_selection two_resources
    = Some (mkEnv two_resources filtered_df) /\
    untagged_view no_selection two_resources = Some untagged_df /\
    columns filtered_df = columns two_resources /\
    columns untagged_df = columns two_resources /\
    missing_columns filtered_df = [] /\
    missing_columns untagged_df = [].
Proof.
  apply (required_columns_suffice Q Qcompare no_selection two_resources
           (mkLists [Str All; Str (s "EC2"); Str (s "S3")] None
                    (Some [Str All; Str (s "Eng")]) None)).
  - reflexivity.
  - reflexivity.
Defined.

(** The file with the short line passes the required-columns check, and
    its sidebar lists cannot be built: the service of the third resource is
    missing beside the services of the other two. *)
Lemma short_line_stops_the_sidebar :
  load_data Decimal.to_numeric true short_line_file = Some short_line_table /\
  load_data Decimal.to_numeric false short_line_file
    = Some short_line_table /\
  missing_columns short_line_table = [] /\
  sidebar Z.compare short_line_table = None.
Proof. repeat split; reflexivity. Qed.

Lemma sidebar_fails_on_missing_value_witness :
  sidebar Z.compare short_line_table = None <->
  exists col values x,
    (col = Service \/ col = Region) /\
    column_values short_line_table col = Some values /\
    In NA values /\ In (Str x) values.
Proof.
  apply (sidebar_fails_on_missing_value Z Decimal.to_numeric true Z.compare
           short_line_file short_line_table).
  - reflexivity.
  - reflexivity.
Defined.


Lemma tag_percentages_witness :
  exists t u,
    tagged_pct two_resources = Some t /\
    untagged_pct two_resources = Some u /\
    (0 <= t <= 100)%Q /\ (0 <= u <= 100)%Q /\
    (df_len two_resources = 0 -> (t == 0)%Q /\ (u == 0)%Q).
Proof.
  apply (tag_percentages two_resources). reflexivity.
Defined.

(** The end-to-end session: the file is uploaded, the remediation page is
    drawn, and one click fills in the first resource. *)
Lemma two_resources_browser :
  browser whole_cost true Qcompare
    (fun file => file = None \/ file = Some two_resources_file)
    1 (mkState (Some two_resources) (Some remediated_two_resources)).
Proof.
  change 1 with (0 + 0 + snd (apply_changes two_resources two_resources_edit)).
  eapply browser_run with (file := Some two_resources_file)
    (st := mkState (Some two_resources) (Some two_resources)).
  - eapply browser_run with (file := Some two_resources_file)
      (st := initial_state Q).
    + apply browser_start.
    + now right.
    + eapply run_remediation with (df := two_resources); reflexivity.
  - now right.
  - eapply run_apply with (df := two_resources) (sel := no_selection)
      (d := two_resources) (view := two_resources_view)
      (edited_data := two_resources_edit); try reflexivity.
    + exact two_resources_edit_ok.
    + unfold df_len. simpl. lia.
Qed.





Lemma two_resources_table_shape : loaded_shape two_resources_table.
Proof.
  apply (load_data_shape Z Decimal.to_numeric true two_resources_file).
  - reflexivity.
  - discriminate.
Qed.

Lemma two_resources_table_edit_ok :
  data_editor_result two_resources_table_view two_resources_table_edit.
Proof. editor_result. Qed.


(** * Rows a click leaves alone, blank files, and the tag report *)

Section Untouched.

Variable num : Type.
Variable to_numeric : str -> option num.
Variable object_dtype : bool.


(** X22. An empty file, or one of white space only, is not an error: it
    loads as a table with one column, labelled by the empty string, and no
    row; that table is empty and lacks every required column. *)
Theorem blank_file_loads_empty (content : str) :
  forallb isspace content = true ->
  load_data to_numeric object_dtype content = Some (mkDF [[]] []) /\
  df_empty (@mkDF num [[]] []) = true /\
  missing_columns (@mkDF num [[]] []) = required_columns.
Proof.
  intros Hsp.
  assert (Hl : lines_of content = [[]]).
  { unfold lines_of, strip. now rewrite (lstrip_spaces _ Hsp). }
  split; [|split; reflexivity].
  unfold load_data, data_rows_of, headers_of. rewrite Hl. reflexivity.
Qed.

Lemma filter_partition {A} (f : A -> bool) (l : list A) :
  length (filter f l) + length (filter (fun x => negb (f x)) l) = length l.
Proof.
  induction l as [|x l IH]; simpl; trivial.
  destruct (f x); simpl; lia.
Qed.

Lemma list_sum_add {A} (f g : A -> nat) (l : list A) :
  list_sum (map (fun x => f x + g x) l)
  = list_sum (map f l) + list_sum (map g l).
Proof.
  induction l as [|x l IH]; simpl; trivial. rewrite IH. lia.
Qed.

Lemma list_sum_indicator {A} (f : A -> bool) (l : list A) :
  list_sum (map (fun x => if f x then 1 else 0) l) = length (filter f l).
Proof.
  induction l as [|x l IH]; simpl; trivial.
  destruct (f x); simpl; now rewrite IH.
Qed.

(** X23. The completeness scores and the missing-tag counts account for
    every cell of the tag columns: the scores of all rows and the missing
    counts of all tag fields add up to the number of rows times the number
    of tag fields that are columns. *)
Theorem scores_and_missing_counts (df : DataFrame num) :
  list_sum (map (fun r => completeness_score (columns df) (snd r)) (rows df))
  + list_sum (map snd (missing_tags df))
  = df_len df * length (existing_tag_fields (columns df)).
Proof.
  unfold missing_tags, missing_tag_count, df_len. rewrite map_map. simpl.
  set (F := existing_tag_fields (columns df)).
  induction (rows df) as [|r rs IH]; simpl.
  - induction F as [|f F IHF]; simpl; trivial.
  - assert (Hsplit :
      list_sum
        (map (fun f => length
                (if negb (filled (columns df) (snd r) f)
                 then r :: filter
                        (fun r0 => negb (filled (columns df) (snd r0) f)) rs
                 else filter
                        (fun r0 => negb (filled (columns df) (snd r0) f)) rs))
             F)
      = length (filter (fun f => negb (filled (columns df) (snd r) f)) F)
        + list_sum
            (map (fun f => length
                    (filter
                       (fun r0 => negb (filled (columns df) (snd r0) f)) rs))
                 F)).
    { rewrite <- list_sum_indicator, <- list_sum_add. f_equal.
      apply map_ext. intros f.
      now destruct (negb (filled (columns df) (snd r) f)). }
    rewrite Hsplit. unfold completeness_score at 1. fold F.
    pose proof (filter_partition (filled (columns df) (snd r)) F). lia.
Qed.

End Untouched.


Lemma blank_file_loads_empty_witness :
  load_data Decimal.to_numeric true [newline; " "%char]
  = Some (mkDF [[]] []) /\
  df_empty (@mkDF Z [[]] []) = true /\
  missing_columns (@mkDF Z [[]] []) = required_columns.
Proof.
  apply (blank_file_loads_empty Z Decimal.to_numeric true
           [newline; " "%char]).
  reflexivity.
Defined.
